(** * Mnemo: the token-targeted crawler and its collaborators

    A shallow embedding of
      - packages/core/src/adapters/url-adapter/link-scorer.ts
      - packages/core/src/adapters/url-adapter/robots.ts
      - packages/core/src/adapters/url-adapter/crawler.ts
      - packages/mcp-server/src/tools/handlers.ts (combineLoadedSources)
    together with the part of the JavaScript platform these files call
    (string methods, the URL class, RegExp.test).

    Conventions.
      - A JavaScript string is a Rocq [string], read as its UTF-8 bytes.
        Every text the examples use is ASCII, where bytes, code units and
        code points coincide.  Lower-casing and trimming act on ASCII.
      - A JavaScript number that the code only uses as an integer (scores,
        depths, token counts, caps) is a [Z].
      - The visited set is a [gset string], the robots cache a
        [gmap string RobotsChecker].
      - Code that can throw returns a [completion]. *)

From Stdlib Require Import ZArith Lia Permutation Sorted Ascii String.
From stdpp Require Import gmap strings list.

Open Scope string_scope.
Open Scope Z_scope.

(** ** Completions: a value returned or an exception thrown *)

Inductive completion (A : Type) : Type :=
| Returns (a : A)
| Throws (message : string).
Arguments Returns {A} a.
Arguments Throws {A} message.

#[global] Instance completion_ret : MRet completion := fun _ a => Returns a.

#[global] Instance completion_bind : MBind completion := fun _ _ k c =>
  match c with
  | Returns a => k a
  | Throws m => Throws m
  end.

(** ** JavaScript string methods used by the sources *)

Module JS.

Definition code (c : ascii) : N := N_of_ascii c.

Definition inRange (lo hi : N) (c : ascii) : bool :=
  ((lo <=? code c) && (code c <=? hi))%N.

Definition isUpper := inRange 65 90.
Definition isLower := inRange 97 122.
Definition isDigit := inRange 48 57.
Definition isAlpha (c : ascii) : bool := isUpper c || isLower c.
Definition isAlnum (c : ascii) : bool := isAlpha c || isDigit c.
Definition isHexDigit (c : ascii) : bool :=
  isDigit c || inRange 65 70 c || inRange 97 102 c.

Definition lowerChar (c : ascii) : ascii :=
  if isUpper c then ascii_of_N (code c + 32) else c.

Fixpoint mapS (f : ascii -> ascii) (s : string) : string :=
  match s with
  | EmptyString => EmptyString
  | String c r => String (f c) (mapS f r)
  end.

(** [s.toLowerCase()] *)
Definition toLowerCase : string -> string := mapS lowerChar.

(** [s.startsWith(p)] *)
Definition startsWith (s p : string) : bool := String.prefix p s.

(** [s.includes(p)] *)
Fixpoint includes (s p : string) : bool :=
  startsWith s p ||
  match s with
  | EmptyString => false
  | String _ r => includes r p
  end.

Fixpoint revS (acc s : string) : string :=
  match s with
  | EmptyString => acc
  | String c r => revS (String c acc) r
  end.

Definition reverse (s : string) : string := revS EmptyString s.

(** [s.endsWith(p)] *)
Definition endsWith (s p : string) : bool :=
  startsWith (reverse s) (reverse p).

(** [Array.prototype.some] *)
Definition some {A} (f : A -> bool) (l : list A) : bool := existsb f l.

(** The pieces of [s] between the characters satisfying [isSep]: never
    empty, empty pieces kept. *)
Fixpoint splitWhen (isSep : ascii -> bool) (s : string) : list string :=
  match s with
  | EmptyString => [EmptyString]
  | String c r =>
      if isSep c then EmptyString :: splitWhen isSep r
      else match splitWhen isSep r with
           | [] => [String c EmptyString]
           | p :: ps => String c p :: ps
           end
  end.

(** [s.split(c)] for a one-character separator. *)
Definition split (sep : ascii) : string -> list string := splitWhen (Ascii.eqb sep).

(** [l.join(sep)] *)
Definition join (sep : string) (l : list string) : string := String.concat sep l.

(** [l.slice(0, -1)] *)
Definition dropLast {A} (l : list A) : list A := removelast l.

(** [s.slice(0, -1)] *)
Definition sliceInit (s : string) : string :=
  match reverse s with
  | EmptyString => EmptyString
  | String _ r => reverse r
  end.

(** [s.length] *)
Definition len (s : string) : Z := Z.of_nat (String.length s).

(** White space removed by [trim], on ASCII: TAB, LF, VT, FF, CR, space. *)
Definition isSpace (c : ascii) : bool := inRange 9 13 c || (code c =? 32)%N.

Fixpoint trimStart (s : string) : string :=
  match s with
  | String c r => if isSpace c then trimStart r else s
  | EmptyString => EmptyString
  end.

(** [s.trim()] *)
Definition trim (s : string) : string :=
  reverse (trimStart (reverse (trimStart s))).

(** [s.indexOf(c)] as the split at the first occurrence: [None] for -1,
    otherwise [s.slice(0, i)] and [s.slice(i + 1)]. *)
Fixpoint cutAt (sep : ascii) (s : string) : option (string * string) :=
  match s with
  | EmptyString => None
  | String c r =>
      if Ascii.eqb c sep then Some (EmptyString, r)
      else match cutAt sep r with
           | Some (a, b) => Some (String c a, b)
           | None => None
           end
  end.

(** [s.replace(/\/$/, '')] *)
Definition stripTrailingSlash (s : string) : string :=
  if endsWith s "/" then sliceInit s else s.

Definition hexDigit (n : N) : ascii :=
  if (n <? 10)%N then ascii_of_N (48 + n) else ascii_of_N (55 + n).

Definition hexValue (c : ascii) : N :=
  if isDigit c then (code c - 48)%N
  else if inRange 65 70 c then (code c - 55)%N
  else (code c - 87)%N.

Fixpoint digitsValue (acc : Z) (s : string) : Z :=
  match s with
  | EmptyString => acc
  | String c r => digitsValue (10 * acc + Z.of_N (code c - 48)) r
  end.

Fixpoint decimalFuel (fuel : nat) (n : Z) (acc : string) : string :=
  match fuel with
  | O => acc
  | S f =>
      let acc' := String (ascii_of_N (48 + Z.to_N (n mod 10))) acc in
      if n <? 10 then acc' else decimalFuel f (n / 10) acc'
  end.

(** [String(n)] for an integer [n]. *)
Definition showZ (n : Z) : string :=
  if n <? 0 then String "-" (decimalFuel (Z.to_nat (- n) + 1) (- n) EmptyString)
  else decimalFuel (Z.to_nat n + 1) n EmptyString.

End JS.

(** ** The platform's URL class

    Modelled from the WHATWG URL Standard (the URL class belongs to the
    JavaScript runtime, not to the repository): the basic URL parser, the URL
    serializer, the getters and setters the sources use, and the
    application/x-www-form-urlencoded parser and serializer behind
    [searchParams].

    The model follows the standard for every scheme except [file:] and for
    hosts that are ASCII domain names (or, under a non-special scheme, opaque
    hosts).  IPv4 and IPv6 literals, hosts that need IDNA processing and the
    [file:] scheme are not modelled: [parse] reports them as failures. *)

Module URL.

Inductive Path :=
| Opaque (p : string)
| Segments (l : list string).

Record t := mk {
  scheme : string;
  username : string;
  password : string;
  host : option string;
  port : option Z;
  path : Path;
  query : option string;
  fragment : option string }.

Definition oneOf (chars : string) (c : ascii) : bool :=
  JS.includes chars (String c EmptyString).

(** The percent-encode sets. *)
Definition c0ControlSet (c : ascii) : bool :=
  ((JS.code c <=? 31) || (126 <? JS.code c))%N.
Definition isQuote (c : ascii) : bool := (JS.code c =? 34)%N.
Definition fragmentSet (c : ascii) : bool := c0ControlSet c || isQuote c || oneOf " <>`" c.
Definition querySet (c : ascii) : bool := c0ControlSet c || isQuote c || oneOf " #<>" c.
Definition specialQuerySet (c : ascii) : bool := querySet c || oneOf "'" c.
Definition pathSet (c : ascii) : bool := querySet c || oneOf "?^`{}" c.
Definition userinfoSet (c : ascii) : bool := pathSet c || oneOf "/:;=@[\]|" c.

Definition percentByte (c : ascii) : string :=
  String "%" (String (JS.hexDigit (JS.code c / 16))
                     (String (JS.hexDigit (JS.code c mod 16)) EmptyString)).

Fixpoint percentEncode (set : ascii -> bool) (s : string) : string :=
  match s with
  | EmptyString => EmptyString
  | String c r =>
      if set c then percentByte c ++ percentEncode set r
      else String c (percentEncode set r)
  end.

Fixpoint percentDecode (s : string) : string :=
  match s with
  | EmptyString => EmptyString
  | String c r =>
      match r with
      | String h1 (String h2 r') =>
          if Ascii.eqb c "%" && JS.isHexDigit h1 && JS.isHexDigit h2
          then String (ascii_of_N (16 * JS.hexValue h1 + JS.hexValue h2))
                      (percentDecode r')
          else String c (percentDecode r)
      | _ => String c (percentDecode r)
      end
  end.

Fixpoint allS (p : ascii -> bool) (s : string) : bool :=
  match s with
  | EmptyString => true
  | String c r => p c && allS p r
  end.

Definition anyS (p : ascii -> bool) (s : string) : bool :=
  negb (allS (fun c => negb (p c)) s).

Fixpoint filterS (p : ascii -> bool) (s : string) : string :=
  match s with
  | EmptyString => EmptyString
  | String c r => if p c then String c (filterS p r) else filterS p r
  end.

Fixpoint dropWhileS (p : ascii -> bool) (s : string) : string :=
  match s with
  | String c r => if p c then dropWhileS p r else s
  | EmptyString => EmptyString
  end.

(** The longest prefix without a character satisfying [p], and the rest
    (which starts with that character, or is empty). *)
Fixpoint span (p : ascii -> bool) (s : string) : string * string :=
  match s with
  | EmptyString => (EmptyString, EmptyString)
  | String c r =>
      if p c then (EmptyString, s)
      else let '(a, b) := span p r in (String c a, b)
  end.

Definition isC0OrSpace (c : ascii) : bool := (JS.code c <=? 32)%N.
Definition isTabOrNewline (c : ascii) : bool := oneOf (String "009" (String "010" (String "013" EmptyString))) c.

Definition preprocess (input : string) : string :=
  let s := JS.reverse (dropWhileS isC0OrSpace (JS.reverse (dropWhileS isC0OrSpace input))) in
  filterS (fun c => negb (isTabOrNewline c)) s.

Definition isSchemeChar (c : ascii) : bool := JS.isAlnum c || oneOf "+-." c.

(** Scheme start state and scheme state: the lower-cased scheme and what
    follows the colon, or [None] when the input has no scheme. *)
Definition scanScheme (s : string) : option (string * string) :=
  match JS.cutAt ":" s with
  | Some (String c a, rest) =>
      if JS.isAlpha c && allS isSchemeChar a
      then Some (JS.toLowerCase (String c a), rest)
      else None
  | _ => None
  end.

Definition isSpecial (sch : string) : bool :=
  JS.some (String.eqb sch) ["ftp"; "file"; "http"; "https"; "ws"; "wss"].

Definition defaultPort (sch : string) : option Z :=
  if String.eqb sch "ftp" then Some 21
  else if String.eqb sch "http" || String.eqb sch "ws" then Some 80
  else if String.eqb sch "https" || String.eqb sch "wss" then Some 443
  else None.

Definition isSingleDot (b : string) : bool :=
  JS.some (String.eqb (JS.toLowerCase b)) ["."; "%2e"].
Definition isDoubleDot (b : string) : bool :=
  JS.some (String.eqb (JS.toLowerCase b)) [".."; ".%2e"; "%2e."; "%2e%2e"].

Definition isLast {A} (rest : list A) : bool :=
  match rest with [] => true | _ => false end.

(** Path state over the buffers between the slashes: a double-dot segment
    shortens the path, a single-dot segment is dropped, and either one leaves
    an empty segment when it ends the path. *)
Fixpoint pathState (buffers : list string) (path : list string) : list string :=
  match buffers with
  | [] => path
  | b :: rest =>
      let path' :=
        if isDoubleDot b then
          (if isLast rest then (JS.dropLast path ++ [EmptyString])%list else JS.dropLast path)
        else if isSingleDot b then
          (if isLast rest then (path ++ [EmptyString])%list else path)
        else (path ++ [b])%list in
      pathState rest path'
  end.

Definition isSlash (special : bool) (c : ascii) : bool :=
  Ascii.eqb c "/" || (special && Ascii.eqb c "\").

Definition buffersOf (special : bool) (s : string) : list string :=
  map (percentEncode pathSet) (JS.splitWhen (isSlash special) s).

Definition fragmentState (f : string) (u : t) : t :=
  mk (scheme u) (username u) (password u) (host u) (port u) (path u) (query u)
     (Some (percentEncode fragmentSet f)).

Definition queryState (special : bool) (s : string) (u : t) : t :=
  let '(q, tail) := span (Ascii.eqb "#") s in
  let u' := mk (scheme u) (username u) (password u) (host u) (port u) (path u)
               (Some (percentEncode (if special then specialQuerySet else querySet) q))
               (fragment u) in
  match tail with
  | String _ f => fragmentState f u'
  | EmptyString => u'
  end.

(** What follows a path: a query, a fragment, or the end of the input. *)
Definition afterPath (special : bool) (tail : string) (u : t) : t :=
  match tail with
  | String c r => if Ascii.eqb c "?" then queryState special r u else fragmentState r u
  | EmptyString => u
  end.

Definition withPath (p : Path) (u : t) : t :=
  mk (scheme u) (username u) (password u) (host u) (port u) p (query u) (fragment u).

(** Path state from [s], appending to [init], then the query and fragment. *)
Definition pathAndAfter (special : bool) (init : list string) (s : string) (u : t) : t :=
  let '(p, tail) := span (oneOf "?#") s in
  afterPath special tail (withPath (Segments (pathState (buffersOf special p) init)) u).

(** Path start state. *)
Definition pathStart (special : bool) (s : string) (u : t) : t :=
  match s with
  | EmptyString => if special then pathAndAfter special [] s u else u
  | String c r =>
      if isSlash special c then pathAndAfter special [] r u
      else if special then pathAndAfter special [] s u
      else if oneOf "?#" c then afterPath special s u
      else pathAndAfter special [] s u
  end.

Definition forbiddenHost (c : ascii) : bool :=
  (JS.code c =? 0)%N || isTabOrNewline c || oneOf " #/:<>?@[\]^|" c.
Definition forbiddenDomain (c : ascii) : bool :=
  forbiddenHost c || (JS.code c <=? 31)%N || oneOf "%" c || (JS.code c =? 127)%N.

Definition lastOf (l : list string) : string := List.last l EmptyString.

(** The ends-in-a-number checker of the host parser. *)
Definition endsInNumber (domain : string) : bool :=
  let parts := JS.split "." domain in
  let parts := if String.eqb (lastOf parts) "" && (1 <? Z.of_nat (length parts))
               then JS.dropLast parts else parts in
  match lastOf parts with
  | EmptyString => false
  | String c r as l =>
      allS JS.isDigit l ||
      (Ascii.eqb c "0" &&
       match r with
       | String x h => oneOf "xX" x && allS JS.isHexDigit h
       | EmptyString => false
       end)
  end.

(** Host parser.  [None] is a failure of the standard's parser or a host
    outside the model (bracketed IPv6, IDNA, IPv4). *)
Definition parseHost (special : bool) (input : string) : option string :=
  if JS.startsWith input "[" then None
  else if special then
    let domain := JS.toLowerCase (percentDecode input) in
    if anyS (fun c => (127 <? JS.code c)%N) domain then None
    else if JS.some (fun l => JS.startsWith l "xn--") (JS.split "." domain) then None
    else if String.eqb domain "" then None
    else if anyS forbiddenDomain domain then None
    else if endsInNumber domain then None
    else Some domain
  else if anyS forbiddenHost input then None
  else Some (percentEncode c0ControlSet input).

(** Port state on what follows the colon of the authority. *)
Definition parsePort (sch : string) (digits : string) : option (option Z) :=
  if negb (allS JS.isDigit digits) then None
  else if String.eqb digits "" then Some None
  else
    let p := JS.digitsValue 0 digits in
    if 65535 <? p then None
    else if bool_decide (defaultPort sch = Some p) then Some None
    else Some (Some p).

(** The split of a string at its last occurrence of [sep]. *)
Definition cutAtLast (sep : ascii) (s : string) : option (string * string) :=
  match JS.cutAt sep (JS.reverse s) with
  | Some (b, a) => Some (JS.reverse a, JS.reverse b)
  | None => None
  end.

(** Authority state, host state and port state, then the path. *)
Definition authority (special : bool) (sch : string) (s : string) : option t :=
  let '(auth, rest) := span (fun c => isSlash special c || oneOf "?#" c) s in
  let '(creds, hostport, atSignSeen) :=
    match cutAtLast "@" auth with
    | Some (c, h) => (c, h, true)
    | None => (EmptyString, auth, false)
    end in
  let '(user, pass) :=
    match JS.cutAt ":" creds with
    | Some (u, p) => (u, p)
    | None => (creds, EmptyString)
    end in
  if atSignSeen && String.eqb hostport "" then None
  else
    let '(hostname, portDigits) :=
      match JS.cutAt ":" hostport with
      | Some (h, p) => (h, Some p)
      | None => (hostport, None)
      end in
    if String.eqb hostname "" && (special || bool_decide (portDigits <> None)) then None
    else
      match parseHost special hostname, parsePort sch (default EmptyString portDigits) with
      | Some h, Some p =>
          Some (pathStart special rest
                  (mk sch (percentEncode userinfoSet user) (percentEncode userinfoSet pass)
                      (Some h) p (Segments []) None None))
      | _, _ => None
      end.

(** Special authority slashes state and special authority ignore slashes
    state: every leading slash or backslash is skipped. *)
Definition specialAuthority (sch : string) (s : string) : option t :=
  authority true sch (dropWhileS (isSlash true) s).

Definition segmentsOf (u : t) : list string :=
  match path u with Segments l => l | Opaque _ => [] end.

(** Relative slash state. *)
Definition relativeSlash (b : t) (s : string) : option t :=
  let special := isSpecial (scheme b) in
  let fromBase := mk (scheme b) (username b) (password b) (host b) (port b)
                     (Segments []) None None in
  match s with
  | String c r =>
      if special && isSlash true c then specialAuthority (scheme b) r
      else if Ascii.eqb c "/" then authority false (scheme b) r
      else Some (pathAndAfter special [] s fromBase)
  | EmptyString => Some (pathAndAfter special [] s fromBase)
  end.

(** Relative state. *)
Definition relative (b : t) (s : string) : option t :=
  let special := isSpecial (scheme b) in
  let copy q := mk (scheme b) (username b) (password b) (host b) (port b)
                   (path b) q None in
  match s with
  | EmptyString => Some (copy (query b))
  | String c r =>
      if isSlash special c then relativeSlash b r
      else if Ascii.eqb c "?" then Some (queryState special r (copy None))
      else if Ascii.eqb c "#" then Some (fragmentState r (copy (query b)))
      else Some (pathAndAfter special (JS.dropLast (segmentsOf b)) s (copy None))
  end.

(** Opaque path state. *)
Definition opaquePath (sch : string) (s : string) : t :=
  let '(p, tail) := span (oneOf "?#") s in
  afterPath false tail
    (mk sch EmptyString EmptyString None None (Opaque (percentEncode c0ControlSet p)) None None).

(** No scheme state. *)
Definition noScheme (base : option t) (s : string) : option t :=
  match base with
  | None => None
  | Some b =>
      match path b with
      | Opaque _ =>
          match s with
          | String c r =>
              if Ascii.eqb c "#"
              then Some (fragmentState r (mk (scheme b) (username b) (password b) (host b)
                                             (port b) (path b) (query b) None))
              else None
          | EmptyString => None
          end
      | Segments _ => if String.eqb (scheme b) "file" then None else relative b s
      end
  end.

(** The basic URL parser: [new URL(input)] for [base = None],
    [new URL(input, base)] otherwise; [None] is the TypeError. *)
Definition parseWith (base : option t) (input : string) : option t :=
  let s := preprocess input in
  match scanScheme s with
  | Some (sch, rest) =>
      if String.eqb sch "file" then None
      else if isSpecial sch then
        match base with
        | Some b =>
            if String.eqb (scheme b) sch && negb (JS.startsWith rest "//")
            then relative b rest
            else specialAuthority sch rest
        | None => specialAuthority sch rest
        end
      else
        match rest with
        | String "/" (String "/" r) => authority false sch r
        | String "/" r =>
            Some (pathAndAfter false [] r
                    (mk sch EmptyString EmptyString None None (Segments []) None None))
        | _ => Some (opaquePath sch rest)
        end
  | None => noScheme base s
  end.

Definition parse : string -> option t := parseWith None.

(** URL path serializer. *)
Definition serializePath (p : Path) : string :=
  match p with
  | Opaque s => s
  | Segments l => fold_right (fun seg out => "/" ++ seg ++ out) "" l
  end.

(** URL serializer: [url.href]. *)
Definition href (u : t) : string :=
  scheme u ++ ":" ++
  match host u with
  | Some h =>
      "//" ++
      (if String.eqb (username u) "" && String.eqb (password u) "" then ""
       else username u ++
            (if String.eqb (password u) "" then "" else ":" ++ password u) ++ "@") ++
      h ++
      match port u with Some p => ":" ++ JS.showZ p | None => "" end
  | None =>
      match path u with
      | Segments (EmptyString :: _ :: _) => "/."
      | _ => ""
      end
  end ++
  serializePath (path u) ++
  match query u with Some q => "?" ++ q | None => "" end ++
  match fragment u with Some f => "#" ++ f | None => "" end.

(** [url.protocol], [url.pathname], [url.search], [url.hash] *)
Definition protocol (u : t) : string := scheme u ++ ":".
Definition pathname (u : t) : string := serializePath (path u).
Definition search (u : t) : string :=
  match query u with
  | Some (String c q) => "?" ++ String c q
  | _ => ""
  end.
Definition hash (u : t) : string :=
  match fragment u with
  | Some (String c f) => "#" ++ String c f
  | _ => ""
  end.

Definition tupleOrigin (u : t) : string :=
  scheme u ++ "://" ++ default "" (host u) ++
  match port u with Some p => ":" ++ JS.showZ p | None => "" end.

Definition hasTupleOrigin (sch : string) : bool :=
  JS.some (String.eqb sch) ["ftp"; "http"; "https"; "ws"; "wss"].

(** [url.origin] *)
Definition origin (u : t) : string :=
  if hasTupleOrigin (scheme u) then tupleOrigin u
  else if String.eqb (scheme u) "blob" then
    match parse (serializePath (path u)) with
    | Some inner =>
        if JS.some (String.eqb (scheme inner)) ["http"; "https"]
        then tupleOrigin inner else "null"
    | None => "null"
    end
  else "null".

(** [url.hash = ''] *)
Definition clearHash (u : t) : t :=
  mk (scheme u) (username u) (password u) (host u) (port u) (path u) (query u) None.

(** [url.pathname = v]: nothing for an opaque path; otherwise the path is
    emptied and [v] parsed from the path start state, where [?] and [#] are
    ordinary characters. *)
Definition setPathname (v : string) (u : t) : t :=
  match path u with
  | Opaque _ => u
  | Segments _ =>
      let special := isSpecial (scheme u) in
      let v := filterS (fun c => negb (isTabOrNewline c)) v in
      let body :=
        match v with
        | String c r => if isSlash special c then r else v
        | EmptyString => v
        end in
      if negb special && String.eqb v "" then
        withPath (Segments (if bool_decide (host u = None) then [EmptyString] else [])) u
      else withPath (Segments (pathState (buffersOf special body) [])) u
  end.

(** *** application/x-www-form-urlencoded *)

Definition plusToSpace (c : ascii) : ascii := if Ascii.eqb c "+" then " "%char else c.

Definition decodeComponent (s : string) : string := percentDecode (JS.mapS plusToSpace s).

Definition parseUrlencoded (q : string) : list (string * string) :=
  map (fun piece =>
         match JS.cutAt "=" piece with
         | Some (n, v) => (decodeComponent n, decodeComponent v)
         | None => (decodeComponent piece, EmptyString)
         end)
      (filter (fun piece => piece <> EmptyString) (JS.split "&" q)).

Definition urlencodedKeep (c : ascii) : bool := JS.isAlnum c || oneOf "*-._" c.

Fixpoint encodeComponent (s : string) : string :=
  match s with
  | EmptyString => EmptyString
  | String c r =>
      if Ascii.eqb c " " then String "+" (encodeComponent r)
      else if urlencodedKeep c then String c (encodeComponent r)
      else percentByte c ++ encodeComponent r
  end.

Definition serializeUrlencoded (l : list (string * string)) : string :=
  JS.join "&" (map (fun '(n, v) => encodeComponent n ++ "=" ++ encodeComponent v) l).

End URL.

(** A URL object: the URL record and the list of its [searchParams], read
    from the query when the object is built. *)
Record URLObject := {
  urlOf : URL.t;
  searchParams : list (string * string) }.

(** [new URL(input)] and [new URL(input, base)] *)
Definition newURLOf (parsed : option URL.t) : completion URLObject :=
  match parsed with
  | Some u => Returns {| urlOf := u; searchParams := URL.parseUrlencoded (default "" (URL.query u)) |}
  | None => Throws "Invalid URL"
  end.

Definition newURL (input : string) : completion URLObject :=
  newURLOf (URL.parse input).

Definition newURLBase (input base : string) : completion URLObject :=
  match URL.parse base with
  | Some b => newURLOf (URL.parseWith (Some b) input)
  | None => Throws "Invalid URL"
  end.

(** [url.searchParams.delete(name)]: the pairs of that name leave the list,
    and the query becomes the serialization of the list (null when empty). *)
Definition searchParamsDelete (name : string) (o : URLObject) : URLObject :=
  let l := filter (fun p => p.1 <> name) (searchParams o) in
  let q := URL.serializeUrlencoded l in
  let u := urlOf o in
  {| urlOf := URL.mk (URL.scheme u) (URL.username u) (URL.password u) (URL.host u)
                   (URL.port u) (URL.path u)
                   (if String.eqb q "" then None else Some q) (URL.fragment u);
     searchParams := l |}.

(** [url.searchParams.toString()] *)
Definition searchParamsToString (o : URLObject) : string :=
  URL.serializeUrlencoded (searchParams o).

Definition onUrl (f : URL.t -> URL.t) (o : URLObject) : URLObject :=
  {| urlOf := f (urlOf o); searchParams := searchParams o |}.

(** ** link-scorer.ts *)

Module LinkScorer.

Definition docPatterns : list string :=
  ["/docs"; "/guide"; "/reference"; "/api"; "/tutorial"; "/learn"; "/manual";
   "/handbook"; "/help"; "/faq"; "/getting-started"; "/quickstart"].

Definition skipPatterns : list string :=
  ["/login"; "/signup"; "/auth"; "/admin"; "/cart"; "/checkout"; "/account";
   "/settings"; "/profile"; "/search"; "/tag/"; "/category/"; "/author/"; "/page/"].

Definition skipExtensions : list string :=
  [".zip"; ".tar"; ".gz"; ".exe"; ".dmg"; ".pkg"; ".deb"; ".rpm"; ".mp3"; ".mp4";
   ".avi"; ".mov"; ".jpg"; ".jpeg"; ".png"; ".gif"; ".svg"; ".ico"].

Definition docExtensions : list string := [".html"; ".htm"; ".md"; ".txt"].

(** JavaScript truthiness of a string. *)
Definition truthy (s : string) : bool := negb (String.eqb s "").

(** The body of the [try] block of [scoreLink], from the base score on. *)
Definition scoreLinkTry (link sourceUrl : string) (score : Z) : completion Z :=
  linkUrl ← newURL link;
  sourceUrlObj ← newURL sourceUrl;
  (* Same domain boost *)
  let score :=
    if String.eqb (URL.origin (urlOf linkUrl)) (URL.origin (urlOf sourceUrlObj))
    then score + 20 else score in
  (* Similar path prefix boost *)
  let sourcePath :=
    JS.join "/" (JS.dropLast (JS.split "/" (URL.pathname (urlOf sourceUrlObj)))) in
  let score :=
    if truthy sourcePath && JS.startsWith (URL.pathname (urlOf linkUrl)) sourcePath
    then score + 10 else score in
  (* Documentation-like paths boost *)
  let score :=
    if JS.some (fun p => JS.includes (JS.toLowerCase (URL.pathname (urlOf linkUrl))) p) docPatterns
    then score + 15 else score in
  (* Penalize likely non-content pages *)
  let score :=
    if JS.some (fun p => JS.includes (JS.toLowerCase (URL.pathname (urlOf linkUrl))) p) skipPatterns
    then score - 30 else score in
  (* Penalize anchors to same page *)
  let score :=
    if String.eqb (URL.pathname (urlOf linkUrl)) (URL.pathname (urlOf sourceUrlObj))
       && truthy (URL.hash (urlOf linkUrl))
    then score - 40 else score in
  (* Penalize very long URLs *)
  let score := if 200 <? JS.len link then score - 10 else score in
  (* Penalize URLs with many query parameters *)
  let paramCount := Z.of_nat (length (JS.split "&" (searchParamsToString linkUrl))) in
  let score := if 3 <? paramCount then score - 15 else score in
  (* Boost for clean, short paths *)
  let pathDepth :=
    Z.of_nat (length (filter (fun seg => truthy seg = true)
                             (JS.split "/" (URL.pathname (urlOf linkUrl))))) in
  let score := if pathDepth <=? 3 then score + 5 else score in
  (* Penalize file downloads that aren't useful content *)
  let pathname := JS.toLowerCase (URL.pathname (urlOf linkUrl)) in
  let score :=
    if JS.some (fun ext => JS.endsWith pathname ext) skipExtensions
    then score - 50 else score in
  (* Boost for common documentation file extensions *)
  let score :=
    if JS.some (fun ext => JS.endsWith pathname ext) docExtensions
    then score + 5 else score in
  mret score.

Definition scoreLink (link sourceUrl : string) : Z :=
  let score := 50 in
  let score :=
    match scoreLinkTry link sourceUrl score with
    | Returns score => score
    | Throws _ => 10
    end in
  Z.max 0 (Z.min 100 score).

Definition staticPaths : list string :=
  ["/static/"; "/assets/"; "/dist/"; "/build/"; "/_next/"; "/node_modules/"].

Definition shouldSkipUrl (u : string) : bool :=
  match newURL u with
  | Returns urlObj =>
      if negb (JS.some (String.eqb (URL.protocol (urlOf urlObj))) ["http:"; "https:"])
      then true
      else if JS.some (fun p => JS.includes (URL.pathname (urlOf urlObj)) p) staticPaths
      then true
      else if JS.some (fun p => JS.includes (JS.toLowerCase (URL.search (urlOf urlObj))) p)
                      ["utm_"; "ref="; "source="; "campaign="]
      then false
      else false
  | Throws _ => true
  end.

Definition trackingParams : list string :=
  ["utm_source"; "utm_medium"; "utm_campaign"; "utm_term"; "utm_content";
   "ref"; "source"; "campaign"; "fbclid"; "gclid"].

(** The statements of [normalizeUrl] between [new URL(url)] and
    [return urlObj.href]. *)
Definition normalizeUrlObject (urlObj : URLObject) : URLObject :=
  let urlObj := fold_left (fun o param => searchParamsDelete param o) trackingParams urlObj in
  let urlObj := onUrl URL.clearHash urlObj in
  if negb (String.eqb (URL.pathname (urlOf urlObj)) "/")
     && negb (JS.includes (URL.pathname (urlOf urlObj)) ".")
  then onUrl (URL.setPathname (JS.stripTrailingSlash (URL.pathname (urlOf urlObj)))) urlObj
  else urlObj.

Definition normalizeUrl (u : string) : string :=
  match newURL u with
  | Returns urlObj => URL.href (urlOf (normalizeUrlObject urlObj))
  | Throws _ => u
  end.

End LinkScorer.

(** ** The platform's fetch

    [fetch(url)] either throws (network error, timeout, invalid URL) or
    resolves to a response.  The network is a function of the URL: within a
    crawl every page and every robots.txt is requested at most once. *)

Record Response := {
  status : Z;
  statusText : string;
  contentType : option string;   (* [headers.get('content-type')] *)
  body : string }.

(** [response.ok] *)
Definition ok (r : Response) : bool := (200 <=? status r) && (status r <=? 299).

Definition Fetch := string -> completion Response.

(** ** The platform's RegExp

    Modelled from ECMAScript for the pattern sources that [pathMatches]
    builds: an optional leading [^], then a sequence of escaped characters
    [\c], the wildcard [.*], and characters that need no escape.  Any other
    source is reported as a SyntaxError by [compile]; [pathMatches] never
    produces one.  The dot matches every character but LF and CR. *)

Module RegExp.

Inductive Term :=
| Char (c : ascii)
| AnyStar.

Record t := {
  anchored : bool;
  terms : list Term }.

Definition isSyntaxChar (c : ascii) : bool := URL.oneOf "^$\.*+?()[]{}|" c.

Fixpoint compileTerms (src : string) : option (list Term) :=
  match src with
  | EmptyString => Some []
  | String c r =>
      match r with
      | String d r' =>
          if Ascii.eqb c "\" then
            if isSyntaxChar d then option_map (cons (Char d)) (compileTerms r') else None
          else if Ascii.eqb c "." then
            if Ascii.eqb d "*" then option_map (cons AnyStar) (compileTerms r') else None
          else if isSyntaxChar c then None
          else option_map (cons (Char c)) (compileTerms r)
      | EmptyString =>
          if isSyntaxChar c then None else Some [Char c]
      end
  end.

(** [new RegExp(src)] *)
Definition compile (src : string) : option t :=
  match src with
  | String "^" r => option_map (Build_t true) (compileTerms r)
  | _ => option_map (Build_t false) (compileTerms src)
  end.

Definition isLineTerminator (c : ascii) : bool :=
  ((JS.code c =? 10) || (JS.code c =? 13))%N.

(** Some prefix of [s] matches the terms. *)
Fixpoint matchHere (ts : list Term) (s : string) : bool :=
  match ts with
  | [] => true
  | Char c :: ts' =>
      match s with
      | String d r => Ascii.eqb c d && matchHere ts' r
      | EmptyString => false
      end
  | AnyStar :: ts' =>
      (fix star (s : string) : bool :=
         matchHere ts' s ||
         match s with
         | String d r => negb (isLineTerminator d) && star r
         | EmptyString => false
         end) s
  end.

Fixpoint matchAnywhere (ts : list Term) (s : string) : bool :=
  matchHere ts s ||
  match s with
  | String _ r => matchAnywhere ts r
  | EmptyString => false
  end.

(** [re.test(s)] *)
Definition test (re : t) (s : string) : bool :=
  if anchored re then matchHere (terms re) s else matchAnywhere (terms re) s.

End RegExp.

(** ** robots.ts *)

Module Robots.

Record RobotsRule := {
  userAgent : string;
  allow : list string;
  disallow : list string }.

(** The checker; [crawlerUserAgent] is the class's own [userAgent] field. *)
Record RobotsChecker := {
  origin : string;
  crawlerUserAgent : string;
  rules : list RobotsRule;
  loaded : bool }.

(** [new RobotsChecker(origin, userAgent)] *)
Definition new (o ua : string) : RobotsChecker :=
  {| origin := o; crawlerUserAgent := ua; rules := []; loaded := false |}.

Definition pushRule (current : option RobotsRule) (rs : list RobotsRule) : list RobotsRule :=
  match current with
  | Some r => (rs ++ [r])%list
  | None => rs
  end.

(** One turn of the loop of [parse] over the lines. *)
Definition parseLine (st : list RobotsRule * option RobotsRule) (line : string)
  : list RobotsRule * option RobotsRule :=
  let '(rs, currentRule) := st in
  let trimmed := JS.trim line in
  if negb (LinkScorer.truthy trimmed) || JS.startsWith trimmed "#" then st
  else
    match JS.cutAt ":" trimmed with
    | None => st
    | Some (before, after) =>
        let directive := JS.toLowerCase (JS.trim before) in
        let value := JS.trim after in
        if String.eqb directive "user-agent" then
          (pushRule currentRule rs,
           Some {| userAgent := value; allow := []; disallow := [] |})
        else if String.eqb directive "allow" then
          match currentRule with
          | Some r =>
              if LinkScorer.truthy value
              then (rs, Some {| userAgent := userAgent r;
                                allow := (allow r ++ [value])%list;
                                disallow := disallow r |})
              else st
          | None => st
          end
        else if String.eqb directive "disallow" then
          match currentRule with
          | Some r =>
              if LinkScorer.truthy value
              then (rs, Some {| userAgent := userAgent r;
                                allow := allow r;
                                disallow := (disallow r ++ [value])%list |})
              else st
          | None => st
          end
        else st
    end.

Definition parse (text : string) : list RobotsRule :=
  let '(rs, currentRule) := fold_left parseLine (JS.split "010" text) ([], None) in
  pushRule currentRule rs.

(** [load()]: at most once; any failure leaves the rules empty. *)
Definition load (fetch : Fetch) (c : RobotsChecker) : RobotsChecker :=
  if loaded c then c
  else
    let rules' :=
      match fetch (origin c ++ "/robots.txt") with
      | Returns response => if ok response then parse (body response) else rules c
      | Throws _ => rules c
      end in
    {| origin := origin c; crawlerUserAgent := crawlerUserAgent c;
       rules := rules'; loaded := true |}.

(** [pattern.replace(/[.+?^${}()|[\]\\]/g, '\\$&')] *)
Fixpoint escapeSpecial (pattern : string) : string :=
  match pattern with
  | EmptyString => EmptyString
  | String c r =>
      if URL.oneOf ".+?^${}()|[]\" c then String "\" (String c (escapeSpecial r))
      else String c (escapeSpecial r)
  end.

(** [s.replace(/\*/g, '.*')] *)
Fixpoint starToDotStar (s : string) : string :=
  match s with
  | EmptyString => EmptyString
  | String c r =>
      if Ascii.eqb c "*" then String "." (String "*" (starToDotStar r))
      else String c (starToDotStar r)
  end.

Definition regexSource (pattern : string) : string :=
  let regexPattern := starToDotStar (escapeSpecial pattern) in
  if JS.endsWith regexPattern "$"
  then JS.sliceInit regexPattern ++ "$"
  else "^" ++ regexPattern.

Definition pathMatches (pathname pattern : string) : bool :=
  if negb (LinkScorer.truthy pattern) then false
  else
    match RegExp.compile (regexSource pattern) with
    | Some re => RegExp.test re pathname
    | None =>
        (* Invalid pattern, do simple prefix match *)
        JS.startsWith pathname (URL.filterS (fun c => negb (URL.oneOf "*$" c)) pattern)
    end.

Definition applicable (ua : string) (r : RobotsRule) : bool :=
  String.eqb (userAgent r) "*" ||
  JS.includes (JS.toLowerCase ua) (JS.toLowerCase (userAgent r)).

(** The test made for one disallow pattern of a rule: it matches and no
    longer allow pattern of the rule matches. *)
Definition blockedBy (pathname : string) (rule : RobotsRule) (d : string) : bool :=
  pathMatches pathname d &&
  negb (JS.some (fun a => pathMatches pathname a && (JS.len d <? JS.len a)) (allow rule)).

(** [isAllowed(url)]; the nested loops return false at the first blocking
    pattern. *)
Definition isAllowed (c : RobotsChecker) (u : string) : completion bool :=
  if negb (loaded c) then mret true
  else
    urlObj ← newURL u;
    let pathname := URL.pathname (urlOf urlObj) in
    let applicableRules := List.filter (applicable (crawlerUserAgent c)) (rules c) in
    mret (forallb (fun rule => forallb (fun d => negb (blockedBy pathname rule d))
                                       (disallow rule))
                  applicableRules).

End Robots.

(** ** The records of types.ts *)

Module FileInfo.
Record t := {
  path : string;
  content : string;
  size : Z;
  tokenEstimate : Z;
  mimeType : option string }.
End FileInfo.

(** The crawl-specific entries of a result's metadata. *)
Record CrawlError := {
  errorUrl : string;
  error : string }.

Record CrawlMetadata := {
  pagesLoaded : Z;
  pagesSkipped : Z;
  pagesInQueue : Z;
  reportedErrors : option (list CrawlError);
  reportedTargetTokens : Z;
  actualTokens : Z;
  subrequestsUsed : Z;
  stoppedBySubrequestLimit : bool }.

Record Metadata := {
  source : string;
  crawlData : option CrawlMetadata }.

Module LoadedSource.
Record t := {
  content : string;
  totalTokens : Z;
  fileCount : Z;
  files : list FileInfo.t;
  metadata : Metadata }.
End LoadedSource.

(** ** The extractor registry

    The registry is handed to the crawler by its caller.  It is taken as one
    function: the extractor found for the content type (or the default one)
    applied to the response body and the page URL. *)

Record ExtractedContent := {
  text : string;
  title : option string;
  links : option (list string) }.

Definition ExtractorRegistry := string -> string -> string -> completion ExtractedContent.

(** ** crawler.ts *)

Module Crawler.

Record CrawlConfig := {
  seedUrls : list string;
  targetTokens : Z;
  minTokensPerPage : Z;
  maxPages : Z;
  sameDomainOnly : bool;
  delayMs : Z;
  respectRobotsTxt : bool;
  maxSubrequests : option Z }.

Record PrioritizedUrl := {
  url : string;
  score : Z;
  depth : Z;
  referrer : string }.

(** [LoadedPage extends FileInfo] *)
Record LoadedPage := {
  file : FileInfo.t;
  pageLinks : option (list string);
  pageTitle : option string }.

(** A call to [fetch]: for a robots.txt or for a page. *)
Inductive Request :=
| RobotsRequest (u : string)
| PageRequest (u : string).

(** The fields of [TokenTargetCrawler].  [requests] is not a field of the
    class: it logs, in order, every call to [fetch]. *)
Record State := {
  visited : gset string;
  queue : list PrioritizedUrl;
  loadedContent : list LoadedPage;
  errors : list CrawlError;
  currentTokens : Z;
  robotsCache : gmap string Robots.RobotsChecker;
  subrequestCount : Z;
  requests : list Request }.

Definition initial : State :=
  {| visited := ∅; queue := []; loadedContent := []; errors := [];
     currentTokens := 0; robotsCache := ∅; subrequestCount := 0; requests := [] |}.

Definition setVisited (v : gset string) (st : State) : State :=
  {| visited := v; queue := queue st; loadedContent := loadedContent st;
     errors := errors st; currentTokens := currentTokens st;
     robotsCache := robotsCache st; subrequestCount := subrequestCount st;
     requests := requests st |}.

Definition setQueue (q : list PrioritizedUrl) (st : State) : State :=
  {| visited := visited st; queue := q; loadedContent := loadedContent st;
     errors := errors st; currentTokens := currentTokens st;
     robotsCache := robotsCache st; subrequestCount := subrequestCount st;
     requests := requests st |}.

Definition acceptPage (p : LoadedPage) (st : State) : State :=
  {| visited := visited st; queue := queue st;
     loadedContent := (loadedContent st ++ [p])%list;
     errors := errors st;
     currentTokens := currentTokens st + FileInfo.tokenEstimate (file p);
     robotsCache := robotsCache st; subrequestCount := subrequestCount st;
     requests := requests st |}.

Definition pushError (u message : string) (st : State) : State :=
  {| visited := visited st; queue := queue st; loadedContent := loadedContent st;
     errors := (errors st ++ [{| errorUrl := u; error := message |}])%list;
     currentTokens := currentTokens st;
     robotsCache := robotsCache st; subrequestCount := subrequestCount st;
     requests := requests st |}.

Definition setRobotsCache (c : gmap string Robots.RobotsChecker) (st : State) : State :=
  {| visited := visited st; queue := queue st; loadedContent := loadedContent st;
     errors := errors st; currentTokens := currentTokens st;
     robotsCache := c; subrequestCount := subrequestCount st;
     requests := requests st |}.

Definition countSubrequest (st : State) : State :=
  {| visited := visited st; queue := queue st; loadedContent := loadedContent st;
     errors := errors st; currentTokens := currentTokens st;
     robotsCache := robotsCache st; subrequestCount := subrequestCount st + 1;
     requests := requests st |}.

Definition logRequest (u : Request) (st : State) : State :=
  {| visited := visited st; queue := queue st; loadedContent := loadedContent st;
     errors := errors st; currentTokens := currentTokens st;
     robotsCache := robotsCache st; subrequestCount := subrequestCount st;
     requests := (requests st ++ [u])%list |}.

Section Crawl.

Variable config : CrawlConfig.
Variable extractorRegistry : ExtractorRegistry.
Variable userAgent : string.
Variable fetch : Fetch.

(** [Math.ceil(text.length / 4)] *)
Definition estimateTokens (t : string) : Z := (JS.len t + 3) / 4.

Definition loadPage (u : string) : completion LoadedPage :=
  response ← fetch u;
  if negb (ok response)
  then Throws ("HTTP " ++ JS.showZ (status response) ++ ": " ++ statusText response)
  else
    let contentType :=
      match contentType response with
      | Some ct => if LinkScorer.truthy ct then ct else "text/plain"
      | None => "text/plain"
      end in
    let buffer := body response in
    extracted ← extractorRegistry contentType buffer u;
    let tokenEstimate := estimateTokens (text extracted) in
    mret {| file := {| FileInfo.path := u;
                       FileInfo.content := text extracted;
                       FileInfo.size := JS.len buffer;
                       FileInfo.tokenEstimate := tokenEstimate;
                       FileInfo.mimeType :=
                         Some (JS.trim (hd "" (JS.split ";" contentType))) |};
            pageLinks := links extracted;
            pageTitle := title extracted |}.

(** One turn of the loop of [queueLinks]; its [try] block in the
    completion monad, its [catch] leaving the state as it was. *)
Definition queueLinkTry (sourceUrl sourceOrigin : string) (sourceDepth : Z)
    (st : State) (link : string) : completion State :=
  resolvedObj ← newURLBase link sourceUrl;
  let resolved := LinkScorer.normalizeUrl (URL.href (urlOf resolvedObj)) in
  if bool_decide (resolved ∈ visited st) then mret st
  else if JS.some (fun q => String.eqb (url q) resolved) (queue st) then mret st
  else
    linkObj ← newURL resolved;
    let linkOrigin := URL.origin (urlOf linkObj) in
    if sameDomainOnly config && negb (String.eqb linkOrigin sourceOrigin) then mret st
    else
      let score := LinkScorer.scoreLink resolved sourceUrl in
      if score <? 20 then mret st
      else mret (setQueue (queue st ++ [{| url := resolved; score := score;
                                           depth := sourceDepth + 1;
                                           referrer := sourceUrl |}])%list st).

Definition queueLink (sourceUrl sourceOrigin : string) (sourceDepth : Z)
    (st : State) (link : string) : State :=
  if LinkScorer.shouldSkipUrl link then st
  else
    match queueLinkTry sourceUrl sourceOrigin sourceDepth st link with
    | Returns st' => st'
    | Throws _ => st
    end.

Definition queueLinks (ls : list string) (sourceUrl : string) (sourceDepth : Z)
    (st : State) : completion State :=
  sourceUrlObj ← newURL sourceUrl;
  let sourceOrigin := URL.origin (urlOf sourceUrlObj) in
  mret (fold_left (queueLink sourceUrl sourceOrigin sourceDepth) ls st).

(** [checkRobots(url)]: the answer and the state with its robots cache. *)
Definition checkRobots (u : string) (st : State) : completion (bool * State) :=
  urlObj ← newURL u;
  let origin := URL.origin (urlOf urlObj) in
  let st :=
    match robotsCache st !! origin with
    | Some _ => st
    | None =>
        let checker := Robots.load fetch (Robots.new origin userAgent) in
        setRobotsCache (<[origin := checker]> (robotsCache st))
                       (logRequest (RobotsRequest (origin ++ "/robots.txt")) st)
    end in
  match robotsCache st !! origin with
  | Some checker =>
      allowed ← Robots.isAllowed checker u;
      mret (allowed, st)
  | None => Throws "undefined is not an object"
  end.

(** [queue.sort((a, b) => b.score - a.score)]: stable, highest score first. *)
Fixpoint insertByScore (x : PrioritizedUrl) (q : list PrioritizedUrl) : list PrioritizedUrl :=
  match q with
  | [] => [x]
  | y :: r => if score y <=? score x then x :: y :: r else y :: insertByScore x r
  end.

Definition sortQueue (q : list PrioritizedUrl) : list PrioritizedUrl :=
  fold_right insertByScore [] q.

(** The [try] statement of the loop body, for the popped entry [next]. *)
Definition fetchAndAccept (next : PrioritizedUrl) (st : State) : State :=
  let st := logRequest (PageRequest (url next)) st in
  match loadPage (url next) with
  | Returns result =>
      let st := countSubrequest st in
      if minTokensPerPage config <=? FileInfo.tokenEstimate (file result) then
        let st := acceptPage result st in
        match pageLinks result with
        | Some ls =>
            match queueLinks ls (url next) (depth next) st with
            | Returns st' => st'
            | Throws message => pushError (url next) message st
            end
        | None => st
        end
      else st
  | Throws message => pushError (url next) message st
  end.

(** The loop condition of [crawl]. *)
Definition loopCondition (st : State) : bool :=
  (currentTokens st <? targetTokens config)
  && (0 <? Z.of_nat (length (queue st)))
  && (Z.of_nat (length (loadedContent st)) <? maxPages config)
  && match maxSubrequests config with
     | None => true
     | Some maxSubs => subrequestCount st <? maxSubs
     end.

(** The loop body of [crawl].  It throws only when [checkRobots] does. *)
Definition iteration (st : State) : completion State :=
  match sortQueue (queue st) with
  | [] => Throws "undefined is not an object"
  | next :: rest =>
      let st := setQueue rest st in
      if bool_decide (url next ∈ visited st) then mret st
      else
        let st := setVisited ({[ url next ]} ∪ visited st) st in
        if respectRobotsTxt config then
          '(allowed, st) ← checkRobots (url next) st;
          if negb allowed
          then mret (pushError (url next) "Blocked by robots.txt" st)
          else mret (fetchAndAccept next st)
        else mret (fetchAndAccept next st)
  end.

(** The [while] loop, with fuel for the number of turns. *)
Fixpoint crawlLoop (fuel : nat) (st : State) : option (completion State) :=
  if loopCondition st then
    match fuel with
    | O => None
    | S fuel' =>
        match iteration st with
        | Returns st' => crawlLoop fuel' st'
        | Throws message => Some (Throws message)
        end
    end
  else Some (Returns st).

(** Seeding of the queue. *)
Definition seedQueue (st : State) : State :=
  fold_left (fun st u =>
               setQueue (queue st ++ [{| url := LinkScorer.normalizeUrl u; score := 100;
                                         depth := 0; referrer := "" |}])%list st)
            (seedUrls config) st.

Definition renderPage (f : LoadedPage) : string :=
  let title :=
    match pageTitle f with
    | Some t => if LinkScorer.truthy t then t else FileInfo.path (file f)
    | None => FileInfo.path (file f)
    end in
  "# " ++ title ++ String "010" ("Source: " ++ FileInfo.path (file f)) ++
  String "010" (String "010" (FileInfo.content (file f))) ++
  String "010" (String "010" ("---" ++ String "010" "")).

Definition buildResult (st : State) : LoadedSource.t :=
  {| LoadedSource.content := JS.join (String "010" "") (map renderPage (loadedContent st));
     LoadedSource.totalTokens := currentTokens st;
     LoadedSource.fileCount := Z.of_nat (length (loadedContent st));
     LoadedSource.files := map file (loadedContent st);
     LoadedSource.metadata :=
       {| source := JS.join " + " (seedUrls config);
          crawlData := Some
            {| pagesLoaded := Z.of_nat (length (loadedContent st));
               pagesSkipped := Z.of_nat (size (visited st))
                               - Z.of_nat (length (loadedContent st));
               pagesInQueue := Z.of_nat (length (queue st));
               reportedErrors :=
                 if 0 <? Z.of_nat (length (errors st)) then Some (errors st) else None;
               reportedTargetTokens := targetTokens config;
               actualTokens := currentTokens st;
               subrequestsUsed := subrequestCount st;
               stoppedBySubrequestLimit :=
                 match maxSubrequests config with
                 | Some maxSubs => maxSubs <=? subrequestCount st
                 | None => false
                 end |} |} |}.

(** The final state of [crawl], and [crawl] itself: [None] when the fuel
    runs out, a thrown exception or the result otherwise. *)
Definition run (fuel : nat) : option (completion State) :=
  crawlLoop fuel (seedQueue initial).

Definition crawl (fuel : nat) : option (completion LoadedSource.t) :=
  match run fuel with
  | Some (Returns st) => Some (Returns (buildResult st))
  | Some (Throws message) => Some (Throws message)
  | None => None
  end.

End Crawl.

End Crawler.

(** ** handlers.ts: combineLoadedSources *)

Module Handlers.

(** [sources.reduce((sum, s) => sum + f(s), 0)] *)
Definition reduceSum {A} (f : A -> Z) (l : list A) : Z :=
  fold_left (fun sum s => sum + f s) l 0.

Fixpoint sections (i : Z) (sources : list LoadedSource.t) (sourceNames : list string)
  : list string :=
  match sources with
  | [] => []
  | s :: rest =>
      ("## Source " ++ JS.showZ (i + 1) ++ ": " ++ hd "undefined" sourceNames)
      :: "" :: LoadedSource.content s :: ""
      :: sections (i + 1) rest (tl sourceNames)
  end.

(** [now] is the text of [new Date().toISOString()]. *)
Definition combineLoadedSources (now : string)
    (sources : list LoadedSource.t) (sourceNames : list string) : LoadedSource.t :=
  let allFiles := flat_map LoadedSource.files sources in
  let totalTokens := reduceSum LoadedSource.totalTokens sources in
  let fileCount := reduceSum LoadedSource.fileCount sources in
  let header :=
    ["# Combined Context";
     "# Sources: " ++ JS.join ", " sourceNames;
     "# Total Files: " ++ JS.showZ fileCount;
     "# Generated: " ++ now;
     ""] in
  let lines := (header ++ sections 0 sources sourceNames)%list in
  {| LoadedSource.content := JS.join (String "010" "") lines;
     LoadedSource.totalTokens := totalTokens;
     LoadedSource.fileCount := fileCount;
     LoadedSource.files := allFiles;
     LoadedSource.metadata := {| source := JS.join " + " sourceNames; crawlData := None |} |}.

End Handlers.

(** ** What the specification says of robots patterns

    The specification's pattern language, in its own words: a [*] wildcard
    matches any run of characters, a [$] that ends the pattern anchors the end
    of the path, and a pattern otherwise matches every path it is a prefix
    of.  It is compared with [Robots.pathMatches] below. *)

Module RobotsSpec.

(** Some prefix of [path] (the whole of it when [toEnd]) matches the glob. *)
Fixpoint glob (toEnd : bool) (pattern path : string) : bool :=
  match pattern with
  | EmptyString =>
      if toEnd then match path with EmptyString => true | _ => false end else true
  | String c pattern' =>
      if Ascii.eqb c "*" then
        (fix star (path : string) : bool :=
           glob toEnd pattern' path ||
           match path with
           | String _ r => star r
           | EmptyString => false
           end) path
      else
        match path with
        | String d r => Ascii.eqb c d && glob toEnd pattern' r
        | EmptyString => false
        end
  end.

Definition pathMatches (pathname pattern : string) : bool :=
  if negb (LinkScorer.truthy pattern) then false
  else if JS.endsWith pattern "$" then glob true (JS.sliceInit pattern) pathname
  else glob false pattern pathname.

End RobotsSpec.

(** The arithmetic sum of a list of integers. *)
Fixpoint sumZ (l : list Z) : Z :=
  match l with
  | [] => 0
  | x :: r => x + sumZ r
  end.

(** ** The specification of the link scorer

    The scoring rule as the specification words it: a base of 50, ten
    adjustments that each apply or not, and a clamp to 0..100; 10 when a URL
    does not parse. *)

Module ScoreSpec.

Definition documentationSignals : list string :=
  ["/docs"; "/guide"; "/reference"; "/api"; "/tutorial"; "/learn"; "/manual";
   "/handbook"; "/help"; "/faq"; "/getting-started"; "/quickstart"].

Definition lowValueSignals : list string :=
  ["/login"; "/signup"; "/auth"; "/admin"; "/cart"; "/checkout"; "/account";
   "/settings"; "/profile"; "/search"; "/tag/"; "/category/"; "/author/"; "/page/"].

Definition binaryExtensions : list string :=
  [".zip"; ".tar"; ".gz"; ".exe"; ".dmg"; ".pkg"; ".deb"; ".rpm"; ".mp3"; ".mp4";
   ".avi"; ".mov"; ".jpg"; ".jpeg"; ".png"; ".gif"; ".svg"; ".ico"].

Definition textualExtensions : list string := [".html"; ".htm"; ".md"; ".txt"].

(** The directory of a path: the path up to its last slash. *)
Definition parentDirectory (pathname : string) : string :=
  JS.join "/" (JS.dropLast (JS.split "/" pathname)).

(** Signals and extensions are looked for in the path without regard to the
    case of its letters. *)
Definition pathOf (o : URLObject) : string := URL.pathname (urlOf o).
Definition lowerPathOf (o : URLObject) : string := JS.toLowerCase (pathOf o).

Definition sharesOrigin (candidate source : URLObject) : bool :=
  String.eqb (URL.origin (urlOf candidate)) (URL.origin (urlOf source)).

(** A source in the root directory has no parent directory to share. *)
Definition sharesParentDirectory (candidate source : URLObject) : bool :=
  negb (String.eqb (parentDirectory (pathOf source)) "")
  && JS.startsWith (pathOf candidate) (parentDirectory (pathOf source)).

Definition hasSignal (signals : list string) (candidate : URLObject) : bool :=
  existsb (fun signal => JS.includes (lowerPathOf candidate) signal) signals.

Definition samePageAnchor (candidate source : URLObject) : bool :=
  String.eqb (pathOf candidate) (pathOf source)
  && negb (String.eqb (URL.hash (urlOf candidate)) "").

Definition parameterCount (candidate : URLObject) : Z :=
  Z.of_nat (length (searchParams candidate)).

Definition pathDepth (candidate : URLObject) : Z :=
  Z.of_nat (length (List.filter (fun seg => negb (String.eqb seg ""))
                                (JS.split "/" (pathOf candidate)))).

Definition hasExtension (extensions : list string) (candidate : URLObject) : bool :=
  existsb (fun ext => JS.endsWith (lowerPathOf candidate) ext) extensions.

(** An adjustment: its amount when it applies, nothing otherwise. *)
Definition adjust (applies : bool) (amount : Z) : Z := if applies then amount else 0.

Definition adjustments (raw : string) (candidate source : URLObject) : list Z :=
  [ adjust (sharesOrigin candidate source) 20;
    adjust (sharesParentDirectory candidate source) 10;
    adjust (hasSignal documentationSignals candidate) 15;
    adjust (hasSignal lowValueSignals candidate) (-30);
    adjust (samePageAnchor candidate source) (-40);
    adjust (200 <? JS.len raw) (-10);
    adjust (3 <? parameterCount candidate) (-15);
    adjust (pathDepth candidate <=? 3) 5;
    adjust (hasExtension binaryExtensions candidate) (-50);
    adjust (hasExtension textualExtensions candidate) 5 ].

Definition clamp (score : Z) : Z := Z.max 0 (Z.min 100 score).

Definition score (candidateUrl sourceUrl : string) : Z :=
  match newURL candidateUrl, newURL sourceUrl with
  | Returns candidate, Returns source =>
      clamp (50 + sumZ (adjustments candidateUrl candidate source))
  | _, _ => 10
  end.

End ScoreSpec.

(** ** Scenarios *)

Module Scenario.

Import Crawler.

Definition response (code : Z) (reason : string) : Response :=
  {| status := code; statusText := reason;
     contentType := Some "text/html; charset=utf-8"; body := "" |}.

(** A registry whose extractor returns a text of [4 * tokens] characters and
    the links [ls], whatever the response. *)
Fixpoint textOf (n : nat) : string :=
  match n with
  | O => EmptyString
  | S k => String "x" (textOf k)
  end.

Definition pagesOf (tokens : nat) (ls : list string) : ExtractorRegistry :=
  fun _ _ _ => Returns {| text := textOf (4 * tokens); title := None; links := Some ls |}.

(** A site that answers 200 to every request but for its robots.txt, which
    does not exist. *)
Definition site : Fetch :=
  fun u => if JS.endsWith u "/robots.txt"
           then Returns (response 404 "Not Found")
           else Returns (response 200 "OK").

(** A site that answers 200 to every request. *)
Definition openSite : Fetch := fun _ => Returns (response 200 "OK").

(** A site whose robots.txt disallows every path. *)
Definition closedSite : Fetch :=
  fun u => if JS.endsWith u "/robots.txt"
           then Returns {| status := 200; statusText := "OK"; contentType := Some "text/plain";
                           body := "User-agent: *" ++ String "010" "Disallow: /" |}
           else Returns (response 200 "OK").

(** A site on which every request fails. *)
Definition brokenSite : Fetch := fun _ => Returns (response 500 "Internal Server Error").

Definition finalState (r : option (completion State)) : State :=
  match r with
  | Some (Returns st) => st
  | _ => initial
  end.

Definition robotUserAgent : string := "Mnemo/0.2.0".

(** Two seeds that fail to load, under a cap of one subrequest. *)
Definition failingSeeds : CrawlConfig :=
  {| seedUrls := ["https://a.com/one"; "https://a.com/two"];
     targetTokens := 100000; minTokensPerPage := 500; maxPages := 50;
     sameDomainOnly := true; delayMs := 100; respectRobotsTxt := true;
     maxSubrequests := Some 1 |}.

(** The same seed given twice. *)
Definition repeatedSeed : CrawlConfig :=
  {| seedUrls := ["https://a.com/x"; "https://a.com/x"];
     targetTokens := 100000; minTokensPerPage := 0; maxPages := 50;
     sameDomainOnly := true; delayMs := 100; respectRobotsTxt := true;
     maxSubrequests := None |}.

(** The budget scenario: target 100, no minimum, pages of 60 tokens. *)
Definition budget : CrawlConfig :=
  {| seedUrls := ["https://a.com/p1"; "https://a.com/p2"; "https://a.com/p3"];
     targetTokens := 100; minTokensPerPage := 0; maxPages := 50;
     sameDomainOnly := true; delayMs := 100; respectRobotsTxt := false;
     maxSubrequests := None |}.

Definition threeLinks : list string :=
  ["https://a.com/docs/a"; "https://a.com/docs/b"; "https://a.com/docs/c"].

(** The cap scenario: one subrequest allowed, three same-domain links. *)
Definition capped : CrawlConfig :=
  {| seedUrls := ["https://a.com/"];
     targetTokens := 100000; minTokensPerPage := 0; maxPages := 50;
     sameDomainOnly := true; delayMs := 100; respectRobotsTxt := true;
     maxSubrequests := Some 1 |}.

(** A cap of one subrequest and a token target that the first page meets. *)
Definition cappedAndSatisfied : CrawlConfig :=
  {| seedUrls := ["https://a.com/"];
     targetTokens := 10; minTokensPerPage := 0; maxPages := 50;
     sameDomainOnly := true; delayMs := 100; respectRobotsTxt := true;
     maxSubrequests := Some 1 |}.

(** A page of 60 tokens under a minimum of 500. *)
Definition thin : CrawlConfig :=
  {| seedUrls := ["https://a.com/"];
     targetTokens := 100000; minTokensPerPage := 500; maxPages := 50;
     sameDomainOnly := true; delayMs := 100; respectRobotsTxt := true;
     maxSubrequests := None |}.

(** The budget scenario with the robots check on. *)
Definition politeBudget : CrawlConfig :=
  {| seedUrls := ["https://a.com/p1"; "https://a.com/p2"; "https://a.com/p3"];
     targetTokens := 100; minTokensPerPage := 0; maxPages := 50;
     sameDomainOnly := true; delayMs := 100; respectRobotsTxt := true;
     maxSubrequests := None |}.

(** A checker loaded with one group that disallows [/private$]. *)
Definition privateRules : Robots.RobotsChecker :=
  Robots.load
    (fun _ => Returns {| status := 200; statusText := "OK"; contentType := Some "text/plain";
                         body := "User-agent: *" ++ String "010" "Disallow: /private$" |})
    (Robots.new "https://example.com" robotUserAgent).

(** The URL object of a directory page. *)
Definition docsDirectory : URLObject :=
  {| urlOf := URL.mk "https" "" "" (Some "example.com") None
                     (URL.Segments ["docs"; ""]) (Some "ref=home&page=2") (Some "top");
     searchParams := [("ref", "home"); ("page", "2")] |}.

Definition source (tokens files : Z) : LoadedSource.t :=
  {| LoadedSource.content := ""; LoadedSource.totalTokens := tokens;
     LoadedSource.fileCount := files; LoadedSource.files := [];
     LoadedSource.metadata := {| source := ""; crawlData := None |} |}.

(** The result of a crawl and its crawl metadata, for reading scenarios. *)
Definition resultOf (r : option (completion LoadedSource.t)) : LoadedSource.t :=
  match r with
  | Some (Returns result) => result
  | _ => source 0 0
  end.

Definition crawlDataOf (result : LoadedSource.t) : CrawlMetadata :=
  default {| pagesLoaded := 0; pagesSkipped := 0; pagesInQueue := 0; reportedErrors := None;
             reportedTargetTokens := 0; actualTokens := 0; subrequestsUsed := 0;
             stoppedBySubrequestLimit := false |}
          (crawlData (LoadedSource.metadata result)).

Definition stateAfter (c : completion State) : State :=
  match c with
  | Returns st => st
  | Throws _ => initial
  end.

End Scenario.

(** ** What the specification says of tracking parameters

    The specification has [normalizeUrl] remove every [utm_*] parameter: no
    parameter of a normalized URL starts with [utm_]. *)

Definition removesEveryUtmParameter : Prop :=
  forall (u : string) (o : URLObject),
    newURL (LinkScorer.normalizeUrl u) = Returns o ->
    forall p, p ∈ searchParams o -> JS.startsWith p.1 "utm_" = false.

(** A path segment made of letters, digits, [-] and [_] only. *)
Definition plainChar (c : ascii) : bool := JS.isAlnum c || URL.oneOf "-_" c.
Definition plainSegment (seg : string) : bool := URL.allS plainChar seg.

(** The specification has [normalizeUrl] remove a trailing slash from every
    path without a [.]: the path of the result is the path without its final
    slash. *)
Definition removesTrailingSlash : Prop :=
  forall (u : string) (o : URLObject),
    newURL u = Returns o ->
    JS.includes (URL.pathname (urlOf o)) "." = false ->
    JS.endsWith (URL.pathname (urlOf o)) "/" = true ->
    URL.pathname (urlOf (LinkScorer.normalizeUrlObject o))
    = JS.sliceInit (URL.pathname (urlOf o)).

Definition hasOpaquePath (u : URL.t) : bool :=
  match URL.path u with
  | URL.Opaque _ => true
  | URL.Segments _ => false
  end.

(** A path segment as the parser leaves it: percent-encoded, free of
    separators, and not a dot segment. *)
Definition segmentChar (special : bool) (c : ascii) : bool :=
  negb (URL.pathSet c) && negb (URL.isSlash special c).

Definition parsedSegment (special : bool) (seg : string) : bool :=
  URL.allS (segmentChar special) seg
  && negb (URL.isSingleDot seg) && negb (URL.isDoubleDot seg).

(** The path of a parsed URL: a list of such segments, empty only after a
    host under a scheme that is not special. *)
Definition parsedPath (u : URL.t) : Prop :=
  match URL.path u with
  | URL.Opaque _ => True
  | URL.Segments segs =>
      Forall (fun seg => parsedSegment (URL.isSpecial (URL.scheme u)) seg = true) segs
      /\ (segs = [] -> URL.isSpecial (URL.scheme u) = false /\ URL.host u <> None)
  end.

(** The terms that [RegExp.compile] reads off the source built for a
    pattern: a wildcard for [*], the character itself otherwise. *)
Fixpoint termsOf (pattern : string) : list RegExp.Term :=
  match pattern with
  | EmptyString => []
  | String c r =>
      (if Ascii.eqb c "*" then RegExp.AnyStar else RegExp.Char c) :: termsOf r
  end.

(** The pattern after both replacements of [pathMatches]. *)
Definition translate (pattern : string) : string :=
  Robots.starToDotStar (Robots.escapeSpecial pattern).

(** The URLs of the page requests of a log. *)
Definition pageRequests (log : list Crawler.Request) : list string :=
  flat_map (fun r => match r with
                     | Crawler.PageRequest u => [u]
                     | Crawler.RobotsRequest _ => []
                     end) log.

Definition pagePath (p : Crawler.LoadedPage) : string := FileInfo.path (Crawler.file p).

(** ** The loop body as a step relation

    One constructor for each way through the body of the [while] loop of
    [crawl]: the popped entry was visited already, robots.txt refuses it, its
    fetch or extraction fails, its page is below [minTokensPerPage], or its
    page is accepted. *)

Module Steps.

Import Crawler.

Section Steps.

Variable config : CrawlConfig.
Variable extractorRegistry : ExtractorRegistry.
Variable fetch : Fetch.

(** The state once [next] is popped and marked visited. *)
Definition popped (next : PrioritizedUrl) (rest : list PrioritizedUrl) (st : State) : State :=
  setVisited ({[ url next ]} ∪ visited st) (setQueue rest st).

(** The effect of [checkRobots]: nothing, or one robots.txt fetched and its
    checker cached. *)
Inductive robotsChecked (st0 : State) : State -> Prop :=
| robots_cached : robotsChecked st0 st0
| robots_fetched (cache : gmap string Robots.RobotsChecker) (r : string) :
    robotsChecked st0 (setRobotsCache cache (logRequest (RobotsRequest r) st0)).

(** The effect of [queueLinks] on the state [st2] of an accepted page: new
    entries, none of them visited or queued, or an exception that the loop
    body records. *)
Inductive linksQueued (next : PrioritizedUrl) (st2 : State) : State -> Prop :=
| links_queued (new : list PrioritizedUrl) :
    List.NoDup (map url new) ->
    (forall e, In e new -> (url e ∉ visited st2) /\ ~ In (url e) (map url (queue st2))) ->
    linksQueued next st2 (setQueue (queue st2 ++ new)%list st2)
| links_threw (message : string) :
    linksQueued next st2 (pushError (url next) message st2).

Inductive step (st : State) : State -> Prop :=
| step_skip next rest :
    sortQueue (queue st) = next :: rest ->
    url next ∈ visited st ->
    step st (setQueue rest st)
| step_blocked next rest st1 :
    sortQueue (queue st) = next :: rest ->
    url next ∉ visited st ->
    respectRobotsTxt config = true ->
    robotsChecked (popped next rest st) st1 ->
    step st (pushError (url next) "Blocked by robots.txt" st1)
| step_failed next rest st1 message :
    sortQueue (queue st) = next :: rest ->
    url next ∉ visited st ->
    robotsChecked (popped next rest st) st1 ->
    loadPage extractorRegistry fetch (url next) = Throws message ->
    step st (pushError (url next) message (logRequest (PageRequest (url next)) st1))
| step_discarded next rest st1 page :
    sortQueue (queue st) = next :: rest ->
    url next ∉ visited st ->
    robotsChecked (popped next rest st) st1 ->
    loadPage extractorRegistry fetch (url next) = Returns page ->
    FileInfo.tokenEstimate (file page) < minTokensPerPage config ->
    step st (countSubrequest (logRequest (PageRequest (url next)) st1))
| step_accepted next rest st1 page st3 :
    sortQueue (queue st) = next :: rest ->
    url next ∉ visited st ->
    robotsChecked (popped next rest st) st1 ->
    loadPage extractorRegistry fetch (url next) = Returns page ->
    minTokensPerPage config <= FileInfo.tokenEstimate (file page) ->
    linksQueued next
      (acceptPage page (countSubrequest (logRequest (PageRequest (url next)) st1))) st3 ->
    step st st3.

(** The summary of a step on the popped entry. *)
Record stepEffect (st st' : State) (next : PrioritizedUrl) (rest : list PrioritizedUrl) : Prop := {
  effect_visited : visited st' = {[ url next ]} ∪ visited st;
  effect_queue :
    exists new, queue st' = (rest ++ new)%list
                /\ List.NoDup (map url new)
                /\ (forall e, In e new -> (url e ∉ visited st') /\ ~ In (url e) (map url rest))
                /\ (new = [] \/ length (loadedContent st') = S (length (loadedContent st)));
  effect_loaded :
    (loadedContent st' = loadedContent st /\ currentTokens st' = currentTokens st
     /\ (respectRobotsTxt config = true
         \/ (exists message, loadPage extractorRegistry fetch (url next) = Throws message)
         \/ (exists page, loadPage extractorRegistry fetch (url next) = Returns page
                          /\ FileInfo.tokenEstimate (file page) < minTokensPerPage config)))
    \/ exists page,
        loadedContent st' = (loadedContent st ++ [page])%list
        /\ pagePath page = url next
        /\ currentTokens st' = currentTokens st + FileInfo.tokenEstimate (file page)
        /\ minTokensPerPage config <= FileInfo.tokenEstimate (file page)
        /\ loadPage extractorRegistry fetch (url next) = Returns page
        /\ subrequestCount st' = subrequestCount st + 1;
  effect_errors :
    errors st' = errors st
    \/ exists message, errors st' = (errors st ++ [{| errorUrl := url next; error := message |}])%list;
  effect_count :
    subrequestCount st' = subrequestCount st
    \/ subrequestCount st' = subrequestCount st + 1;
  effect_requests :
    pageRequests (requests st') = pageRequests (requests st)
    \/ pageRequests (requests st') = (pageRequests (requests st) ++ [url next])%list }.

End Steps.

End Steps.

(** The specification's loop: a turn is taken only from a state in which
    the loop condition holds, and the loop is left in the first state in which
    it fails. *)
Inductive whileRuns (config : Crawler.CrawlConfig) (extractorRegistry : ExtractorRegistry)
    (userAgent : string) (fetch : Fetch) : Crawler.State -> Crawler.State -> Prop :=
| runs_exit (st : Crawler.State) :
    Crawler.loopCondition config st = false ->
    whileRuns config extractorRegistry userAgent fetch st st
| runs_turn (st st1 st' : Crawler.State) :
    Crawler.loopCondition config st = true ->
    Crawler.iteration config extractorRegistry userAgent fetch st = Returns st1 ->
    whileRuns config extractorRegistry userAgent fetch st1 st' ->
    whileRuns config extractorRegistry userAgent fetch st st'.

(** ** Invariants of the crawl *)

(** No accepted page, recorded error or page request repeats a URL, and all
    their URLs are visited. *)
Record deduplicated (st : Crawler.State) : Prop := {
  pages_distinct : List.NoDup (map pagePath (Crawler.loadedContent st));
  errors_distinct : List.NoDup (map errorUrl (Crawler.errors st));
  requests_distinct : List.NoDup (pageRequests (Crawler.requests st));
  pages_visited :
    forall u, In u (map pagePath (Crawler.loadedContent st)) -> u ∈ Crawler.visited st;
  errors_visited :
    forall u, In u (map errorUrl (Crawler.errors st)) -> u ∈ Crawler.visited st;
  requests_visited :
    forall u, In u (pageRequests (Crawler.requests st)) -> u ∈ Crawler.visited st }.

(** The queue holds no URL twice and no visited URL. *)
Definition queueFresh (st : Crawler.State) : Prop :=
  List.NoDup (map Crawler.url (Crawler.queue st))
  /\ forall e, In e (Crawler.queue st) -> Crawler.url e ∉ Crawler.visited st.

(** The subrequest count covers the accepted pages and stays within a cap. *)
Definition counted (config : Crawler.CrawlConfig) (st : Crawler.State) : Prop :=
  Z.of_nat (length (Crawler.loadedContent st)) <= Crawler.subrequestCount st
  /\ forall cap, Crawler.maxSubrequests config = Some cap -> 0 <= cap ->
                 Crawler.subrequestCount st <= cap.

(** The specification has the queue reject duplicates at seeding time too. *)
Definition seedingRejectsDuplicates : Prop :=
  forall config : Crawler.CrawlConfig,
    List.NoDup (map Crawler.url (Crawler.queue (Crawler.seedQueue config Crawler.initial))).

(** The specification's reading of the flag: it is set only when neither
    the token target nor the page cap was reached. *)
Definition flagMeansOnlyTheCap : Prop :=
  forall config extractorRegistry userAgent fetch fuel result data,
    Crawler.crawl config extractorRegistry userAgent fetch fuel = Some (Returns result) ->
    crawlData (LoadedSource.metadata result) = Some data ->
    stoppedBySubrequestLimit data = true ->
    actualTokens data < Crawler.targetTokens config
    /\ LoadedSource.fileCount result < Crawler.maxPages config.

Ltac fields :=
  cbn [Crawler.visited Crawler.queue Crawler.loadedContent Crawler.errors
       Crawler.currentTokens Crawler.robotsCache Crawler.subrequestCount
       Crawler.requests Crawler.setQueue Crawler.setVisited Crawler.pushError
       Crawler.acceptPage Crawler.countSubrequest Crawler.logRequest
       Crawler.setRobotsCache Steps.popped] in *.

(** ** Further invariants of the crawl *)

Definition pageTokens (p : Crawler.LoadedPage) : Z := FileInfo.tokenEstimate (Crawler.file p).

(** The running total is the sum of the accepted pages' estimates; each is at
    least the minimum; their number is within [maxPages]; and the pages before
    the last one stay below the token target. *)
Record withinBudget (config : Crawler.CrawlConfig) (st : Crawler.State) : Prop := {
  tokens_added : Crawler.currentTokens st = sumZ (map pageTokens (Crawler.loadedContent st));
  pages_above_minimum :
    forall p, In p (Crawler.loadedContent st) -> Crawler.minTokensPerPage config <= pageTokens p;
  pages_capped :
    Z.of_nat (length (Crawler.loadedContent st)) <= Z.max 0 (Crawler.maxPages config);
  target_passed_last :
    forall init last,
      Crawler.loadedContent st = (init ++ [last])%list ->
      sumZ (map pageTokens init) < Crawler.targetTokens config }.

(** A queue entry made from a seed. *)
Definition seedEntry (config : Crawler.CrawlConfig) (e : Crawler.PrioritizedUrl) : Prop :=
  exists u, In u (Crawler.seedUrls config)
            /\ e = {| Crawler.url := LinkScorer.normalizeUrl u; Crawler.score := 100;
                      Crawler.depth := 0; Crawler.referrer := "" |}.

(** A queue entry made by [queueLinks]. *)
Definition linkEntry (config : Crawler.CrawlConfig) (e : Crawler.PrioritizedUrl) : Prop :=
  1 <= Crawler.depth e
  /\ 20 <= Crawler.score e <= 100
  /\ Crawler.score e = LinkScorer.scoreLink (Crawler.url e) (Crawler.referrer e)
  /\ exists o r,
      newURL (Crawler.url e) = Returns o
      /\ newURL (Crawler.referrer e) = Returns r
      /\ (Crawler.sameDomainOnly config = true ->
          URL.origin (urlOf o) = URL.origin (urlOf r)).

Definition queueWellFormed (config : Crawler.CrawlConfig) (st : Crawler.State) : Prop :=
  forall e, In e (Crawler.queue st) -> seedEntry config e \/ linkEntry config e.

(** The robots.txt requests of a log. *)
Definition robotsRequests (log : list Crawler.Request) : list string :=
  flat_map (fun r => match r with
                     | Crawler.RobotsRequest u => [u]
                     | Crawler.PageRequest _ => []
                     end) log.

(** Every robots.txt request was made for an origin of the cache, once. *)
Definition robotsOnce (st : Crawler.State) : Prop :=
  exists origins,
    List.NoDup origins
    /\ robotsRequests (Crawler.requests st) = map (fun o => o ++ "/robots.txt") origins
    /\ forall o, In o origins <-> is_Some (Crawler.robotsCache st !! o).

(** What [queueLinks] guarantees of an entry it queues while processing the
    popped entry [next]. *)
Definition addedFrom (config : Crawler.CrawlConfig) (next e : Crawler.PrioritizedUrl) : Prop :=
  Crawler.depth e = Crawler.depth next + 1
  /\ Crawler.referrer e = Crawler.url next
  /\ Crawler.score e = LinkScorer.scoreLink (Crawler.url e) (Crawler.url next)
  /\ 20 <= Crawler.score e
  /\ exists o r,
      newURL (Crawler.url e) = Returns o
      /\ newURL (Crawler.url next) = Returns r
      /\ (Crawler.sameDomainOnly config = true ->
          URL.origin (urlOf o) = URL.origin (urlOf r)).

(** Every queued and every visited URL comes from a seed or from a link. *)
Definition provenance (config : Crawler.CrawlConfig) (st : Crawler.State) : Prop :=
  queueWellFormed config st
  /\ forall u, u ∈ Crawler.visited st ->
               exists e, Crawler.url e = u /\ (seedEntry config e \/ linkEntry config e).






(** No pattern of a parsed rule is empty. *)
Definition patternsPresent (r : Robots.RobotsRule) : Prop :=
  (forall p, In p (Robots.allow r) -> p <> "")
  /\ (forall p, In p (Robots.disallow r) -> p <> "").


(** Characters that separate nothing in a form-urlencoded string. *)
Definition formSafe (c : ascii) : bool := negb (Ascii.eqb c "&") && negb (Ascii.eqb c "=").

(** A piece of the serialization: safe up to its one separator. *)
Definition formPiece (piece : string) : Prop :=
  exists a b, piece = a ++ String "=" b
              /\ URL.allS formSafe a = true /\ URL.allS formSafe b = true.


(** A file read from the response to a request for [u]. *)
Definition loadedFrom (fetch : Fetch) (u : string) (f : FileInfo.t) : Prop :=
  FileInfo.path f = u
  /\ exists response,
      fetch u = Returns response
      /\ ok response = true
      /\ FileInfo.size f = JS.len (body response)
      /\ FileInfo.tokenEstimate f = Crawler.estimateTokens (FileInfo.content f)
      /\ exists m, FileInfo.mimeType f = Some m
                   /\ URL.allS (fun c => negb (Ascii.eqb ";" c)) m = true.

(** A loaded source that counts its own files and sums their estimates. *)
Definition consistent (s : LoadedSource.t) : Prop :=
  LoadedSource.fileCount s = Z.of_nat (length (LoadedSource.files s))
  /\ LoadedSource.totalTokens s
     = sumZ (map FileInfo.tokenEstimate (LoadedSource.files s)).

(** ** The extractor registry of extractors/types.ts *)

Module Registry.

Record ContentExtractor := {
  name : string;
  mimeTypes : list string;
  extract : string -> string -> completion ExtractedContent }.

Record t := {
  extractors : list ContentExtractor;
  defaultExtractor : option ContentExtractor }.

(** [new ExtractorRegistry()] *)
Definition new : t := {| extractors := []; defaultExtractor := None |}.

Definition register (extractor : ContentExtractor) (r : t) : t :=
  {| extractors := (extractors r ++ [extractor])%list;
     defaultExtractor := defaultExtractor r |}.

Definition setDefault (extractor : ContentExtractor) (r : t) : t :=
  {| extractors := extractors r; defaultExtractor := Some extractor |}.

(** [mimeType.split(';')[0].trim().toLowerCase()] *)
Definition normalized (mimeType : string) : string :=
  JS.toLowerCase (JS.trim (hd "" (JS.split ";" mimeType))).

Definition findForMimeType (r : t) (mimeType : string) : option ContentExtractor :=
  List.find (fun e => JS.some (fun mt => JS.includes (normalized mimeType) mt) (mimeTypes e))
            (extractors r).

Definition getDefault (r : t) : completion ContentExtractor :=
  match defaultExtractor r with
  | Some e => Returns e
  | None => Throws "No default extractor registered"
  end.

(** The use the crawler's [loadPage] makes of a registry:
    [findForMimeType(contentType) ?? getDefault()], then [extract]. *)
Definition resolve (r : t) : ExtractorRegistry :=
  fun contentType buffer u =>
    extractor ← match findForMimeType r contentType with
                | Some e => mret e
                | None => getDefault r
                end;
    extract extractor buffer u.

End Registry.

(** ** extractors/text-extractor.ts *)

Module TextExtractor.

(** [pathname.split('/').filter(Boolean).pop() || url], the URL itself when
    it does not parse. *)
Definition extractTitleFromUrl (u : string) : string :=
  match newURL u with
  | Returns o =>
      match last (List.filter LinkScorer.truthy (JS.split "/" (URL.pathname (urlOf o)))) with
      | Some piece => if LinkScorer.truthy piece then piece else u
      | None => u
      end
  | Throws _ => u
  end.

(** The raw text passes through; the extractor finds no links. *)
Definition extract (content u : string) : completion ExtractedContent :=
  mret {| text := content; title := Some (extractTitleFromUrl u); links := None |}.

Definition textExtractor : Registry.ContentExtractor :=
  {| Registry.name := "text";
     Registry.mimeTypes := ["text/plain"; "text/markdown"; "text/csv"; "text/xml"];
     Registry.extract := extract |}.

End TextExtractor.

(** [createDefaultRegistry()] of extractors/index.ts; the extraction
    functions of the HTML, PDF and JSON extractors rest on libraries and are
    taken as given. *)
Definition createDefaultRegistry
    (html pdf json : string -> string -> completion ExtractedContent) : Registry.t :=
  let registry := Registry.new in
  let registry :=
    Registry.register {| Registry.name := "html";
                         Registry.mimeTypes := ["text/html"; "application/xhtml+xml"];
                         Registry.extract := html |} registry in
  let registry :=
    Registry.register {| Registry.name := "pdf";
                         Registry.mimeTypes := ["application/pdf"];
                         Registry.extract := pdf |} registry in
  let registry :=
    Registry.register {| Registry.name := "json";
                         Registry.mimeTypes := ["application/json"; "text/json"];
                         Registry.extract := json |} registry in
  let registry := Registry.register TextExtractor.textExtractor registry in
  Registry.setDefault TextExtractor.textExtractor registry.

(** [url.hostname] (URL Standard): the host, or the empty string. *)
Definition hostname (u : URL.t) : string := default "" (URL.host u).

(** [['http:', 'https:'].includes(url.protocol)] *)
Definition httpProtocol (o : URLObject) : bool :=
  existsb (String.eqb (URL.protocol (urlOf o))) ["http:"; "https:"].

(** ** The URL adapter *)

Module UrlAdapter.

Record UrlAdapterConfig := {
  url : option string;
  urls : option (list string);
  targetTokens : option Z;
  minTokensPerPage : option Z;
  maxPages : option Z;
  sameDomainOnly : option bool;
  delayMs : option Z;
  respectRobotsTxt : option bool;
  maxSubrequests : option Z }.

Record t := {
  extractorRegistry : ExtractorRegistry;
  userAgent : string;
  defaultMaxSubrequests : option Z }.

(** [load] returns a loaded source or throws a [LoadError(source, reason)]. *)
Inductive Outcome :=
  | Loaded (result : LoadedSource.t)
  | LoadError (source reason : string).

(** The message of a [LoadError]. *)
Definition messageOf (reason : string) : string := "Failed to load source: " ++ reason.

(** [config.urls ?? (config.url ? [config.url] : [])] *)
Definition seedsOf (config : UrlAdapterConfig) : list string :=
  match urls config with
  | Some l => l
  | None =>
      match url config with
      | Some u => if LinkScorer.truthy u then [u] else []
      | None => []
      end
  end.

(** The [try] block of the validation loop. *)
Definition validateTry (u : string) : completion unit :=
  parsed ← newURL u;
  if negb (httpProtocol parsed)
  then Throws (messageOf "Only HTTP/HTTPS URLs are supported")
  else mret tt.

(** One turn of the validation loop: whatever the [try] block throws, the
    [catch] throws the format error. *)
Definition validate (u : string) : option Outcome :=
  match validateTry u with
  | Returns _ => None
  | Throws _ => Some (LoadError u "Invalid URL format")
  end.

Fixpoint validateAll (seedUrls : list string) : option Outcome :=
  match seedUrls with
  | [] => None
  | u :: rest =>
      match validate u with
      | Some failure => Some failure
      | None => validateAll rest
      end
  end.

(** [maxTokens] is [options?.maxTokens]. *)
Definition crawlConfigOf (adapter : t) (config : UrlAdapterConfig) (maxTokens : option Z)
  : Crawler.CrawlConfig :=
  {| Crawler.seedUrls := seedsOf config;
     Crawler.targetTokens := default (default 100000 maxTokens) (targetTokens config);
     Crawler.minTokensPerPage := default 500 (minTokensPerPage config);
     Crawler.maxPages := default 50 (maxPages config);
     Crawler.sameDomainOnly := default true (sameDomainOnly config);
     Crawler.delayMs := default 100 (delayMs config);
     Crawler.respectRobotsTxt := default true (respectRobotsTxt config);
     Crawler.maxSubrequests :=
       match maxSubrequests config with
       | Some n => Some n
       | None => defaultMaxSubrequests adapter
       end |}.

(** [load(source, options)]; [None] when the crawl runs out of fuel. *)
Definition load (adapter : t) (config : UrlAdapterConfig) (maxTokens : option Z)
    (fetch : Fetch) (fuel : nat) : option Outcome :=
  let seedUrls := seedsOf config in
  if (length seedUrls =? 0)%nat then Some (LoadError "url" "No URL provided")
  else
    match validateAll seedUrls with
    | Some failure => Some failure
    | None =>
        match Crawler.crawl (crawlConfigOf adapter config maxTokens)
                            (extractorRegistry adapter) (userAgent adapter) fetch fuel with
        | Some (Returns result) => Some (Loaded result)
        | Some (Throws message) =>
            Some (LoadError (JS.join ", " seedUrls) ("Crawl failed: " ++ message))
        | None => None
        end
    end.

(** [isGenericUrl(source)] *)
Definition isGenericUrl (source : string) : bool :=
  match newURL source with
  | Returns o => httpProtocol o && negb (JS.includes (hostname (urlOf o)) "github.com")
  | Throws _ => false
  end.

End UrlAdapter.

(** ** Source dispatch: source-loader.ts and handlers.ts *)

Module Dispatch.

(** [isUrl(source)] *)
Definition isUrl (source : string) : bool :=
  JS.startsWith source "http://" || JS.startsWith source "https://".

Definition notSlash (c : ascii) : bool := negb (Ascii.eqb c "/").

(** [/^\/[^/]+\/[^/]+/.test(pathname)]: a slash, a run of other characters,
    a slash, and one more character that is not a slash. *)
Definition ownerRepoPath (pathname : string) : bool :=
  match pathname with
  | String c r =>
      Ascii.eqb c "/" &&
      match URL.span (fun x => Ascii.eqb x "/") r with
      | (String _ _, String _ (String d _)) => notSlash d
      | _ => false
      end
  | EmptyString => false
  end.

(** [isGitHubUrl(source)] *)
Definition isGitHubUrl (source : string) : bool :=
  match newURL source with
  | Returns o =>
      (String.eqb (hostname (urlOf o)) "github.com"
       || String.eqb (hostname (urlOf o)) "www.github.com")
      && ownerRepoPath (URL.pathname (urlOf o))
  | Throws _ => false
  end.

(** Where [loadSingleSource] sends a source; the loaders themselves work on
    the network and the file system. *)
Inductive Route :=
  | GitHubRepository
  | GenericUrl
  | LocalPath.

Definition loadSingleSource (urlAdapterConfigured : bool) (source : string)
  : completion Route :=
  if isGitHubUrl source then mret GitHubRepository
  else if UrlAdapter.isGenericUrl source then
    if negb urlAdapterConfigured
    then Throws "URL adapter not configured. Cannot load generic URLs."
    else mret GenericUrl
  else if isUrl source then
    Throws "Only GitHub URLs and HTTP/HTTPS URLs are supported for remote loading"
  else mret LocalPath.

End Dispatch.

(** The configuration [loadSingleSource] hands to the URL adapter:
    [{ type: 'url', url: source }]. *)
Definition urlSource (source : string) : UrlAdapter.UrlAdapterConfig :=
  {| UrlAdapter.url := Some source; UrlAdapter.urls := None;
     UrlAdapter.targetTokens := None; UrlAdapter.minTokensPerPage := None;
     UrlAdapter.maxPages := None; UrlAdapter.sameDomainOnly := None;
     UrlAdapter.delayMs := None; UrlAdapter.respectRobotsTxt := None;
     UrlAdapter.maxSubrequests := None |}.

(** Settings for reading the adapter's behaviour on examples. *)
Module Examples.

Definition textAdapter : UrlAdapter.t :=
  {| UrlAdapter.extractorRegistry :=
       Registry.resolve (createDefaultRegistry TextExtractor.extract TextExtractor.extract
                                               TextExtractor.extract);
     UrlAdapter.userAgent := "Mnemo/0.2.0 (https://github.com/logos-flux/mnemo; context-loader)";
     UrlAdapter.defaultMaxSubrequests := None |}.

Definition twoSeeds : UrlAdapter.UrlAdapterConfig :=
  {| UrlAdapter.url := None;
     UrlAdapter.urls := Some ["https://a.com/one"; "ftp://a.com/two"; "not a url"];
     UrlAdapter.targetTokens := None; UrlAdapter.minTokensPerPage := None;
     UrlAdapter.maxPages := None; UrlAdapter.sameDomainOnly := None;
     UrlAdapter.delayMs := None; UrlAdapter.respectRobotsTxt := None;
     UrlAdapter.maxSubrequests := None |}.

Definition emptyList : UrlAdapter.UrlAdapterConfig :=
  {| UrlAdapter.url := Some "https://a.com/one";
     UrlAdapter.urls := Some [];
     UrlAdapter.targetTokens := None; UrlAdapter.minTokensPerPage := None;
     UrlAdapter.maxPages := None; UrlAdapter.sameDomainOnly := None;
     UrlAdapter.delayMs := None; UrlAdapter.respectRobotsTxt := None;
     UrlAdapter.maxSubrequests := None |}.

(** An entry found on the front page. *)
Definition found (u : string) (s : Z) : Crawler.PrioritizedUrl :=
  {| Crawler.url := u; Crawler.score := s; Crawler.depth := 1;
     Crawler.referrer := "https://a.com/" |}.

(** The head of the queue that a crawl of three-link pages leaves. *)
Definition firstQueued (config : Crawler.CrawlConfig) : Crawler.PrioritizedUrl :=
  hd (found "" 0)
     (Crawler.queue
        (Scenario.finalState
           (Crawler.run config (Scenario.pagesOf 60 Scenario.threeLinks)
                        Scenario.robotUserAgent Scenario.site 10%nat))).

(** The URL object of "https://x.com/~a/b c/". *)
Definition tildeDirectory : URLObject :=
  {| urlOf := URL.mk "https" "" "" (Some "x.com") None
                     (URL.Segments ["~a"; "b%20c"; ""]) None None;
     searchParams := [] |}.

(** The URL object of "https://a.com/files/data.bin". *)
Definition dataFile : URLObject :=
  {| urlOf := URL.mk "https" "" "" (Some "a.com") None
                     (URL.Segments ["files"; "data.bin"]) None None;
     searchParams := [] |}.






End Examples.
(** * Properties *)

(** ** The corpus assembler *)

Lemma reduceSum_from {A} (f : A -> Z) (l : list A) (acc : Z) :
  fold_left (fun sum s => sum + f s) l acc = acc + sumZ (map f l).
Proof.
  revert acc. induction l as [|x l IH]; intros acc; simpl.
  - lia.
  - rewrite IH. lia.
Qed.

Lemma reduceSum_sumZ {A} (f : A -> Z) (l : list A) :
  Handlers.reduceSum f l = sumZ (map f l).
Proof. unfold Handlers.reduceSum. rewrite reduceSum_from. lia. Qed.

(** C10. The combined source's [totalTokens] is the arithmetic sum of the
    inputs' [totalTokens], its [fileCount] the sum of their [fileCount]s; two
    sources of 100 and 250 tokens combine to 350. *)
Theorem combineLoadedSources_sums :
  (forall now sources names,
      LoadedSource.totalTokens (Handlers.combineLoadedSources now sources names)
      = sumZ (map LoadedSource.totalTokens sources)
      /\ LoadedSource.fileCount (Handlers.combineLoadedSources now sources names)
         = sumZ (map LoadedSource.fileCount sources))
  /\ (forall now names n1 n2,
         let combined :=
           Handlers.combineLoadedSources now [Scenario.source 100 n1; Scenario.source 250 n2] names in
         LoadedSource.totalTokens combined = 350
         /\ LoadedSource.fileCount combined = n1 + n2).
Proof.
  split.
  - intros now sources names. cbn [Handlers.combineLoadedSources
      LoadedSource.totalTokens LoadedSource.fileCount].
    now rewrite !reduceSum_sumZ.
  - intros now names n1 n2 combined. subst combined.
    cbn [Handlers.combineLoadedSources LoadedSource.totalTokens LoadedSource.fileCount].
    rewrite !reduceSum_sumZ. simpl. split; lia.
Qed.

(** ** URL objects *)

Lemma newURL_fails (u : string) :
  URL.parse u = None -> newURL u = Throws "Invalid URL".
Proof. intros H. unfold newURL. now rewrite H. Qed.

Lemma newURL_returns (u : string) (o : URLObject) :
  newURL u = Returns o -> URL.parse u = Some (urlOf o).
Proof.
  unfold newURL. destruct (URL.parse u) as [r|]; simpl; [|discriminate].
  intros [= <-]. reflexivity.
Qed.

(** ** The URL normalizer *)

(** Malformed input comes back unchanged. *)
Lemma normalizeUrl_malformed (u : string) :
  URL.parse u = None -> LinkScorer.normalizeUrl u = u.
Proof.
  intros H. unfold LinkScorer.normalizeUrl. now rewrite (newURL_fails _ H).
Qed.

(** C7. [normalizeUrl] is not idempotent: of two trailing slashes it removes
    one, and the next pass removes the other. *)
Theorem normalizeUrl_twice_differs :
  LinkScorer.normalizeUrl "https://x.com/a//" = "https://x.com/a/"
  /\ LinkScorer.normalizeUrl "https://x.com/a/" = "https://x.com/a"
  /\ LinkScorer.normalizeUrl (LinkScorer.normalizeUrl "https://x.com/a//")
     <> LinkScorer.normalizeUrl "https://x.com/a//".
Proof.
  split; [|split].
  - vm_compute. reflexivity.
  - vm_compute. reflexivity.
  - vm_compute. discriminate.
Qed.

(** The ten deletions of [normalizeUrl] amount to one filter. *)
Lemma deletes_filter (names : list string) (o : URLObject) :
  searchParams (fold_left (fun o param => searchParamsDelete param o) names o)
  = filter (fun p => p.1 ∉ names) (searchParams o).
Proof.
  revert o. induction names as [|n names IH]; intros o; simpl.
  - induction (searchParams o) as [|p l IHl]; [reflexivity|].
    rewrite filter_cons_True by set_solver. now rewrite <- IHl.
  - rewrite IH. cbn [searchParamsDelete searchParams].
    rewrite list_filter_filter. apply list_filter_iff.
    intros p. rewrite not_elem_of_cons. tauto.
Qed.

Lemma deletes_query (names : list string) (o : URLObject) :
  names <> [] ->
  let kept := filter (fun p => p.1 ∉ names) (searchParams o) in
  URL.query (urlOf (fold_left (fun o param => searchParamsDelete param o) names o))
  = if String.eqb (URL.serializeUrlencoded kept) "" then None
    else Some (URL.serializeUrlencoded kept).
Proof.
  intros Hne kept. subst kept.
  destruct (exists_last Hne) as (names' & n & ->).
  rewrite fold_left_app. cbn [fold_left searchParamsDelete urlOf URL.query].
  rewrite deletes_filter, list_filter_filter.
  assert (E : filter (fun p : string * string => p.1 ≠ n ∧ p.1 ∉ names') (searchParams o)
              = filter (fun p : string * string => p.1 ∉ (names' ++ [n])%list) (searchParams o)).
  { apply list_filter_iff. intros p. rewrite not_elem_of_app, not_elem_of_cons.
    split; [intros [? ?]; repeat split; auto; apply not_elem_of_nil | tauto]. }
  now rewrite E.
Qed.

Lemma deletes_rest (names : list string) (o : URLObject) :
  let o' := fold_left (fun o param => searchParamsDelete param o) names o in
  URL.path (urlOf o') = URL.path (urlOf o)
  /\ URL.scheme (urlOf o') = URL.scheme (urlOf o)
  /\ URL.host (urlOf o') = URL.host (urlOf o).
Proof.
  revert o. induction names as [|n names IH]; intros o; simpl; [auto|].
  destruct (IH (searchParamsDelete n o)) as (-> & -> & ->). auto.
Qed.

(** *** Strings *)

Lemma append_cons (c : ascii) (a b : string) : String c a ++ b = String c (a ++ b).
Proof. reflexivity. Qed.

Lemma append_nil_l (b : string) : "" ++ b = b.
Proof. reflexivity. Qed.

Lemma append_nil_r (s : string) : s ++ "" = s.
Proof.
  induction s as [|c s IH]; [reflexivity|]. now rewrite append_cons, IH.
Qed.

Lemma append_assoc (a b c : string) : (a ++ b) ++ c = a ++ (b ++ c).
Proof.
  induction a as [|x a IH]; [reflexivity|]. now rewrite !append_cons, IH.
Qed.

Ltac string_simpl := rewrite ?append_cons, ?append_nil_l, ?append_nil_r.

Lemma revS_append (acc s : string) : JS.revS acc s = JS.reverse s ++ acc.
Proof.
  unfold JS.reverse. revert acc.
  induction s as [|c s IH]; intros acc; simpl; [reflexivity|].
  rewrite IH, (IH (String c "")), append_assoc. reflexivity.
Qed.

Lemma reverse_cons (c : ascii) (s : string) :
  JS.reverse (String c s) = JS.reverse s ++ String c "".
Proof. unfold JS.reverse at 1. simpl. apply revS_append. Qed.

Lemma reverse_append (a b : string) :
  JS.reverse (a ++ b) = JS.reverse b ++ JS.reverse a.
Proof.
  induction a as [|c a IH].
  - change (JS.reverse "") with "". now string_simpl.
  - rewrite append_cons, !reverse_cons, IH, append_assoc. reflexivity.
Qed.

Lemma reverse_involutive (s : string) : JS.reverse (JS.reverse s) = s.
Proof.
  induction s as [|c s IH]; [reflexivity|].
  rewrite reverse_cons, reverse_append, IH. reflexivity.
Qed.

Lemma stripTrailingSlash_slash (s : string) : JS.stripTrailingSlash (s ++ "/") = s.
Proof.
  unfold JS.stripTrailingSlash, JS.endsWith, JS.sliceInit.
  rewrite reverse_append.
  change (JS.reverse "/") with "/". rewrite append_cons, append_nil_l.
  cbn. assert (E : String.prefix "" (JS.reverse s) = true) by now destruct (JS.reverse s).
  rewrite E. apply reverse_involutive.
Qed.

(** *** Paths made of plain segments *)

Lemma plainChar_facts (c : ascii) :
  plainChar c = true ->
  URL.pathSet c = false
  /\ (forall special, URL.isSlash special c = false)
  /\ URL.isTabOrNewline c = false
  /\ JS.lowerChar c <> "."%char
  /\ JS.lowerChar c <> "%"%char
  /\ c <> "."%char.
Proof.
  destruct c as [[] [] [] [] [] [] [] []]; vm_compute; intros H; try discriminate H;
    (repeat split; try discriminate; intros []; reflexivity).
Qed.

Lemma serializePath_snoc (l : list string) :
  URL.serializePath (URL.Segments (l ++ [""]))
  = URL.serializePath (URL.Segments l) ++ "/".
Proof.
  induction l as [|seg l IH]; [reflexivity|].
  cbn [URL.serializePath app fold_right] in *.
  rewrite IH, append_cons, append_nil_l, !append_assoc. reflexivity.
Qed.

Lemma splitWhen_plain (special : bool) (rest : list string) (seg : string) :
  plainSegment seg = true ->
  Forall (fun s => plainSegment s = true) rest ->
  JS.splitWhen (URL.isSlash special) (seg ++ URL.serializePath (URL.Segments rest))
  = seg :: rest.
Proof.
  intros Hseg Hrest. revert seg Hseg.
  induction Hrest as [|r rest Hr Hrest IH]; intros seg; induction seg as [|c seg IHseg];
    intros Hseg.
  - reflexivity.
  - apply andb_prop in Hseg as [Hc Hseg].
    destruct (plainChar_facts c Hc) as (_ & Hslash & _).
    cbn [URL.serializePath fold_right] in *. rewrite append_cons.
    cbn [JS.splitWhen]. rewrite Hslash, (IHseg Hseg). reflexivity.
  - cbn [URL.serializePath fold_right]. rewrite append_nil_l, append_cons, append_nil_l.
    cbn [JS.splitWhen]. replace (URL.isSlash special "/") with true by now destruct special.
    cbn [URL.serializePath] in IH. now rewrite (IH r Hr).
  - apply andb_prop in Hseg as [Hc Hseg].
    destruct (plainChar_facts c Hc) as (_ & Hslash & _).
    rewrite append_cons. cbn [JS.splitWhen]. rewrite Hslash, (IHseg Hseg). reflexivity.
Qed.

Lemma percentEncode_plain (seg : string) :
  plainSegment seg = true -> URL.percentEncode URL.pathSet seg = seg.
Proof.
  induction seg as [|c seg IH]; [reflexivity|]. intros H.
  apply andb_prop in H as [Hc Hseg].
  destruct (plainChar_facts c Hc) as (Hset & _).
  cbn [URL.percentEncode]. now rewrite Hset, IH.
Qed.

Lemma plainSegment_not_dot (seg : string) :
  plainSegment seg = true -> URL.isDoubleDot seg = false /\ URL.isSingleDot seg = false.
Proof.
  destruct seg as [|c seg]; [now vm_compute|]. intros H.
  apply andb_prop in H as [Hc _].
  destruct (plainChar_facts c Hc) as (_ & _ & _ & Hdot & Hpct & _).
  unfold URL.isDoubleDot, URL.isSingleDot, JS.toLowerCase.
  cbn [JS.mapS JS.some existsb String.eqb].
  apply Ascii.eqb_neq in Hdot, Hpct. rewrite Hdot, Hpct. auto.
Qed.

Lemma pathState_plain (bs init : list string) :
  Forall (fun s => plainSegment s = true) bs -> URL.pathState bs init = (init ++ bs)%list.
Proof.
  intros H. revert init. induction H as [|b bs Hb Hbs IH]; intros init.
  - cbn. now rewrite app_nil_r.
  - destruct (plainSegment_not_dot b Hb) as [Hdd Hsd].
    cbn [URL.pathState]. rewrite Hdd, Hsd, IH, <- app_assoc. reflexivity.
Qed.

(** The characters of a serialized path of plain segments. *)
Definition pathChar (c : ascii) : bool := plainChar c || Ascii.eqb c "/".

Lemma pathChar_facts (c : ascii) :
  pathChar c = true -> URL.isTabOrNewline c = false /\ c <> "."%char.
Proof.
  destruct c as [[] [] [] [] [] [] [] []]; vm_compute; intros H; try discriminate H;
    (split; [reflexivity | discriminate]).
Qed.

Lemma allS_append (p : ascii -> bool) (a b : string) :
  URL.allS p (a ++ b) = URL.allS p a && URL.allS p b.
Proof.
  induction a as [|c a IH]; [reflexivity|].
  rewrite append_cons. cbn [URL.allS]. now rewrite IH, andb_assoc.
Qed.

Lemma allS_weaken (p q : ascii -> bool) (s : string) :
  (forall c, p c = true -> q c = true) -> URL.allS p s = true -> URL.allS q s = true.
Proof.
  intros Hpq. induction s as [|c s IH]; [reflexivity|]. cbn [URL.allS].
  intros H. apply andb_prop in H as [Hc Hs]. now rewrite (Hpq c Hc), IH.
Qed.

Lemma serializePath_pathChars (l : list string) :
  Forall (fun s => plainSegment s = true) l ->
  URL.allS pathChar (URL.serializePath (URL.Segments l)) = true.
Proof.
  induction 1 as [|seg l Hseg _ IH]; [reflexivity|].
  cbn [URL.serializePath fold_right] in *.
  rewrite append_cons, append_nil_l. cbn [URL.allS].
  rewrite allS_append, IH, andb_true_r. cbn.
  apply (allS_weaken plainChar); [|exact Hseg].
  intros c Hc. unfold pathChar. now rewrite Hc.
Qed.

Lemma filterS_pathChars (s : string) :
  URL.allS pathChar s = true ->
  URL.filterS (fun c => negb (URL.isTabOrNewline c)) s = s.
Proof.
  induction s as [|c s IH]; [reflexivity|]. cbn [URL.allS URL.filterS].
  intros H. apply andb_prop in H as [Hc Hs].
  destruct (pathChar_facts c Hc) as [-> _]. cbn [negb]. now rewrite (IH Hs).
Qed.

Lemma includes_dot_pathChars (s : string) :
  URL.allS pathChar s = true -> JS.includes s "." = false.
Proof.
  induction s as [|c s IH]; [reflexivity|]. cbn [URL.allS].
  intros H. apply andb_prop in H as [Hc Hs].
  destruct (pathChar_facts c Hc) as [_ Hdot].
  cbn [JS.includes]. rewrite (IH Hs), orb_false_r.
  unfold JS.startsWith. cbn [String.prefix].
  destruct (ascii_dec "." c) as [E|_]; [now subst c|reflexivity].
Qed.

Lemma eqb_append_slash_nil (a : string) : String.eqb (a ++ "/") "" = false.
Proof. now destruct a. Qed.

(** The trailing slash of a path of plain segments is removed. *)
Lemma normalizeUrlObject_plain_path (o : URLObject) (l : list string) :
  URL.path (urlOf o) = URL.Segments (l ++ [""]) ->
  l <> [] ->
  Forall (fun s => plainSegment s = true) l ->
  URL.path (urlOf (LinkScorer.normalizeUrlObject o)) = URL.Segments l.
Proof.
  intros Hpath Hne Hplain. unfold LinkScorer.normalizeUrlObject.
  set (o1 := fold_left _ _ o).
  destruct (deletes_rest LinkScorer.trackingParams o) as (Hp & _). fold o1 in Hp.
  assert (Hp1 : URL.path (urlOf (onUrl URL.clearHash o1)) = URL.Segments (l ++ [""]))
    by (cbn; congruence).
  set (o2 := onUrl URL.clearHash o1) in *.
  unfold URL.pathname. rewrite Hp1, serializePath_snoc, stripTrailingSlash_slash.
  pose proof (serializePath_pathChars l Hplain) as Hchars.
  destruct l as [|seg l]; [contradiction|].
  apply Forall_cons in Hplain as [Hseg Hl].
  assert (Hnotroot : String.eqb (URL.serializePath (URL.Segments (seg :: l)) ++ "/") "/" = false).
  { cbn [URL.serializePath fold_right].
    change (String.eqb (String "/" ((seg ++ fold_right (fun seg out => "/" ++ seg ++ out) "" l) ++ "/")) "/" = false).
    cbn [String.eqb]. rewrite eqb_append_slash_nil. apply andb_false_r. }
  rewrite Hnotroot.
  assert (Hnodot : JS.includes (URL.serializePath (URL.Segments (seg :: l)) ++ "/") "." = false).
  { apply includes_dot_pathChars. rewrite allS_append, Hchars. reflexivity. }
  rewrite Hnodot. cbn [negb andb onUrl urlOf].
  unfold URL.setPathname. rewrite Hp1, (filterS_pathChars _ Hchars).
  cbn [URL.serializePath fold_right]. rewrite append_cons, append_nil_l.
  replace (URL.isSlash (URL.isSpecial (URL.scheme (urlOf o2))) "/") with true
    by now destruct (URL.isSpecial _).
  cbn [String.eqb]. rewrite andb_false_r.
  cbn [URL.withPath URL.path]. unfold URL.buffersOf.
  change (fold_right (fun seg out => "/" ++ seg ++ out) "" l)
    with (URL.serializePath (URL.Segments l)).
  rewrite (splitWhen_plain _ l seg Hseg Hl).
  assert (Hmap : map (URL.percentEncode URL.pathSet) (seg :: l) = seg :: l).
  { clear -Hseg Hl. assert (H : Forall (fun s => plainSegment s = true) (seg :: l)) by now constructor.
    induction H as [|x xs Hx _ IH]; [reflexivity|]. cbn [map]. now rewrite percentEncode_plain, IH. }
  rewrite Hmap, pathState_plain by now constructor. reflexivity.
Qed.

Lemma setPathname_rest (v : string) (u : URL.t) :
  URL.query (URL.setPathname v u) = URL.query u
  /\ URL.fragment (URL.setPathname v u) = URL.fragment u.
Proof.
  unfold URL.setPathname. destruct (URL.path u); [auto|].
  destruct (_ && _); auto.
Qed.

Lemma normalizeUrlObject_query (o : URLObject) :
  let result := LinkScorer.normalizeUrlObject o in
  let kept := filter (fun p => p.1 ∉ LinkScorer.trackingParams) (searchParams o) in
  searchParams result = kept
  /\ URL.query (urlOf result)
     = (if String.eqb (URL.serializeUrlencoded kept) "" then None
        else Some (URL.serializeUrlencoded kept))
  /\ URL.fragment (urlOf result) = None.
Proof.
  intros result kept. subst result kept. unfold LinkScorer.normalizeUrlObject.
  pose proof (deletes_filter LinkScorer.trackingParams o) as Hf.
  pose proof (deletes_query LinkScorer.trackingParams o ltac:(discriminate)) as Hq.
  cbv zeta in Hq.
  generalize dependent (fold_left (fun o param => searchParamsDelete param o)
                                  LinkScorer.trackingParams o).
  intros o1 Hf Hq.
  destruct (_ && _); cbn [onUrl urlOf searchParams URL.clearHash URL.query URL.fragment].
  - destruct (setPathname_rest
                (JS.stripTrailingSlash (URL.pathname (URL.clearHash (urlOf o1))))
                (URL.clearHash (urlOf o1))) as [-> ->].
    cbn [URL.clearHash URL.query URL.fragment]. auto.
  - auto.
Qed.

Lemma endsWith_sliceInit (s : string) (c : ascii) :
  JS.endsWith s (String c "") = true -> JS.sliceInit s ++ String c "" = s.
Proof.
  unfold JS.endsWith, JS.sliceInit, JS.startsWith. change (JS.reverse (String c "")) with (String c "").
  destruct (JS.reverse s) as [|d r] eqn:E; cbn [String.prefix]; [discriminate|].
  destruct (ascii_dec c d) as [<-|]; [|discriminate]. intros _.
  rewrite <- (reverse_involutive s), E, reverse_cons. reflexivity.
Qed.

Lemma endsWith_char_absent (s : string) (c : ascii) :
  URL.allS (fun x => negb (Ascii.eqb x c)) s = true ->
  JS.endsWith s (String c "") = false.
Proof.
  intros H. destruct (JS.endsWith s (String c "")) eqn:E; [|reflexivity].
  rewrite <- (endsWith_sliceInit _ _ E), allS_append in H.
  cbn in H. rewrite Ascii.eqb_refl, andb_false_r in H. discriminate H.
Qed.

(** *** The form-urlencoded serializer and parser *)

Lemma percentDecode_cons (c : ascii) (r : string) :
  Ascii.eqb c "%" = false ->
  URL.percentDecode (String c r) = String c (URL.percentDecode r).
Proof.
  intros Hc. cbn [URL.percentDecode]. rewrite Hc.
  destruct r as [|h1 [|h2 r]]; reflexivity.
Qed.

Lemma hexDigit_facts (c : ascii) :
  let h1 := JS.hexDigit (JS.code c / 16) in
  let h2 := JS.hexDigit (JS.code c mod 16) in
  URL.plusToSpace h1 = h1 /\ URL.plusToSpace h2 = h2
  /\ JS.isHexDigit h1 = true /\ JS.isHexDigit h2 = true
  /\ ascii_of_N (16 * JS.hexValue h1 + JS.hexValue h2) = c.
Proof.
  destruct c as [[] [] [] [] [] [] [] []]; vm_compute; repeat split.
Qed.

Lemma percentByte_decodes (c : ascii) (r : string) :
  URL.percentDecode (JS.mapS URL.plusToSpace (URL.percentByte c ++ r))
  = String c (URL.percentDecode (JS.mapS URL.plusToSpace r)).
Proof.
  destruct (hexDigit_facts c) as (Hp1 & Hp2 & Hh1 & Hh2 & Hv). cbv zeta in *.
  unfold URL.percentByte. rewrite !append_cons, append_nil_l. cbn [JS.mapS].
  rewrite Hp1, Hp2. change (URL.plusToSpace "%") with "%"%char.
  generalize dependent (JS.hexDigit (JS.code c / 16)).
  generalize dependent (JS.hexDigit (JS.code c mod 16)).
  intros h2 Hp2 Hh2 h1 Hp1 Hh1 Hv.
  cbn [URL.percentDecode]. rewrite Hh1, Hh2, Hv. reflexivity.
Qed.

Lemma percentByte_formSafe (c : ascii) : URL.allS formSafe (URL.percentByte c) = true.
Proof.
  destruct c as [[] [] [] [] [] [] [] []]; vm_compute; reflexivity.
Qed.

Lemma urlencodedKeep_facts (c : ascii) :
  URL.urlencodedKeep c = true ->
  URL.plusToSpace c = c /\ Ascii.eqb c "%" = false /\ formSafe c = true.
Proof.
  destruct c as [[] [] [] [] [] [] [] []]; vm_compute; intros H;
    first [discriminate H | repeat split].
Qed.

Lemma decodeComponent_encodeComponent (s : string) :
  URL.decodeComponent (URL.encodeComponent s) = s.
Proof.
  unfold URL.decodeComponent.
  induction s as [|c s IH]; [reflexivity|].
  cbn [URL.encodeComponent].
  destruct (Ascii.eqb c " ") eqn:Hsp.
  - apply Ascii.eqb_eq in Hsp as ->. cbn [JS.mapS].
    change (URL.plusToSpace "+") with " "%char.
    rewrite percentDecode_cons by reflexivity. now rewrite IH.
  - destruct (URL.urlencodedKeep c) eqn:Hk.
    + destruct (urlencodedKeep_facts c Hk) as (Hp & Hpc & _).
      cbn [JS.mapS]. rewrite Hp, percentDecode_cons by exact Hpc. now rewrite IH.
    + rewrite percentByte_decodes. now rewrite IH.
Qed.

Lemma encodeComponent_formSafe (s : string) :
  URL.allS formSafe (URL.encodeComponent s) = true.
Proof.
  induction s as [|c s IH]; [reflexivity|].
  cbn [URL.encodeComponent].
  destruct (Ascii.eqb c " ") eqn:Hsp; [cbn [URL.allS]; now rewrite IH|].
  destruct (URL.urlencodedKeep c) eqn:Hk.
  - destruct (urlencodedKeep_facts c Hk) as (_ & _ & Hf).
    cbn [URL.allS]. now rewrite Hf, IH.
  - now rewrite allS_append, percentByte_formSafe, IH.
Qed.

Lemma cutAt_append (a b : string) :
  URL.allS formSafe a = true ->
  JS.cutAt "=" (a ++ String "=" b) = Some (a, b).
Proof.
  induction a as [|c a IH]; intros Ha; [reflexivity|].
  cbn [URL.allS] in Ha. apply andb_prop in Ha as [Hc Ha].
  unfold formSafe in Hc. apply andb_prop in Hc as [_ Hc]. apply negb_true_iff in Hc.
  rewrite append_cons. cbn [JS.cutAt]. now rewrite Hc, (IH Ha).
Qed.

Lemma formPiece_no_amp (piece : string) :
  formPiece piece ->
  URL.allS (fun c => negb (Ascii.eqb "&" c)) piece = true /\ piece <> "".
Proof.
  intros (a & b & -> & Ha & Hb).
  assert (W : forall s, URL.allS formSafe s = true ->
                        URL.allS (fun c => negb (Ascii.eqb "&" c)) s = true).
  { intros s. apply allS_weaken. intros c Hc. unfold formSafe in Hc.
    apply andb_prop in Hc as [Hc _]. now rewrite Ascii.eqb_sym. }
  split.
  - rewrite allS_append. cbn [URL.allS]. rewrite (W a Ha), (W b Hb). reflexivity.
  - destruct a; discriminate.
Qed.

Lemma splitWhen_no_sep (isSep : ascii -> bool) (s : string) :
  URL.allS (fun c => negb (isSep c)) s = true -> JS.splitWhen isSep s = [s].
Proof.
  induction s as [|c s IH]; [reflexivity|].
  cbn [URL.allS JS.splitWhen]. intros H. apply andb_prop in H as [Hc Hs].
  apply negb_true_iff in Hc. now rewrite Hc, (IH Hs).
Qed.

Lemma splitWhen_append (isSep : ascii -> bool) (a : string) (sep : ascii) (rest : string) :
  URL.allS (fun c => negb (isSep c)) a = true ->
  isSep sep = true ->
  JS.splitWhen isSep (a ++ String sep rest) = a :: JS.splitWhen isSep rest.
Proof.
  intros Ha Hsep. induction a as [|c a IH].
  - rewrite append_nil_l. cbn [JS.splitWhen]. now rewrite Hsep.
  - cbn [URL.allS] in Ha. apply andb_prop in Ha as [Hc Ha]. apply negb_true_iff in Hc.
    rewrite append_cons. cbn [JS.splitWhen]. now rewrite Hc, (IH Ha).
Qed.

Lemma split_join (pieces : list string) :
  Forall formPiece pieces ->
  filter (fun piece => piece <> EmptyString) (JS.split "&" (JS.join "&" pieces)) = pieces.
Proof.
  unfold JS.split, JS.join.
  induction 1 as [|p ps Hp Hps IH]; [reflexivity|].
  destruct (formPiece_no_amp p Hp) as [Hsafe Hne].
  destruct ps as [|q ps].
  - cbn [String.concat]. rewrite (splitWhen_no_sep _ _ Hsafe).
    cbn [filter list_filter]. destruct (decide (p <> "")); [reflexivity|contradiction].
  - change (String.concat "&" (p :: q :: ps)) with (p ++ String "&" (String.concat "&" (q :: ps))).
    rewrite (splitWhen_append (Ascii.eqb "&") p "&" _ Hsafe eq_refl).
    rewrite filter_cons. destruct (decide (p <> "")); [|contradiction].
    now rewrite IH.
Qed.

Lemma parseUrlencoded_serializeUrlencoded (l : list (string * string)) :
  URL.parseUrlencoded (URL.serializeUrlencoded l) = l.
Proof.
  unfold URL.parseUrlencoded, URL.serializeUrlencoded.
  rewrite split_join.
  - rewrite map_map. rewrite <- (map_id l) at 2. apply map_ext. intros [n v].
    change (URL.encodeComponent n ++ "=" ++ URL.encodeComponent v)
      with (URL.encodeComponent n ++ String "=" (URL.encodeComponent v)).
    rewrite cutAt_append by apply encodeComponent_formSafe.
    now rewrite !decodeComponent_encodeComponent.
  - apply List.Forall_forall. intros piece Hin. apply in_map_iff in Hin as ([n v] & <- & _).
    exists (URL.encodeComponent n), (URL.encodeComponent v).
    split; [reflexivity|]. split; apply encodeComponent_formSafe.
Qed.

(** *** The link scorer against its specification *)

Lemma split_join_pieces (pieces : list string) :
  Forall formPiece pieces ->
  pieces <> [] ->
  JS.split "&" (JS.join "&" pieces) = pieces.
Proof.
  unfold JS.split, JS.join.
  induction 1 as [|p ps Hp Hps IH]; [contradiction|]. intros _.
  destruct (formPiece_no_amp p Hp) as [Hsafe _].
  destruct ps as [|q ps].
  - cbn [String.concat]. apply (splitWhen_no_sep _ _ Hsafe).
  - change (String.concat "&" (p :: q :: ps)) with (p ++ String "&" (String.concat "&" (q :: ps))).
    rewrite (splitWhen_append (Ascii.eqb "&") p "&" _ Hsafe eq_refl).
    now rewrite IH.
Qed.

Lemma serializeUrlencoded_pieces (l : list (string * string)) :
  length (JS.split "&" (URL.serializeUrlencoded l)) = Nat.max 1 (length l).
Proof.
  unfold URL.serializeUrlencoded.
  destruct l as [|p l]; [reflexivity|].
  rewrite split_join_pieces.
  - rewrite length_map. cbn [length]. lia.
  - apply List.Forall_forall. intros piece Hin. apply in_map_iff in Hin as ([n v] & <- & _).
    exists (URL.encodeComponent n), (URL.encodeComponent v).
    split; [reflexivity|]. split; apply encodeComponent_formSafe.
  - discriminate.
Qed.

Lemma adjust_add (applies : bool) (score amount : Z) :
  (if applies then score + amount else score) = score + ScoreSpec.adjust applies amount.
Proof. destruct applies; unfold ScoreSpec.adjust; lia. Qed.

Lemma adjust_sub (applies : bool) (score amount : Z) :
  (if applies then score - amount else score) = score + ScoreSpec.adjust applies (- amount).
Proof. destruct applies; unfold ScoreSpec.adjust; lia. Qed.

(** The code computes the specified score. *)
Lemma scoreLink_refines (link sourceUrl : string) :
  LinkScorer.scoreLink link sourceUrl = ScoreSpec.score link sourceUrl.
Proof.
  unfold LinkScorer.scoreLink, ScoreSpec.score, LinkScorer.scoreLinkTry.
  destruct (newURL link) as [linkUrl|]; cbn [mbind completion_bind]; [|reflexivity].
  destruct (newURL sourceUrl) as [sourceUrlObj|]; cbn [mbind completion_bind mret completion_ret];
    [|reflexivity].
  unfold ScoreSpec.clamp. f_equal. f_equal.
  rewrite !adjust_add, !adjust_sub.
  unfold ScoreSpec.adjustments. cbn [sumZ].
  unfold searchParamsToString. rewrite serializeUrlencoded_pieces.
  replace (3 <? Z.of_nat (Nat.max 1 (length (searchParams linkUrl))))
    with (3 <? ScoreSpec.parameterCount linkUrl).
  2:{ unfold ScoreSpec.parameterCount.
      destruct (Z.ltb_spec 3 (Z.of_nat (length (searchParams linkUrl))));
        destruct (Z.ltb_spec 3 (Z.of_nat (Nat.max 1 (length (searchParams linkUrl))))); lia. }
  assert (Hdepth :
    Z.of_nat (length (filter (fun seg => LinkScorer.truthy seg = true)
                             (JS.split "/" (URL.pathname (urlOf linkUrl)))))
    = ScoreSpec.pathDepth linkUrl).
  { unfold ScoreSpec.pathDepth, ScoreSpec.pathOf, LinkScorer.truthy. f_equal. f_equal.
    generalize (JS.split "/" (URL.pathname (urlOf linkUrl))) as pieces.
    induction pieces as [|piece pieces IH]; [reflexivity|].
    cbn [List.filter]. rewrite filter_cons.
    destruct (negb (String.eqb piece "")) eqn:E.
    - rewrite decide_True by reflexivity. now rewrite IH.
    - rewrite decide_False by discriminate. exact IH. }
  rewrite Hdepth.
  change (LinkScorer.truthy ?s) with (negb (String.eqb s "")).
  unfold ScoreSpec.sharesOrigin, ScoreSpec.sharesParentDirectory, ScoreSpec.hasSignal,
    ScoreSpec.samePageAnchor, ScoreSpec.hasExtension, ScoreSpec.lowerPathOf, ScoreSpec.pathOf,
    ScoreSpec.parentDirectory, JS.some.
  change ScoreSpec.documentationSignals with LinkScorer.docPatterns.
  change ScoreSpec.lowValueSignals with LinkScorer.skipPatterns.
  change ScoreSpec.binaryExtensions with LinkScorer.skipExtensions.
  change ScoreSpec.textualExtensions with LinkScorer.docExtensions.
  cbn [Z.opp]. rewrite !Z.add_assoc, Z.add_0_r. reflexivity.
Qed.

(** C9. [scoreLink] returns an integer between 0 and 100: the score of the
    specification, a base of 50 with its ten adjustments (+20 same origin,
    +10 shared parent directory, +15 documentation signal, -30 low-value
    signal, -40 same-page anchor, -10 more than 200 characters, -15 more than
    three query parameters, +5 at most three path segments, -50 binary
    extension, +5 textual extension), clamped.  A documentation path scores
    above a plain one, a login path below it; a candidate that does not parse
    scores exactly 10. *)
Theorem scoreLink_range_examples :
  (forall link sourceUrl, 0 <= LinkScorer.scoreLink link sourceUrl <= 100)
  /\ LinkScorer.scoreLink "https://a.com/docs/x" "https://a.com/"
     > LinkScorer.scoreLink "https://a.com/about" "https://a.com/"
  /\ LinkScorer.scoreLink "https://a.com/login" "https://a.com/"
     < LinkScorer.scoreLink "https://a.com/about" "https://a.com/"
  /\ (forall link sourceUrl,
         URL.parse link = None -> LinkScorer.scoreLink link sourceUrl = 10)
  /\ (forall link sourceUrl,
         LinkScorer.scoreLink link sourceUrl = ScoreSpec.score link sourceUrl)
  /\ (forall link sourceUrl candidate source,
         newURL link = Returns candidate ->
         newURL sourceUrl = Returns source ->
         LinkScorer.scoreLink link sourceUrl
         = Z.max 0 (Z.min 100
             (50
              + ScoreSpec.adjust (ScoreSpec.sharesOrigin candidate source) 20
              + ScoreSpec.adjust (ScoreSpec.sharesParentDirectory candidate source) 10
              + ScoreSpec.adjust
                  (ScoreSpec.hasSignal ScoreSpec.documentationSignals candidate) 15
              + ScoreSpec.adjust (ScoreSpec.hasSignal ScoreSpec.lowValueSignals candidate) (-30)
              + ScoreSpec.adjust (ScoreSpec.samePageAnchor candidate source) (-40)
              + ScoreSpec.adjust (200 <? JS.len link) (-10)
              + ScoreSpec.adjust (3 <? ScoreSpec.parameterCount candidate) (-15)
              + ScoreSpec.adjust (ScoreSpec.pathDepth candidate <=? 3) 5
              + ScoreSpec.adjust
                  (ScoreSpec.hasExtension ScoreSpec.binaryExtensions candidate) (-50)
              + ScoreSpec.adjust
                  (ScoreSpec.hasExtension ScoreSpec.textualExtensions candidate) 5))).
Proof.
  split; [|split; [|split; [|split; [|split]]]].
  - intros link sourceUrl. unfold LinkScorer.scoreLink. lia.
  - vm_compute. reflexivity.
  - vm_compute. reflexivity.
  - intros link sourceUrl Hfail. unfold LinkScorer.scoreLink, LinkScorer.scoreLinkTry.
    rewrite (newURL_fails _ Hfail). reflexivity.
  - exact scoreLink_refines.
  - intros link sourceUrl candidate source Hl Hs.
    rewrite scoreLink_refines. unfold ScoreSpec.score. rewrite Hl, Hs.
    unfold ScoreSpec.clamp, ScoreSpec.adjustments. cbn [sumZ].
    rewrite !Z.add_assoc, Z.add_0_r. reflexivity.
Qed.

Lemma scoreLink_range_examples_witness :
  URL.parse "not-a-url" = None
  /\ LinkScorer.scoreLink "not-a-url" "https://example.com/" = 10.
Proof.
  split.
  - reflexivity.
  - apply (proj1 (proj2 (proj2 (proj2 scoreLink_range_examples)))). reflexivity.
Defined.

(** The examples of the repository's tests. *)
Example scoreLink_documented_values :
  map (fun link => LinkScorer.scoreLink link "https://a.com/")
      ["https://a.com/docs/x"; "https://a.com/about"; "https://a.com/login"]
  = [90; 75; 45].
Proof. vm_compute. reflexivity. Qed.

(** *** Paths as the parser leaves them *)

Lemma percentByte_segmentChars (special : bool) (c : ascii) :
  URL.allS (segmentChar special) (URL.percentByte c) = true.
Proof.
  destruct special; destruct c as [[] [] [] [] [] [] [] []]; vm_compute; reflexivity.
Qed.

Lemma percentEncode_segmentChars (special : bool) (piece : string) :
  URL.allS (fun c => negb (URL.isSlash special c)) piece = true ->
  URL.allS (segmentChar special) (URL.percentEncode URL.pathSet piece) = true.
Proof.
  induction piece as [|c piece IH]; [reflexivity|].
  cbn [URL.allS URL.percentEncode]. intros H. apply andb_prop in H as [Hc Hp].
  destruct (URL.pathSet c) eqn:Hset.
  - now rewrite allS_append, percentByte_segmentChars, IH.
  - cbn [URL.allS]. unfold segmentChar at 1. now rewrite Hset, Hc, IH.
Qed.

Lemma splitWhen_pieces_free (isSep : ascii -> bool) (s : string) :
  Forall (fun piece => URL.allS (fun c => negb (isSep c)) piece = true) (JS.splitWhen isSep s).
Proof.
  induction s as [|c s IH]; cbn [JS.splitWhen].
  - repeat constructor.
  - destruct (isSep c) eqn:Hc.
    + constructor; [reflexivity|exact IH].
    + destruct (JS.splitWhen isSep s) as [|p ps].
      * repeat constructor. cbn [URL.allS]. now rewrite Hc.
      * apply Forall_cons in IH as [Hp Hps]. constructor; [|exact Hps].
        cbn [URL.allS]. now rewrite Hc, Hp.
Qed.

Lemma splitWhen_nonempty (isSep : ascii -> bool) (s : string) : JS.splitWhen isSep s <> [].
Proof.
  destruct s as [|c s]; cbn [JS.splitWhen]; [discriminate|].
  destruct (isSep c); [discriminate|]. destruct (JS.splitWhen isSep s); discriminate.
Qed.

Lemma buffersOf_segmentChars (special : bool) (s : string) :
  Forall (fun b => URL.allS (segmentChar special) b = true) (URL.buffersOf special s)
  /\ URL.buffersOf special s <> [].
Proof.
  unfold URL.buffersOf. split.
  - apply Forall_map. eapply List.Forall_impl; [|apply splitWhen_pieces_free].
    intros piece. apply percentEncode_segmentChars.
  - intros E. apply map_eq_nil in E. now apply splitWhen_nonempty in E.
Qed.

Lemma parsedSegment_empty (special : bool) : parsedSegment special "" = true.
Proof. reflexivity. Qed.

Lemma Forall_removelast {A} (P : A -> Prop) (l : list A) :
  Forall P l -> Forall P (removelast l).
Proof.
  induction 1 as [|x l Hx Hl IH]; [constructor|].
  cbn [removelast]. destruct l; [constructor|]. now constructor.
Qed.

Lemma pathState_parsed (special : bool) (bs init : list string) :
  Forall (fun b => URL.allS (segmentChar special) b = true) bs ->
  Forall (fun seg => parsedSegment special seg = true) init ->
  Forall (fun seg => parsedSegment special seg = true) (URL.pathState bs init)
  /\ (bs <> [] -> URL.pathState bs init <> []).
Proof.
  intros Hbs. revert init. induction Hbs as [|b bs Hb Hbs IH]; intros init Hinit.
  - split; [exact Hinit|contradiction].
  - cbn [URL.pathState].
    set (path' := if URL.isDoubleDot b then _ else _).
    assert (Hpath' : Forall (fun seg => parsedSegment special seg = true) path'
                     /\ (bs = [] -> path' <> [])).
    { subst path'. destruct (URL.isDoubleDot b) eqn:Hdd; [|destruct (URL.isSingleDot b) eqn:Hsd].
      - destruct bs; cbn [URL.isLast].
        + split; [|intros _ E; now apply app_eq_nil in E as [_ E]].
          apply Forall_app. split; [now apply Forall_removelast|repeat constructor].
        + split; [now apply Forall_removelast|discriminate].
      - destruct bs; cbn [URL.isLast].
        + split; [|intros _ E; now apply app_eq_nil in E as [_ E]].
          apply Forall_app. split; [exact Hinit|repeat constructor].
        + split; [exact Hinit|discriminate].
      - split; [|intros _ E; now apply app_eq_nil in E as [_ E]].
        apply Forall_app. split; [exact Hinit|]. repeat constructor.
        unfold parsedSegment. now rewrite Hb, Hdd, Hsd. }
    destruct Hpath' as [Hp Hne]. destruct (IH path' Hp) as [IH1 IH2].
    split; [exact IH1|]. intros _.
    destruct bs as [|b' bs']; [cbn [URL.pathState]; now apply Hne|].
    apply IH2. discriminate.
Qed.

Lemma afterPath_frame (special : bool) (tail : string) (u : URL.t) :
  URL.path (URL.afterPath special tail u) = URL.path u
  /\ URL.scheme (URL.afterPath special tail u) = URL.scheme u
  /\ URL.host (URL.afterPath special tail u) = URL.host u.
Proof.
  unfold URL.afterPath, URL.queryState, URL.fragmentState.
  destruct tail as [|c r]; [auto|].
  destruct (Ascii.eqb c "?"); [|auto].
  destruct (URL.span _ r) as [q [|c' f]]; auto.
Qed.

Lemma parsedPath_frame (u v : URL.t) :
  URL.path v = URL.path u -> URL.scheme v = URL.scheme u -> URL.host v = URL.host u ->
  parsedPath u -> parsedPath v.
Proof. unfold parsedPath. now intros -> -> ->. Qed.

Lemma pathAndAfter_parsed (s : string) (u : URL.t) :
  parsedPath (URL.pathAndAfter (URL.isSpecial (URL.scheme u)) [] s u).
Proof.
  unfold URL.pathAndAfter. destruct (URL.span _ s) as [p tail].
  destruct (afterPath_frame (URL.isSpecial (URL.scheme u)) tail
              (URL.withPath (URL.Segments
                 (URL.pathState (URL.buffersOf (URL.isSpecial (URL.scheme u)) p) [])) u))
    as (Hp & Hs & Hh).
  eapply parsedPath_frame; [exact Hp|exact Hs|exact Hh|].
  unfold parsedPath. cbn [URL.withPath URL.path URL.scheme].
  destruct (buffersOf_segmentChars (URL.isSpecial (URL.scheme u)) p) as [Hb Hne].
  destruct (pathState_parsed _ _ [] Hb (List.Forall_nil _)) as [H1 H2].
  split; [exact H1|]. intros E. now apply H2 in E.
Qed.

Lemma pathStart_parsed (s : string) (u : URL.t) :
  URL.path u = URL.Segments [] ->
  URL.host u <> None ->
  parsedPath (URL.pathStart (URL.isSpecial (URL.scheme u)) s u).
Proof.
  intros Hpath Hhost.
  assert (Hu : URL.isSpecial (URL.scheme u) = false -> parsedPath u).
  { intros Hs. unfold parsedPath. rewrite Hpath. split; [constructor|auto]. }
  unfold URL.pathStart. destruct s as [|c r].
  - destruct (URL.isSpecial (URL.scheme u)) eqn:Hs; [|now apply Hu].
    rewrite <- Hs. apply pathAndAfter_parsed.
  - destruct (URL.isSlash _ c); [apply pathAndAfter_parsed|].
    destruct (URL.isSpecial (URL.scheme u)) eqn:Hs;
      [rewrite <- Hs; apply pathAndAfter_parsed|].
    destruct (URL.oneOf "?#" c).
    + destruct (afterPath_frame false (String c r) u) as (Hp & Hsc & Hh).
      eapply parsedPath_frame; [exact Hp|exact Hsc|exact Hh|now apply Hu].
    + rewrite <- Hs. apply pathAndAfter_parsed.
Qed.

Lemma authority_parsed (sch s : string) (p : URL.t) :
  URL.authority (URL.isSpecial sch) sch s = Some p -> parsedPath p.
Proof.
  unfold URL.authority.
  repeat match goal with
         | |- context [match ?x with _ => _ end] => destruct x eqn:?
         | |- context [if ?x then _ else _] => destruct x eqn:?
         end; try discriminate;
    intros [= <-];
    match goal with
    | |- parsedPath (URL.pathStart _ ?r ?u) =>
        apply (pathStart_parsed r u); [reflexivity|discriminate]
    end.
Qed.

Lemma opaquePath_parsed (sch s : string) : parsedPath (URL.opaquePath sch s).
Proof.
  unfold URL.opaquePath. destruct (URL.span _ s) as [p tail].
  unfold parsedPath.
  now destruct (afterPath_frame false tail
                  (URL.mk sch "" "" None None
                     (URL.Opaque (URL.percentEncode URL.c0ControlSet p)) None None))
    as (-> & _).
Qed.

Lemma pathOnly_parsed (sch r : string) :
  URL.isSpecial sch = false ->
  parsedPath (URL.pathAndAfter false [] r
                (URL.mk sch "" "" None None (URL.Segments []) None None)).
Proof.
  intros Hs. rewrite <- Hs.
  exact (pathAndAfter_parsed r (URL.mk sch "" "" None None (URL.Segments []) None None)).
Qed.

(** Every URL that [new URL] returns has such a path. *)
Lemma parse_parsedPath (input : string) (p : URL.t) :
  URL.parse input = Some p -> parsedPath p.
Proof.
  unfold URL.parse, URL.parseWith.
  destruct (URL.scanScheme _) as [[sch rest]|]; [|discriminate].
  destruct (String.eqb sch "file"); [discriminate|].
  destruct (URL.isSpecial sch) eqn:Hs.
  - unfold URL.specialAuthority. rewrite <- Hs. apply authority_parsed.
  - assert (Ha : forall r q, URL.authority false sch r = Some q -> parsedPath q)
      by (intros r q; rewrite <- Hs; apply authority_parsed).
    pose proof (fun r => pathOnly_parsed sch r Hs) as Hp.
    pose proof (opaquePath_parsed sch) as Ho.
    destruct rest as [|c1 rest1]; [intros [= <-]; apply Ho|].
    destruct c1 as [[] [] [] [] [] [] [] []]; try (intros [= <-]; apply Ho).
    destruct rest1 as [|c2 rest2]; [intros [= <-]; apply Hp|].
    destruct c2 as [[] [] [] [] [] [] [] []]; try (intros [= <-]; apply Hp).
    apply Ha.
Qed.

Lemma newURL_parsedPath (u : string) (o : URLObject) :
  newURL u = Returns o -> parsedPath (urlOf o).
Proof. intros H. apply (parse_parsedPath u). now apply newURL_returns. Qed.

(** *** Setting the path of a parsed URL back *)

Lemma segmentChar_facts (special : bool) (c : ascii) :
  segmentChar special c = true ->
  URL.pathSet c = false /\ URL.isSlash special c = false
  /\ URL.isTabOrNewline c = false /\ Ascii.eqb c "/" = false.
Proof.
  destruct special; destruct c as [[] [] [] [] [] [] [] []]; vm_compute; intros H;
    first [discriminate H | repeat split].
Qed.

Lemma parsedSegment_facts (special : bool) (seg : string) :
  parsedSegment special seg = true ->
  URL.allS (segmentChar special) seg = true
  /\ URL.isSingleDot seg = false /\ URL.isDoubleDot seg = false.
Proof.
  unfold parsedSegment. intros H. apply andb_prop in H as [H Hdd].
  apply andb_prop in H as [H Hsd].
  apply negb_true_iff in Hdd, Hsd. auto.
Qed.

Lemma percentEncode_parsed (special : bool) (seg : string) :
  URL.allS (segmentChar special) seg = true -> URL.percentEncode URL.pathSet seg = seg.
Proof.
  induction seg as [|c seg IH]; [reflexivity|]. cbn [URL.allS]. intros H.
  apply andb_prop in H as [Hc Hseg].
  destruct (segmentChar_facts special c Hc) as (Hset & _).
  cbn [URL.percentEncode]. now rewrite Hset, IH.
Qed.

Lemma splitWhen_parsed (special : bool) (rest : list string) (seg : string) :
  URL.allS (segmentChar special) seg = true ->
  Forall (fun s => URL.allS (segmentChar special) s = true) rest ->
  JS.splitWhen (URL.isSlash special) (seg ++ URL.serializePath (URL.Segments rest))
  = seg :: rest.
Proof.
  intros Hseg Hrest. revert seg Hseg.
  induction Hrest as [|r rest Hr Hrest IH]; intros seg; induction seg as [|c seg IHseg];
    intros Hseg.
  - reflexivity.
  - cbn [URL.allS] in Hseg. apply andb_prop in Hseg as [Hc Hseg].
    destruct (segmentChar_facts special c Hc) as (_ & Hslash & _).
    cbn [URL.serializePath fold_right] in *. rewrite append_cons.
    cbn [JS.splitWhen]. rewrite Hslash, (IHseg Hseg). reflexivity.
  - cbn [URL.serializePath fold_right]. rewrite append_nil_l, append_cons, append_nil_l.
    cbn [JS.splitWhen]. replace (URL.isSlash special "/") with true by now destruct special.
    cbn [URL.serializePath] in IH. now rewrite (IH r Hr).
  - cbn [URL.allS] in Hseg. apply andb_prop in Hseg as [Hc Hseg].
    destruct (segmentChar_facts special c Hc) as (_ & Hslash & _).
    rewrite append_cons. cbn [JS.splitWhen]. rewrite Hslash, (IHseg Hseg). reflexivity.
Qed.

Lemma pathState_parsed_id (special : bool) (bs init : list string) :
  Forall (fun s => parsedSegment special s = true) bs ->
  URL.pathState bs init = (init ++ bs)%list.
Proof.
  intros H. revert init. induction H as [|b bs Hb Hbs IH]; intros init.
  - cbn. now rewrite app_nil_r.
  - destruct (parsedSegment_facts special b Hb) as (_ & Hsd & Hdd).
    cbn [URL.pathState]. rewrite Hdd, Hsd, IH, <- app_assoc. reflexivity.
Qed.

(** The characters of a serialized path of parsed segments. *)
Lemma serializePath_chars (special : bool) (l : list string) :
  Forall (fun s => parsedSegment special s = true) l ->
  URL.allS (fun c => negb (URL.isTabOrNewline c)) (URL.serializePath (URL.Segments l)) = true.
Proof.
  induction 1 as [|seg l Hseg _ IH]; [reflexivity|].
  cbn [URL.serializePath fold_right] in *.
  rewrite append_cons, append_nil_l. cbn [URL.allS].
  rewrite allS_append, IH, andb_true_r.
  replace (URL.isTabOrNewline "/") with false by reflexivity. cbn [negb andb].
  destruct (parsedSegment_facts special seg Hseg) as (Hc & _).
  apply (allS_weaken (segmentChar special)); [|exact Hc].
  intros c H. now destruct (segmentChar_facts special c H) as (_ & _ & -> & _).
Qed.

Lemma filterS_all (p : ascii -> bool) (s : string) :
  URL.allS p s = true -> URL.filterS p s = s.
Proof.
  induction s as [|c s IH]; [reflexivity|]. cbn [URL.allS URL.filterS].
  intros H. apply andb_prop in H as [-> Hs]. now rewrite (IH Hs).
Qed.

(** Setting the pathname of [u] to the serialization of parsed segments
    gives these segments. *)
Lemma setPathname_parsed (u : URL.t) (old segs : list string) :
  URL.path u = URL.Segments old ->
  segs <> [] ->
  Forall (fun s => parsedSegment (URL.isSpecial (URL.scheme u)) s = true) segs ->
  URL.path (URL.setPathname (URL.serializePath (URL.Segments segs)) u) = URL.Segments segs.
Proof.
  intros Hpath Hne Hsegs. unfold URL.setPathname. rewrite Hpath.
  rewrite (filterS_all _ _ (serializePath_chars _ _ Hsegs)).
  destruct segs as [|seg segs]; [contradiction|].
  cbn [URL.serializePath fold_right]. rewrite append_cons, append_nil_l.
  replace (URL.isSlash (URL.isSpecial (URL.scheme u)) "/") with true
    by now destruct (URL.isSpecial _).
  cbn [String.eqb]. rewrite andb_false_r.
  cbn [URL.withPath URL.path]. unfold URL.buffersOf.
  change (fold_right (fun seg out => "/" ++ seg ++ out) "" segs)
    with (URL.serializePath (URL.Segments segs)).
  assert (Hchars : Forall (fun s => URL.allS (segmentChar (URL.isSpecial (URL.scheme u))) s = true)
                          (seg :: segs)).
  { eapply List.Forall_impl; [|exact Hsegs].
    intros s H. now destruct (parsedSegment_facts _ s H). }
  pose proof Hchars as Hc2. apply Forall_cons in Hc2 as [Hcseg Hcrest].
  rewrite (splitWhen_parsed _ segs seg Hcseg Hcrest).
  assert (Hmap : map (URL.percentEncode URL.pathSet) (seg :: segs) = seg :: segs).
  { clear -Hchars. induction Hchars as [|x xs Hx _ IH]; [reflexivity|].
    cbn [map]. now rewrite (percentEncode_parsed _ x Hx), IH. }
  rewrite Hmap, (pathState_parsed_id _ _ [] Hsegs). reflexivity.
Qed.

Lemma endsWith_last (a b : string) (c : ascii) :
  b <> "" -> JS.endsWith (a ++ b) (String c "") = JS.endsWith b (String c "").
Proof.
  intros Hb. unfold JS.endsWith, JS.startsWith. rewrite reverse_append.
  change (JS.reverse (String c "")) with (String c "").
  destruct (JS.reverse b) as [|d r] eqn:E.
  - exfalso. apply Hb. rewrite <- (reverse_involutive b), E. reflexivity.
  - rewrite append_cons. cbn [String.prefix].
    destruct (ascii_dec c d); [|reflexivity].
    destruct (r ++ JS.reverse a); destruct r; reflexivity.
Qed.

Lemma serializePath_last (l : list string) (last : string) :
  URL.serializePath (URL.Segments (l ++ [last]))
  = URL.serializePath (URL.Segments l) ++ "/" ++ last.
Proof.
  induction l as [|seg l IH].
  - cbn [app URL.serializePath fold_right]. now rewrite append_nil_r.
  - cbn [URL.serializePath app fold_right] in *.
    rewrite IH, !append_cons, !append_nil_l, !append_assoc. reflexivity.
Qed.

(** Stripping the slash that ends the serialization of parsed segments
    leaves the serialization of segments of the same kind. *)
Lemma stripTrailingSlash_parsed (special : bool) (segs : list string) :
  Forall (fun s => parsedSegment special s = true) segs ->
  String.eqb (URL.serializePath (URL.Segments segs)) "/" = false ->
  exists segs',
    JS.stripTrailingSlash (URL.serializePath (URL.Segments segs))
    = URL.serializePath (URL.Segments segs')
    /\ Forall (fun s => parsedSegment special s = true) segs'
    /\ (segs = [] <-> segs' = []).
Proof.
  intros Hsegs Hroot.
  destruct segs as [|seg0 segs0].
  { exists []. split; [reflexivity|]. split; [constructor|tauto]. }
  destruct (exists_last (l := seg0 :: segs0)) as (l & last & E); [discriminate|].
  rewrite E in *. clear E seg0 segs0.
  apply Forall_app in Hsegs as [Hl Hlast]. apply Forall_cons in Hlast as [Hlast _].
  destruct last as [|c last].
  - exists l. rewrite serializePath_snoc, stripTrailingSlash_slash.
      split; [reflexivity|]. split; [exact Hl|].
      split; [intros E; now apply app_eq_nil in E as [_ E]|].
      intros ->. cbn in Hroot. discriminate Hroot.
  - exists (l ++ [String c last])%list.
      split; [|split; [apply Forall_app; split; [exact Hl|now repeat constructor]|tauto]].
      unfold JS.stripTrailingSlash.
      rewrite serializePath_last.
      replace (URL.serializePath (URL.Segments l) ++ "/" ++ String c last)
        with ((URL.serializePath (URL.Segments l) ++ "/") ++ String c last)
        by now rewrite append_assoc.
      rewrite endsWith_last by discriminate.
      rewrite endsWith_char_absent; [reflexivity|].
      destruct (parsedSegment_facts special _ Hlast) as (Hc & _).
      apply (allS_weaken (segmentChar special)); [|exact Hc].
      intros x H. now destruct (segmentChar_facts special x H) as (_ & _ & _ & ->).
Qed.

Lemma deletes_authority (names : list string) (o : URLObject) :
  let o' := fold_left (fun o param => searchParamsDelete param o) names o in
  URL.username (urlOf o') = URL.username (urlOf o)
  /\ URL.password (urlOf o') = URL.password (urlOf o)
  /\ URL.port (urlOf o') = URL.port (urlOf o).
Proof.
  revert o. induction names as [|n names IH]; intros o; simpl; [auto|].
  destruct (IH (searchParamsDelete n o)) as (-> & -> & ->). auto.
Qed.

Lemma setPathname_authority (v : string) (u : URL.t) :
  URL.scheme (URL.setPathname v u) = URL.scheme u
  /\ URL.username (URL.setPathname v u) = URL.username u
  /\ URL.password (URL.setPathname v u) = URL.password u
  /\ URL.host (URL.setPathname v u) = URL.host u
  /\ URL.port (URL.setPathname v u) = URL.port u.
Proof.
  unfold URL.setPathname. destruct (URL.path u); [auto|].
  destruct (_ && _); cbn; auto.
Qed.

(** [normalizeUrl] leaves the scheme, the credentials, the host and the port
    alone. *)
Lemma normalizeUrlObject_authority (o : URLObject) :
  let result := urlOf (LinkScorer.normalizeUrlObject o) in
  URL.scheme result = URL.scheme (urlOf o)
  /\ URL.username result = URL.username (urlOf o)
  /\ URL.password result = URL.password (urlOf o)
  /\ URL.host result = URL.host (urlOf o)
  /\ URL.port result = URL.port (urlOf o).
Proof.
  cbv zeta. unfold LinkScorer.normalizeUrlObject.
  destruct (deletes_rest LinkScorer.trackingParams o) as (_ & Hs & Hh).
  destruct (deletes_authority LinkScorer.trackingParams o) as (Hu & Hp & Hport).
  cbv zeta in *.
  generalize dependent (fold_left (fun o param => searchParamsDelete param o)
                                  LinkScorer.trackingParams o).
  intros o1 Hs Hh Hu Hp Hport.
  destruct (_ && _); cbn [onUrl urlOf].
  - destruct (setPathname_authority
                (JS.stripTrailingSlash (URL.pathname (URL.clearHash (urlOf o1))))
                (URL.clearHash (urlOf o1))) as (-> & -> & -> & -> & ->).
    cbn [URL.clearHash URL.scheme URL.username URL.password URL.host URL.port]. auto.
  - cbn [URL.clearHash URL.scheme URL.username URL.password URL.host URL.port]. auto.
Qed.

(** The path after [normalizeUrl], for every URL with a path as the parser
    leaves it: an opaque path, the root path and a path with a [.] stay; any
    other path loses the slash it ends with, if it ends with one. *)
Lemma normalizeUrlObject_pathname (o : URLObject) :
  parsedPath (urlOf o) ->
  URL.pathname (urlOf (LinkScorer.normalizeUrlObject o))
  = if hasOpaquePath (urlOf o)
       || String.eqb (URL.pathname (urlOf o)) "/"
       || JS.includes (URL.pathname (urlOf o)) "."
    then URL.pathname (urlOf o)
    else JS.stripTrailingSlash (URL.pathname (urlOf o)).
Proof.
  intros Hwf. unfold LinkScorer.normalizeUrlObject.
  destruct (deletes_rest LinkScorer.trackingParams o) as (Hp & Hs & Hh). cbv zeta in *.
  generalize dependent (fold_left (fun o param => searchParamsDelete param o)
                                  LinkScorer.trackingParams o).
  intros o1 Hp Hs Hh.
  assert (Hp2 : URL.path (urlOf (onUrl URL.clearHash o1)) = URL.path (urlOf o)) by exact Hp.
  assert (Hs2 : URL.scheme (urlOf (onUrl URL.clearHash o1)) = URL.scheme (urlOf o)) by exact Hs.
  assert (Hh2 : URL.host (urlOf (onUrl URL.clearHash o1)) = URL.host (urlOf o)) by exact Hh.
  generalize dependent (onUrl URL.clearHash o1). intros o2 Hp2 Hs2 Hh2.
  assert (Hpn : URL.pathname (urlOf o2) = URL.pathname (urlOf o))
    by (unfold URL.pathname; now rewrite Hp2).
  rewrite Hpn.
  destruct (String.eqb (URL.pathname (urlOf o)) "/") eqn:Hroot;
    [cbn [negb andb]; rewrite orb_true_r; exact Hpn|].
  destruct (JS.includes (URL.pathname (urlOf o)) ".") eqn:Hdot;
    [cbn [negb andb]; rewrite orb_true_r; exact Hpn|].
  cbn [negb andb onUrl urlOf]. rewrite !orb_false_r.
  generalize dependent (urlOf o2). intros u2 Hp2 Hs2 Hh2 Hpn.
  unfold hasOpaquePath, parsedPath in *.
  destruct (URL.path (urlOf o)) as [op|segs] eqn:Hpath.
  - unfold URL.setPathname. rewrite Hp2. exact Hpn.
  - destruct Hwf as [Hsegs Hempty].
    assert (Hr : String.eqb (URL.serializePath (URL.Segments segs)) "/" = false).
    { unfold URL.pathname in Hroot. now rewrite Hpath in Hroot. }
    destruct (stripTrailingSlash_parsed _ segs Hsegs Hr) as (segs' & Hstrip & Hsegs' & Hiff).
    unfold URL.pathname at 2 3. rewrite Hpath, Hstrip.
    destruct segs' as [|seg' segs''].
    + destruct (Hempty (proj2 Hiff eq_refl)) as [Hns Hhost].
      unfold URL.setPathname. rewrite Hp2, Hs2, Hns. cbn [URL.serializePath fold_right URL.filterS].
      cbn [negb andb String.eqb]. rewrite Hh2.
      unfold URL.pathname. cbn [URL.withPath URL.path].
      destruct (bool_decide (URL.host (urlOf o) = None)) eqn:Hb; [|reflexivity].
      apply bool_decide_eq_true in Hb. contradiction.
    + unfold URL.pathname at 1.
      rewrite (setPathname_parsed u2 segs (seg' :: segs'')); [reflexivity|exact Hp2|discriminate|].
      now rewrite Hs2.
Qed.

(** C8, as the code has it.  [normalizeUrl] removes the parameters named
    utm_source, utm_medium, utm_campaign, utm_term, utm_content, ref, source,
    campaign, fbclid and gclid, keeps the others in order, and drops the
    fragment.  For every URL that parses, the path loses the slash it ends
    with when it contains no [.], is not the root path and is not opaque, and
    is unchanged otherwise; scheme, credentials, host and port stay.
    normalize("https://x.com/p?utm_source=a&id=1") is "https://x.com/p?id=1". *)
Theorem normalizeUrl_strips_listed_parameters :
  (forall urlObj,
      let result := LinkScorer.normalizeUrlObject urlObj in
      let kept := filter (fun p => p.1 ∉ LinkScorer.trackingParams) (searchParams urlObj) in
      searchParams result = kept
      /\ URL.query (urlOf result)
         = (if String.eqb (URL.serializeUrlencoded kept) "" then None
            else Some (URL.serializeUrlencoded kept))
      /\ URL.fragment (urlOf result) = None)
  /\ (forall urlObj l,
         URL.path (urlOf urlObj) = URL.Segments (l ++ [""]) ->
         l <> [] ->
         Forall (fun s => plainSegment s = true) l ->
         URL.path (urlOf (LinkScorer.normalizeUrlObject urlObj)) = URL.Segments l)
  /\ (forall u urlObj,
         newURL u = Returns urlObj ->
         LinkScorer.normalizeUrl u = URL.href (urlOf (LinkScorer.normalizeUrlObject urlObj)))
  /\ LinkScorer.normalizeUrl "https://x.com/p?utm_source=a&id=1" = "https://x.com/p?id=1"
  /\ (forall u urlObj,
         newURL u = Returns urlObj ->
         let result := urlOf (LinkScorer.normalizeUrlObject urlObj) in
         URL.pathname result
         = (if hasOpaquePath (urlOf urlObj)
               || String.eqb (URL.pathname (urlOf urlObj)) "/"
               || JS.includes (URL.pathname (urlOf urlObj)) "."
            then URL.pathname (urlOf urlObj)
            else JS.stripTrailingSlash (URL.pathname (urlOf urlObj)))
         /\ URL.scheme result = URL.scheme (urlOf urlObj)
         /\ URL.username result = URL.username (urlOf urlObj)
         /\ URL.password result = URL.password (urlOf urlObj)
         /\ URL.host result = URL.host (urlOf urlObj)
         /\ URL.port result = URL.port (urlOf urlObj)).
Proof.
  split; [|split; [|split; [|split]]].
  - exact normalizeUrlObject_query.
  - exact normalizeUrlObject_plain_path.
  - intros u urlObj H. unfold LinkScorer.normalizeUrl. now rewrite H.
  - vm_compute. reflexivity.
  - intros u urlObj H. cbv zeta. split.
    + apply normalizeUrlObject_pathname. now apply (newURL_parsedPath u).
    + apply normalizeUrlObject_authority.
Qed.

Lemma normalizeUrl_strips_listed_parameters_witness :
  URL.path (urlOf (LinkScorer.normalizeUrlObject Scenario.docsDirectory))
  = URL.Segments ["docs"]
  /\ LinkScorer.normalizeUrl "https://example.com/docs/?ref=home&page=2#top"
     = URL.href (urlOf (LinkScorer.normalizeUrlObject Scenario.docsDirectory))
  /\ URL.pathname (urlOf (LinkScorer.normalizeUrlObject Examples.tildeDirectory))
     = "/~a/b%20c".
Proof.
  destruct normalizeUrl_strips_listed_parameters as (_ & Hpath & Hhref & _ & Hany).
  split; [|split].
  - apply (Hpath Scenario.docsDirectory ["docs"]).
    + reflexivity.
    + discriminate.
    + repeat constructor.
  - apply (Hhref "https://example.com/docs/?ref=home&page=2#top" Scenario.docsDirectory).
    vm_compute. reflexivity.
  - refine (eq_trans (proj1 (Hany "https://x.com/~a/b c/" Examples.tildeDirectory _)) _).
    + vm_compute. reflexivity.
    + vm_compute. reflexivity.
Defined.

(** C8, as the specification states it, fails: a [utm_id] parameter stays,
    and the slash that ends the root path, an opaque path or a path with a
    [.] in a directory name stays too. *)
Lemma normalizeUrl_keeps_utm_id :
  ~ removesEveryUtmParameter
  /\ ~ removesTrailingSlash
  /\ LinkScorer.normalizeUrl "https://x.com/p?utm_id=7" = "https://x.com/p?utm_id=7"
  /\ LinkScorer.normalizeUrl "https://x.com/" = "https://x.com/"
  /\ LinkScorer.normalizeUrl "custom:a/b/" = "custom:a/b/"
  /\ LinkScorer.normalizeUrl "https://x.com/v1.2/docs/" = "https://x.com/v1.2/docs/".
Proof.
  split; [|split; [|repeat split; vm_compute; reflexivity]].
  - intros H.
    destruct (newURL (LinkScorer.normalizeUrl "https://x.com/p?utm_id=7")) as [o|m] eqn:E;
      [|vm_compute in E; discriminate E].
    specialize (H _ o E ("utm_id", "7")).
    vm_compute in E. injection E as <-.
    specialize (H ltac:(cbn; apply list_elem_of_here)).
    vm_compute in H. discriminate H.
  - intros H.
    specialize (H "https://x.com/"
                  {| urlOf := URL.mk "https" "" "" (Some "x.com") None (URL.Segments [""])
                                     None None;
                     searchParams := [] |}
                  ltac:(vm_compute; reflexivity) ltac:(vm_compute; reflexivity)
                  ltac:(vm_compute; reflexivity)).
    vm_compute in H. discriminate H.
Qed.

Example normalizeUrl_repository_tests :
  map LinkScorer.normalizeUrl
      ["https://example.com/page?utm_source=twitter&utm_campaign=launch&id=123";
       "https://example.com/page#section";
       "https://example.com/docs/";
       "https://example.com/docs/guide.html";
       "not-a-url";
       "https://x.com/p?utm_id=7"]
  = ["https://example.com/page?id=123";
     "https://example.com/page";
     "https://example.com/docs";
     "https://example.com/docs/guide.html";
     "not-a-url";
     "https://x.com/p?utm_id=7"].
Proof. vm_compute. reflexivity. Qed.

(** ** The robots checker *)

Lemma forallb_false_iff {A} (f : A -> bool) (l : list A) :
  forallb f l = false <-> exists x, In x l /\ f x = false.
Proof.
  induction l as [|x l IH]; cbn [forallb].
  - split; [discriminate | intros (x & [] & _)].
  - rewrite andb_false_iff, IH. split.
    + intros [H|(y & Hy & Hf)]; [exists x | exists y]; cbn; auto.
    + intros (y & [<-|Hy] & Hf); [left | right; exists y]; auto.
Qed.

Lemma existsb_false_iff {A} (f : A -> bool) (l : list A) :
  existsb f l = false <-> forall x, In x l -> f x = false.
Proof.
  induction l as [|x l IH]; cbn [existsb].
  - split; [intros _ x [] | reflexivity].
  - rewrite orb_false_iff, IH. split.
    + intros [H Hl] y [<-|Hy]; auto.
    + intros H. split; [|intros y Hy]; apply H; cbn; auto.
Qed.

(** Before [load] every URL is allowed. *)
Lemma isAllowed_before_load (c : Robots.RobotsChecker) (u : string) :
  Robots.loaded c = false -> Robots.isAllowed c u = Returns true.
Proof. intros H. unfold Robots.isAllowed. now rewrite H. Qed.

(** A load that fails leaves a loaded checker without rules. *)
Lemma load_fails_open (fetch : Fetch) (o ua : string) :
  (forall response, fetch (o ++ "/robots.txt") = Returns response -> ok response = false) ->
  Robots.load fetch (Robots.new o ua)
  = {| Robots.origin := o; Robots.crawlerUserAgent := ua;
       Robots.rules := []; Robots.loaded := true |}.
Proof.
  intros H. unfold Robots.load, Robots.new. cbn.
  destruct (fetch (o ++ "/robots.txt")) as [response|m] eqn:E; [|reflexivity].
  now rewrite (H response eq_refl).
Qed.

(** After [load], a URL is refused exactly when an applicable group holds a
    disallow pattern that [pathMatches] accepts while no longer allow pattern
    of the group does. *)
Lemma isAllowed_refuses_iff (c : Robots.RobotsChecker) (u : string) (o : URLObject) :
  Robots.loaded c = true ->
  newURL u = Returns o ->
  Robots.isAllowed c u = Returns false
  <-> exists rule d,
        In rule (Robots.rules c)
        /\ Robots.applicable (Robots.crawlerUserAgent c) rule = true
        /\ In d (Robots.disallow rule)
        /\ Robots.pathMatches (URL.pathname (urlOf o)) d = true
        /\ forall a, In a (Robots.allow rule) ->
                     Robots.pathMatches (URL.pathname (urlOf o)) a = true ->
                     JS.len a <= JS.len d.
Proof.
  intros Hl Hu. unfold Robots.isAllowed. rewrite Hl, Hu. cbn -[forallb].
  split.
  - intros [= H]. apply forallb_false_iff in H as (rule & Hrule & H).
    apply List.filter_In in Hrule as [Hrule Happ].
    apply forallb_false_iff in H as (d & Hd & H).
    apply negb_false_iff, andb_prop in H as [Hm Hno].
    exists rule, d. repeat split; auto.
    intros a Ha Hma. apply negb_true_iff in Hno.
    pose proof (proj1 (existsb_false_iff _ _) Hno a Ha) as Hf. cbv beta in Hf.
    rewrite Hma in Hf. cbn in Hf. lia.
  - intros (rule & d & Hrule & Happ & Hd & Hm & Hno). f_equal.
    apply forallb_false_iff. exists rule. split; [apply List.filter_In; auto|].
    apply forallb_false_iff. exists d. split; [exact Hd|].
    apply negb_false_iff. unfold Robots.blockedBy. rewrite Hm. cbn.
    apply negb_true_iff, existsb_false_iff. intros a Ha.
    destruct (Robots.pathMatches _ a) eqn:Hma; [|reflexivity]. cbn.
    specialize (Hno a Ha Hma). lia.
Qed.

(** Without a refusing pattern the answer is true. *)
Lemma isAllowed_otherwise (c : Robots.RobotsChecker) (u : string) (o : URLObject) :
  newURL u = Returns o ->
  Robots.isAllowed c u <> Returns false -> Robots.isAllowed c u = Returns true.
Proof.
  intros Hu. unfold Robots.isAllowed. destruct (Robots.loaded c); [|reflexivity].
  rewrite Hu. cbn [mbind completion_bind mret completion_ret].
  destruct (forallb _ _); [reflexivity|]. intros H. now contradiction H.
Qed.

(** *** The pattern translation *)

Lemma escape_facts (c : ascii) :
  (URL.oneOf ".+?^${}()|[]\" c = true ->
   RegExp.isSyntaxChar c = true /\ c <> "*"%char)
  /\ (URL.oneOf ".+?^${}()|[]\" c = false -> c <> "*"%char ->
      RegExp.isSyntaxChar c = false /\ c <> "\"%char /\ c <> "."%char /\ c <> "^"%char).
Proof.
  destruct c as [[] [] [] [] [] [] [] []]; vm_compute;
    (split;
     [ intros H; try discriminate H; (split; [reflexivity | discriminate])
     | intros H Hs; try discriminate H; try (exfalso; apply Hs; reflexivity);
       repeat split; try reflexivity; discriminate ]).
Qed.

Lemma translate_cons (c : ascii) (p : string) :
  translate (String c p)
  = if URL.oneOf ".+?^${}()|[]\" c then String "\" (String c (translate p))
    else if Ascii.eqb c "*" then String "." (String "*" (translate p))
    else String c (translate p).
Proof.
  unfold translate. cbn [Robots.escapeSpecial].
  destruct (URL.oneOf _ c) eqn:E.
  - destruct (proj1 (escape_facts c) E) as [_ Hstar].
    apply Ascii.eqb_neq in Hstar. cbn [Robots.starToDotStar]. rewrite Hstar. reflexivity.
  - cbn [Robots.starToDotStar]. reflexivity.
Qed.

(** The source built for a pattern always compiles, to the pattern's terms:
    the [catch] of [pathMatches] is never taken. *)
Lemma compileTerms_translate (p : string) :
  RegExp.compileTerms (translate p) = Some (termsOf p).
Proof.
  induction p as [|c p IH]; [reflexivity|].
  rewrite translate_cons. cbn [termsOf].
  destruct (URL.oneOf _ c) eqn:E.
  - destruct (proj1 (escape_facts c) E) as [Hsyn Hstar].
    apply Ascii.eqb_neq in Hstar. rewrite Hstar.
    cbn [RegExp.compileTerms]. cbn [Ascii.eqb Bool.eqb]. rewrite Hsyn, IH. reflexivity.
  - destruct (Ascii.eqb c "*") eqn:Es.
    + cbn [RegExp.compileTerms]. cbn [Ascii.eqb Bool.eqb]. rewrite IH. reflexivity.
    + apply Ascii.eqb_neq in Es.
      destruct (proj2 (escape_facts c) E Es) as (Hsyn & Hb & Hd & _).
      apply Ascii.eqb_neq in Hb, Hd.
      cbn [RegExp.compileTerms]. destruct (translate p) eqn:Et.
      * rewrite Hsyn. cbn in IH. now injection IH as <-.
      * rewrite Hb, Hd, Hsyn, IH. reflexivity.
Qed.

Lemma translate_no_caret (p : string) (r : string) : translate p <> String "^" r.
Proof.
  destruct p as [|c p]; [discriminate|]. rewrite translate_cons.
  destruct (URL.oneOf _ c) eqn:E; [discriminate|].
  destruct (Ascii.eqb c "*") eqn:Es; [discriminate|].
  apply Ascii.eqb_neq in Es. destruct (proj2 (escape_facts c) E Es) as (_ & _ & _ & Hc).
  congruence.
Qed.

Lemma compile_not_anchored (src : string) :
  (forall r, src <> String "^" r) ->
  RegExp.compile src = option_map (RegExp.Build_t false) (RegExp.compileTerms src).
Proof.
  intros H. destruct src as [|c r]; [reflexivity|].
  destruct c as [[] [] [] [] [] [] [] []]; try reflexivity.
  now contradiction (H r).
Qed.

Lemma regexSource_compiles (pattern : string) :
  RegExp.compile (Robots.regexSource pattern)
  = Some {| RegExp.anchored := negb (JS.endsWith (translate pattern) "$");
            RegExp.terms := termsOf pattern |}.
Proof.
  change (Robots.regexSource pattern)
    with (if JS.endsWith (translate pattern) "$"
          then JS.sliceInit (translate pattern) ++ "$"
          else "^" ++ translate pattern).
  destruct (JS.endsWith (translate pattern) "$") eqn:E.
  - rewrite (endsWith_sliceInit _ _ E).
    rewrite compile_not_anchored by apply translate_no_caret.
    rewrite compileTerms_translate. reflexivity.
  - change (RegExp.compile ("^" ++ translate pattern))
      with (option_map (RegExp.Build_t true) (RegExp.compileTerms (translate pattern))).
    rewrite compileTerms_translate. reflexivity.
Qed.

Lemma pathMatches_regex (pathname pattern : string) :
  pattern <> "" ->
  Robots.pathMatches pathname pattern
  = RegExp.test {| RegExp.anchored := negb (JS.endsWith (translate pattern) "$");
                   RegExp.terms := termsOf pattern |} pathname.
Proof.
  intros Hne. unfold Robots.pathMatches.
  replace (LinkScorer.truthy pattern) with true
    by (destruct pattern; [contradiction|reflexivity]).
  cbn [negb]. now rewrite regexSource_compiles.
Qed.

Lemma translate_no_dollar (p : string) :
  URL.allS (fun x => negb (Ascii.eqb x "$")) p = true ->
  URL.allS (fun x => negb (Ascii.eqb x "$")) (translate p) = true.
Proof.
  induction p as [|c p IH]; [reflexivity|]. cbn [URL.allS].
  intros H. apply andb_prop in H as [Hc Hp]. rewrite translate_cons.
  destruct (URL.oneOf _ c); [|destruct (Ascii.eqb c "*")];
    cbn [URL.allS]; rewrite ?Hc, (IH Hp); reflexivity.
Qed.

Lemma matchHere_glob (p s : string) :
  URL.allS (fun c => negb (RegExp.isLineTerminator c)) s = true ->
  RegExp.matchHere (termsOf p) s = RobotsSpec.glob false p s.
Proof.
  revert s. induction p as [|c p IH]; intros s Hs; [reflexivity|].
  cbn [termsOf RobotsSpec.glob]. destruct (Ascii.eqb c "*").
  - cbn [RegExp.matchHere]. induction s as [|d s IHs].
    + now rewrite IH.
    + cbn [URL.allS] in Hs. apply andb_prop in Hs as [Hd Hs'].
      rewrite IH by (cbn [URL.allS]; now rewrite Hd, Hs').
      rewrite Hd, (IHs Hs'). reflexivity.
  - cbn [RegExp.matchHere]. destruct s as [|d s]; [reflexivity|].
    cbn [URL.allS] in Hs. apply andb_prop in Hs as [_ Hs']. now rewrite IH.
Qed.

(** On patterns without [$] the code matches as the specification says. *)
Lemma pathMatches_without_dollar (pathname pattern : string) :
  URL.allS (fun x => negb (Ascii.eqb x "$")) pattern = true ->
  URL.allS (fun c => negb (RegExp.isLineTerminator c)) pathname = true ->
  Robots.pathMatches pathname pattern = RobotsSpec.pathMatches pathname pattern.
Proof.
  intros Hp Hs. destruct pattern as [|c pattern]; [reflexivity|].
  rewrite pathMatches_regex by discriminate.
  unfold RobotsSpec.pathMatches. cbn [LinkScorer.truthy String.eqb negb].
  rewrite (endsWith_char_absent _ _ Hp), (endsWith_char_absent _ _ (translate_no_dollar _ Hp)).
  cbn [negb RegExp.test RegExp.anchored RegExp.terms]. now apply matchHere_glob.
Qed.

(** C6. A [$] that ends a disallow pattern is not an end anchor: the code
    escapes it, so [/private$] does not refuse the path [/private] (the
    specification's matching does), and refuses the paths that hold the text
    [/private$] itself, wherever it stands. *)
Theorem isAllowed_dollar_is_literal :
  Robots.rules Scenario.privateRules
  = [{| Robots.userAgent := "*"; Robots.allow := []; Robots.disallow := ["/private$"] |}]
  /\ Robots.isAllowed Scenario.privateRules "https://example.com/private" = Returns true
  /\ Robots.pathMatches "/private" "/private$" = false
  /\ RobotsSpec.pathMatches "/private" "/private$" = true
  /\ Robots.isAllowed Scenario.privateRules "https://example.com/files/private$/x"
     = Returns false
  /\ RobotsSpec.pathMatches "/files/private$/x" "/private$" = false.
Proof. vm_compute. repeat split; reflexivity. Qed.

(** ** The crawler *)

Section CrawlerFacts.

Import Crawler Steps.

Variable config : CrawlConfig.
Variable extractorRegistry : ExtractorRegistry.
Variable userAgent : string.
Variable fetch : Fetch.

Local Abbreviation loadPage := (Crawler.loadPage extractorRegistry fetch).
Local Abbreviation queueLink := (Crawler.queueLink config).
Local Abbreviation queueLinks := (Crawler.queueLinks config).
Local Abbreviation checkRobots := (Crawler.checkRobots userAgent fetch).
Local Abbreviation fetchAndAccept := (Crawler.fetchAndAccept config extractorRegistry fetch).
Local Abbreviation iteration := (Crawler.iteration config extractorRegistry userAgent fetch).
Local Abbreviation loopCondition := (Crawler.loopCondition config).
Local Abbreviation crawlLoop := (Crawler.crawlLoop config extractorRegistry userAgent fetch).
Local Abbreviation step := (Steps.step config extractorRegistry fetch).
Local Abbreviation stepEffect := (Steps.stepEffect config extractorRegistry fetch).

(** *** Sorting the queue *)

Lemma insertByScore_perm (x : PrioritizedUrl) (q : list PrioritizedUrl) :
  Permutation (insertByScore x q) (x :: q).
Proof.
  induction q as [|y q IH]; cbn; [reflexivity|].
  destruct (score y <=? score x); [reflexivity|].
  rewrite IH. apply perm_swap.
Qed.

Lemma sortQueue_perm (q : list PrioritizedUrl) : Permutation (sortQueue q) q.
Proof.
  induction q as [|x q IH]; cbn; [reflexivity|].
  rewrite insertByScore_perm. now constructor.
Qed.

Lemma sortQueue_length (q : list PrioritizedUrl) : length (sortQueue q) = length q.
Proof. apply Permutation_length, sortQueue_perm. Qed.

(** *** Queueing links *)

Lemma some_false_not_in (resolved : string) (q : list PrioritizedUrl) :
  JS.some (fun e => String.eqb (url e) resolved) q = false ->
  ~ In resolved (map url q).
Proof.
  unfold JS.some. intros H Hin. apply in_map_iff in Hin as (e & <- & He).
  pose proof (proj1 (existsb_false_iff _ _) H e He) as Hf. cbv beta in Hf.
  now rewrite String.eqb_refl in Hf.
Qed.

Lemma queueLink_adds (sourceUrl sourceOrigin : string) (d : Z) (st : State) (link : string) :
  queueLink sourceUrl sourceOrigin d st link = st
  \/ exists e,
      queueLink sourceUrl sourceOrigin d st link = setQueue (queue st ++ [e])%list st
      /\ (url e ∉ visited st)
      /\ ~ In (url e) (map url (queue st)).
Proof.
  unfold Crawler.queueLink. destruct (LinkScorer.shouldSkipUrl link); [now left|].
  unfold Crawler.queueLinkTry.
  destruct (newURLBase link sourceUrl) as [resolvedObj|]; cbn [mbind completion_bind]; [|now left].
  set (resolved := LinkScorer.normalizeUrl _).
  destruct (bool_decide (resolved ∈ visited st)) eqn:Hv; [now left|].
  apply bool_decide_eq_false in Hv.
  destruct (JS.some _ (queue st)) eqn:Hq; [now left|].
  apply some_false_not_in in Hq.
  destruct (newURL resolved) as [linkObj|]; cbn [mbind completion_bind]; [|now left].
  destruct (_ && _); [now left|].
  destruct (_ <? 20); [now left|].
  right. eexists. split; [reflexivity|]. cbn. auto.
Qed.

Lemma setQueue_setQueue (q q' : list PrioritizedUrl) (st : State) :
  setQueue q (setQueue q' st) = setQueue q st.
Proof. reflexivity. Qed.

Lemma queueLinks_fold (sourceUrl sourceOrigin : string) (d : Z) (ls : list string) (st : State) :
  List.NoDup (map url (queue st)) \/ True ->
  exists new,
    fold_left (queueLink sourceUrl sourceOrigin d) ls st = setQueue (queue st ++ new)%list st
    /\ List.NoDup (map url new)
    /\ forall e, In e new -> (url e ∉ visited st) /\ ~ In (url e) (map url (queue st)).
Proof.
  intros _. revert st. induction ls as [|link ls IH]; intros st.
  - exists []. cbn [fold_left]. rewrite app_nil_r. split; [now destruct st|].
    split; [constructor | intros e []].
  - cbn [fold_left].
    destruct (queueLink_adds sourceUrl sourceOrigin d st link) as [->|(e & -> & Hv & Hq)];
      [apply IH|].
    destruct (IH (setQueue (queue st ++ [e])%list st)) as (new & -> & Hnd & Hnew).
    exists (e :: new). cbn [queue setQueue visited] in *.
    rewrite <- app_assoc. split; [reflexivity|]. split.
    + cbn [map]. constructor; [|exact Hnd].
      intros Hin. apply in_map_iff in Hin as (e' & He' & Hin).
      destruct (Hnew e' Hin) as [_ Hnot]. apply Hnot.
      rewrite map_app, in_app_iff. right. cbn. auto.
    + intros e' [<-|Hin]; [auto|].
      destruct (Hnew e' Hin) as [Hv' Hnot]. split; [exact Hv'|].
      intros Hq'. apply Hnot. rewrite map_app, in_app_iff. now left.
Qed.

Lemma queueLinks_links (next : PrioritizedUrl) (ls : list string) (st : State) :
  linksQueued next st
    match queueLinks ls (url next) (depth next) st with
    | Returns st' => st'
    | Throws message => pushError (url next) message st
    end.
Proof.
  unfold Crawler.queueLinks.
  destruct (newURL (url next)) as [sourceUrlObj|message]; cbn [mbind completion_bind mret completion_ret].
  - destruct (queueLinks_fold (url next) (URL.origin (urlOf sourceUrlObj)) (depth next) ls st)
      as (new & -> & Hnd & Hnew); [now right|].
    now constructor.
  - constructor.
Qed.

(** *** The loop body follows the step relation *)

Lemma fetchAndAccept_step (st : State) (next : PrioritizedUrl) (rest : list PrioritizedUrl)
    (st1 : State) :
  sortQueue (queue st) = next :: rest ->
  url next ∉ visited st ->
  robotsChecked (popped next rest st) st1 ->
  step st (fetchAndAccept next st1).
Proof.
  intros Hsort Hv Hr. unfold Crawler.fetchAndAccept.
  destruct (loadPage (url next)) as [page|message] eqn:Hload.
  - destruct (minTokensPerPage config <=? FileInfo.tokenEstimate (file page)) eqn:Hmin.
    + apply Z.leb_le in Hmin.
      eapply step_accepted; eauto.
      destruct (pageLinks page) as [ls|].
      * apply queueLinks_links.
      * set (st2 := acceptPage _ _).
        pose proof (links_queued next st2 [] (List.NoDup_nil _)
                      (fun e (F : In e []) => match F with end)) as H.
        rewrite app_nil_r in H. exact H.
    + apply Z.leb_gt in Hmin. eapply step_discarded; eauto.
  - eapply step_failed; eauto.
Qed.

Lemma checkRobots_checked (u : string) (st : State) (allowed : bool) (st1 : State) :
  checkRobots u st = Returns (allowed, st1) -> robotsChecked st st1.
Proof.
  unfold Crawler.checkRobots.
  destruct (newURL u) as [urlObj|]; cbn [mbind completion_bind]; [|discriminate].
  set (origin := URL.origin (urlOf urlObj)).
  destruct (robotsCache st !! origin) as [checker|] eqn:Hc.
  - rewrite Hc. destruct (Robots.isAllowed checker u); cbn; [|discriminate].
    intros [= _ <-]. constructor.
  - match goal with |- context [robotsCache ?s !! origin] =>
      destruct (robotsCache s !! origin) as [checker|]; [|discriminate] end.
    destruct (Robots.isAllowed checker u); cbn; [|discriminate].
    intros [= _ <-]. constructor.
Qed.

Lemma iteration_step (st st' : State) :
  iteration st = Returns st' -> step st st'.
Proof.
  unfold Crawler.iteration.
  destruct (sortQueue (queue st)) as [|next rest] eqn:Hsort; [discriminate|].
  cbn [visited setQueue].
  destruct (bool_decide (url next ∈ visited st)) eqn:Hv.
  - apply bool_decide_eq_true in Hv. intros [= <-]. now apply (step_skip _ _ _ _ next rest).
  - apply bool_decide_eq_false in Hv.
    change (setVisited _ (setQueue rest st)) with (popped next rest st).
    destruct (respectRobotsTxt config) eqn:Hrobots.
    + destruct (checkRobots (url next) (popped next rest st)) as [[allowed st1]|] eqn:Hc;
        cbn [mbind completion_bind]; [|discriminate].
      apply checkRobots_checked in Hc.
      destruct allowed; cbn [negb]; intros [= <-].
      * now apply (fetchAndAccept_step st next rest).
      * now apply (step_blocked _ _ _ _ next rest).
    + intros [= <-]. apply (fetchAndAccept_step st next rest); auto. constructor.
Qed.

(** *** What one step changes *)

Lemma pageRequests_app (a b : list Request) :
  pageRequests (a ++ b) = (pageRequests a ++ pageRequests b)%list.
Proof. apply flat_map_app. Qed.

Lemma loadPage_path (u : string) (page : LoadedPage) :
  loadPage u = Returns page -> pagePath page = u.
Proof.
  unfold Crawler.loadPage.
  destruct (fetch u) as [response|]; cbn [mbind completion_bind]; [|discriminate].
  destruct (negb (ok response)); [discriminate|].
  destruct (extractorRegistry _ _ u); cbn [mbind completion_bind mret completion_ret];
    [|discriminate].
  intros [= <-]. reflexivity.
Qed.

(** The fields a robots check leaves alone. *)
Lemma robotsChecked_frame (st0 st1 : State) :
  robotsChecked st0 st1 ->
  visited st1 = visited st0 /\ queue st1 = queue st0
  /\ loadedContent st1 = loadedContent st0 /\ errors st1 = errors st0
  /\ currentTokens st1 = currentTokens st0
  /\ subrequestCount st1 = subrequestCount st0
  /\ pageRequests (requests st1) = pageRequests (requests st0).
Proof.
  intros [|cache r]; fields; repeat split.
  rewrite pageRequests_app. cbn. now rewrite app_nil_r.
Qed.

Lemma no_new_entries (P : PrioritizedUrl -> Prop) (Q : Prop) (q rest : list PrioritizedUrl) :
  q = rest ->
  exists new, q = (rest ++ new)%list
              /\ List.NoDup (map url new)
              /\ (forall e, In e new -> P e)
              /\ (new = [] \/ Q).
Proof.
  intros ->. exists []. rewrite app_nil_r.
  repeat split; [constructor | intros e [] | now left].
Qed.

Lemma step_effect (st st' : State) :
  step st st' ->
  exists next rest,
    sortQueue (queue st) = next :: rest
    /\ ((url next ∈ visited st /\ st' = setQueue rest st)
        \/ ((url next ∉ visited st) /\ stepEffect st st' next rest)).
Proof.
  intros Hstep.
  destruct Hstep as [next rest Hs Hv
                    |next rest st1 Hs Hv Hrobots Hr
                    |next rest st1 message Hs Hv Hr Hload
                    |next rest st1 page Hs Hv Hr Hload Hmin
                    |next rest st1 page st3 Hs Hv Hr Hload Hmin Hlinks];
    exists next, rest; (split; [exact Hs|]); [now left|right..]; (split; [exact Hv|]);
    destruct (robotsChecked_frame _ _ Hr) as (Ev & Eq & El & Ee & Et & Ec & Ep); fields.
  - constructor; fields; rewrite ?Ev, ?Eq, ?El, ?Ee, ?Et, ?Ec, ?Ep; auto.
    + now apply no_new_entries.
    + right. now exists "Blocked by robots.txt".
  - constructor; fields; rewrite ?pageRequests_app, ?Ev, ?Eq, ?El, ?Ee, ?Et, ?Ec, ?Ep; auto.
    + now apply no_new_entries.
    + left. repeat split; auto. right. left. now exists message.
    + right. now exists message.
  - constructor; fields; rewrite ?pageRequests_app, ?Ev, ?Eq, ?El, ?Ee, ?Et, ?Ec, ?Ep; auto.
    + now apply no_new_entries.
    + left. repeat split; auto. right. right. now exists page.
  - pose proof (loadPage_path _ _ Hload) as Hpath.
    destruct Hlinks as [new Hnd Hnew|message]; fields;
      constructor; fields; rewrite ?pageRequests_app, ?Ev, ?Eq, ?El, ?Ee, ?Et, ?Ec, ?Ep in *;
      auto.
    + exists new. repeat split; auto; try (now apply Hnew).
      right. rewrite length_app. cbn. lia.
    + right. exists page. repeat split; auto.
    + now apply no_new_entries.
    + right. exists page. repeat split; auto.
    + right. now exists message.
Qed.

(** *** The loop *)

Lemma loopCondition_iff (st : State) :
  loopCondition st = true
  <-> currentTokens st < targetTokens config
      /\ queue st <> []
      /\ Z.of_nat (length (loadedContent st)) < maxPages config
      /\ (forall maxSubs, maxSubrequests config = Some maxSubs -> subrequestCount st < maxSubs).
Proof.
  unfold Crawler.loopCondition. rewrite !andb_true_iff, !Z.ltb_lt.
  assert (Hq : 0 < Z.of_nat (length (queue st)) <-> queue st <> [])
    by (destruct (queue st); cbn; split; intros; try lia; congruence).
  rewrite Hq. destruct (maxSubrequests config) as [maxSubs|].
  - rewrite Z.ltb_lt. split.
    + intros [[[? ?] ?] ?]. repeat split; auto. now intros ? [= <-].
    + intros (? & ? & ? & H). repeat split; auto.
  - split.
    + intros [[[? ?] ?] _]. repeat split; auto. discriminate.
    + intros (? & ? & ? & _). repeat split; auto.
Qed.

(** A property kept by every step taken under the loop condition holds
    when the loop ends, and the loop ends only once its condition fails. *)
Lemma crawlLoop_invariant (P : State -> Prop) :
  (forall st st', P st -> loopCondition st = true -> step st st' -> P st') ->
  forall fuel st st',
    P st -> crawlLoop fuel st = Some (Returns st') ->
    P st' /\ loopCondition st' = false.
Proof.
  intros Hkeep. induction fuel as [|fuel IH]; intros st st' HP; cbn [Crawler.crawlLoop];
    destruct (loopCondition st) eqn:Hc; try discriminate;
    try (intros [= <-]; now split).
  destruct (iteration st) as [st1|] eqn:Hi; [|discriminate].
  apply IH. apply (Hkeep st st1 HP Hc). now apply iteration_step.
Qed.

(** Each step accepts a page or shortens the queue. *)
Lemma step_progress (st st' : State) :
  step st st' ->
  length (loadedContent st') = S (length (loadedContent st))
  \/ (length (loadedContent st') = length (loadedContent st)
      /\ S (length (queue st')) = length (queue st)).
Proof.
  intros Hstep. destruct (step_effect _ _ Hstep) as (next & rest & Hs & H).
  pose proof (sortQueue_length (queue st)) as Hlen. rewrite Hs in Hlen. cbn in Hlen.
  destruct H as [[_ ->]|[_ [_ (new & Hq & _ & _ & Hnew) Hl _ _ _]]].
  - right. fields. auto.
  - destruct Hnew as [->|Hgrow]; [|now left].
    rewrite app_nil_r in Hq. destruct Hl as [(-> & _)|(page & -> & _)].
    + right. rewrite Hq. auto.
    + left. rewrite length_app. cbn. lia.
Qed.

(** The loop ends: pages are accepted below [maxPages] only, and between
    two accepted pages the queue shrinks. *)
Lemma crawlLoop_terminates (st : State) :
  exists fuel outcome, crawlLoop fuel st = Some outcome.
Proof.
  remember (Z.to_nat (maxPages config - Z.of_nat (length (loadedContent st)))) as a eqn:Ea.
  remember (length (queue st)) as b eqn:Eb.
  assert (Ha : (Z.to_nat (maxPages config - Z.of_nat (length (loadedContent st))) <= a)%nat) by lia.
  assert (Hb : (length (queue st) <= b)%nat) by lia.
  clear Ea Eb. revert b st Ha Hb.
  induction a as [|a IHa]; intros b; induction b as [|b IHb]; intros st Ha Hb;
    destruct (loopCondition st) eqn:Hc;
    try (exists O, (Returns st); cbn; now rewrite Hc);
    pose proof (proj1 (loopCondition_iff st) Hc) as (_ & Hq & Hp & _);
    try (destruct (queue st); [contradiction | cbn in Hb; lia]);
    try lia.
  destruct (iteration st) as [st1|message] eqn:Hi.
  - destruct (step_progress _ _ (iteration_step _ _ Hi)) as [Hl|[Hl Hq']].
    + destruct (IHa (length (queue st1)) st1) as (fuel & outcome & H); [lia | lia |].
      exists (S fuel), outcome. cbn. now rewrite Hc, Hi.
    + destruct (IHb st1) as (fuel & outcome & H); [lia | lia |].
      exists (S fuel), outcome. cbn. now rewrite Hc, Hi.
  - exists 1%nat, (Throws message). cbn. now rewrite Hc, Hi.
Qed.

(** More fuel does not change an outcome. *)
Lemma crawlLoop_fuel (fuel fuel' : nat) (st : State) (outcome : completion State) :
  crawlLoop fuel st = Some outcome -> (fuel <= fuel')%nat ->
  crawlLoop fuel' st = Some outcome.
Proof.
  revert fuel' st. induction fuel as [|fuel IH]; intros fuel' st; cbn [Crawler.crawlLoop];
    destruct (loopCondition st) eqn:Hc; try discriminate.
  - intros H _. destruct fuel'; cbn; now rewrite Hc.
  - intros H Hle. destruct fuel' as [|fuel']; [lia|]. cbn. rewrite Hc.
    destruct (iteration st); [apply IH; [exact H | lia] | exact H].
  - intros H _. destruct fuel'; cbn; now rewrite Hc.
Qed.

(** *** Deduplication *)

Lemma NoDup_snoc {A} (l : list A) (x : A) : List.NoDup l -> ~ In x l -> List.NoDup (l ++ [x]).
Proof.
  induction 1 as [|y l Hy Hl IH]; cbn; intros Hx.
  - constructor; [intros []|constructor].
  - constructor.
    + rewrite in_app_iff. cbn. intros [?|[->|[]]]; tauto.
    + apply IH. tauto.
Qed.

Lemma NoDup_append {A} (a b : list A) :
  List.NoDup a -> List.NoDup b -> (forall x, In x b -> ~ In x a) -> List.NoDup (a ++ b).
Proof.
  induction 1 as [|y a Hy Ha IH]; cbn; intros Hb Hd; [exact Hb|].
  constructor.
  - rewrite in_app_iff. intros [?|Hin]; [tauto|]. apply (Hd y Hin). now left.
  - apply IH; [exact Hb|]. intros x Hx Hin. apply (Hd x Hx). now right.
Qed.

Lemma deduplicated_step (st st' : State) :
  deduplicated st -> step st st' -> deduplicated st'.
Proof.
  intros [Hp He Hr Hpv Hev Hrv] Hstep.
  destruct (step_effect _ _ Hstep) as (next & rest & _ & [[_ ->]|[Hv [Ev _ El Ee _ Er]]]).
  - constructor; fields; auto.
  - assert (Hin : forall u, u ∈ visited st -> u ∈ visited st')
      by (intros u Hu; rewrite Ev; apply elem_of_union; now right).
    assert (Hnext : url next ∈ visited st')
      by (rewrite Ev; apply elem_of_union; left; now apply elem_of_singleton).
    constructor.
    + destruct El as [(-> & _)|(page & -> & Hpath & _)]; [exact Hp|].
      rewrite map_app. cbn. rewrite Hpath. apply NoDup_snoc; [exact Hp|].
      intros H. now apply Hv, Hpv.
    + destruct Ee as [->|(message & ->)]; [exact He|].
      rewrite map_app. cbn. apply NoDup_snoc; [exact He|].
      intros H. now apply Hv, Hev.
    + destruct Er as [->| ->]; [exact Hr|].
      apply NoDup_snoc; [exact Hr|]. intros H. now apply Hv, Hrv.
    + destruct El as [(-> & _)|(page & -> & Hpath & _)]; [auto|].
      intros u. rewrite map_app, in_app_iff. cbn. rewrite Hpath.
      intros [H|[<-|[]]]; auto.
    + destruct Ee as [->|(message & ->)]; [auto|].
      intros u. rewrite map_app, in_app_iff. cbn. intros [H|[<-|[]]]; auto.
    + destruct Er as [->| ->]; [auto|].
      intros u. rewrite in_app_iff. cbn. intros [H|[<-|[]]]; auto.
Qed.

Lemma queueFresh_step (st st' : State) :
  queueFresh st -> step st st' -> queueFresh st'.
Proof.
  intros [Hnd Hfresh] Hstep.
  destruct (step_effect _ _ Hstep) as (next & rest & Hs & H).
  pose proof (sortQueue_perm (queue st)) as Hperm. rewrite Hs in Hperm.
  assert (Hnd' : List.NoDup (url next :: map url rest)).
  { change (List.NoDup (map url (next :: rest))).
    eapply Permutation_NoDup; [|exact Hnd]. symmetry. now apply Permutation_map. }
  assert (Hrest : forall e, In e rest -> In e (queue st)).
  { intros e He. eapply Permutation_in; [exact Hperm|]. now right. }
  apply List.NoDup_cons_iff in Hnd' as [Hhead Hnd'].
  destruct H as [[Hv ->]|[Hv [Ev (new & Eq & Hnew & Hnot & _) _ _ _ _]]].
  - exfalso. apply (Hfresh next); [|exact Hv].
    eapply Permutation_in; [exact Hperm|]. now left.
  - split.
    + rewrite Eq, map_app. apply NoDup_append; auto.
      intros u Hu. apply in_map_iff in Hu as (e & <- & He). now apply Hnot.
    + intros e. rewrite Eq, in_app_iff. intros [He|He]; [|now apply Hnot].
      rewrite Ev. intros Hin. apply elem_of_union in Hin as [Hin|Hin].
      * apply elem_of_singleton in Hin. apply Hhead. rewrite <- Hin. now apply in_map.
      * now apply (Hfresh e (Hrest e He)).
Qed.

Lemma seedQueue_from (seeds : list string) (st : State) :
  fold_left (fun st u =>
               setQueue (queue st ++ [{| url := LinkScorer.normalizeUrl u; score := 100;
                                         depth := 0; referrer := "" |}])%list st) seeds st
  = setQueue (queue st ++ map (fun u => {| url := LinkScorer.normalizeUrl u; score := 100;
                                          depth := 0; referrer := "" |}) seeds)%list st.
Proof.
  revert st. induction seeds as [|u seeds IH]; intros st; cbn [fold_left map].
  - rewrite app_nil_r. now destruct st.
  - rewrite IH. fields. now rewrite <- app_assoc.
Qed.

Lemma seedQueue_initial :
  seedQueue config initial
  = setQueue (map (fun u => {| url := LinkScorer.normalizeUrl u; score := 100;
                              depth := 0; referrer := "" |}) (seedUrls config)) initial.
Proof. unfold seedQueue. now rewrite seedQueue_from. Qed.

Lemma seedQueue_urls :
  map url (queue (seedQueue config initial)) = map LinkScorer.normalizeUrl (seedUrls config).
Proof. rewrite seedQueue_initial. fields. rewrite map_map. reflexivity. Qed.

Lemma deduplicated_seeded : deduplicated (seedQueue config initial).
Proof.
  rewrite seedQueue_initial.
  constructor; fields; cbn; try constructor; intros u [].
Qed.

Lemma queueFresh_seeded :
  List.NoDup (map LinkScorer.normalizeUrl (seedUrls config)) -> queueFresh (seedQueue config initial).
Proof.
  intros H. split; [now rewrite seedQueue_urls|].
  rewrite seedQueue_initial. fields. intros e _. apply not_elem_of_empty.
Qed.

(** C2, as the code has it.  After any crawl the accepted pages carry
    pairwise distinct URLs, so do the recorded errors, and no page was
    requested twice; a link is queued only while neither visited nor queued;
    and when the normalized seeds are pairwise distinct the queue ends without
    a repeated and without a visited URL.  Seeds themselves are queued
    unchecked. *)
Theorem crawl_deduplicates (fuel : nat) (st' : State) :
  run config extractorRegistry userAgent fetch fuel = Some (Returns st') ->
  List.NoDup (map FileInfo.path (LoadedSource.files (buildResult config st')))
  /\ List.NoDup (map errorUrl (errors st'))
  /\ List.NoDup (pageRequests (requests st'))
  /\ (forall next ls st st2,
         queueLinks ls (url next) (depth next) st = Returns st2 ->
         exists new,
           queue st2 = (queue st ++ new)%list
           /\ List.NoDup (map url new)
           /\ forall e, In e new -> (url e ∉ visited st) /\ ~ In (url e) (map url (queue st)))
  /\ (List.NoDup (map LinkScorer.normalizeUrl (seedUrls config)) ->
      List.NoDup (map url (queue st'))
      /\ forall e, In e (queue st') -> url e ∉ visited st').
Proof.
  intros Hrun. unfold run in Hrun.
  destruct (crawlLoop_invariant deduplicated
              (fun st st1 H _ Hs => deduplicated_step st st1 H Hs)
              fuel _ _ deduplicated_seeded Hrun) as [[Hp He Hr _ _ _] _].
  split; [|split; [|split; [|split]]]; auto.
  - cbn [buildResult LoadedSource.files]. now rewrite map_map.
  - intros next ls st st2. unfold Crawler.queueLinks.
    destruct (newURL (url next)) as [o|]; cbn [mbind completion_bind mret completion_ret];
      [|discriminate].
    intros [= <-].
    destruct (queueLinks_fold (url next) (URL.origin (urlOf o)) (depth next) ls st)
      as (new & -> & Hnd & Hnew); [now right|].
    exists new. fields. auto.
  - intros Hseeds.
    apply (crawlLoop_invariant queueFresh
             (fun st st1 H _ Hs => queueFresh_step st st1 H Hs)
             fuel _ _ (queueFresh_seeded Hseeds) Hrun).
Qed.

(** *** The subrequest count *)

Lemma counted_step (st st' : State) :
  counted config st -> loopCondition st = true -> step st st' -> counted config st'.
Proof.
  intros [Hl Hcap] Hc Hstep.
  apply loopCondition_iff in Hc as (_ & _ & _ & Hbelow).
  destruct (step_effect _ _ Hstep) as (next & rest & _ & [[_ ->]|[_ [_ _ El _ Ec _]]]).
  - split; fields; auto.
  - split.
    + destruct El as [(-> & _)|(page & -> & _ & _ & _ & _ & ->)]; [lia|].
      rewrite length_app. cbn. lia.
    + intros cap Hcfg Hpos. specialize (Hbelow cap Hcfg). lia.
Qed.

Lemma counted_seeded : counted config (seedQueue config initial).
Proof.
  rewrite seedQueue_initial. split; fields; cbn; [lia|]. intros; lia.
Qed.

Lemma subrequest_flag (fuel : nat) (result : LoadedSource.t) (data : CrawlMetadata) :
  crawl config extractorRegistry userAgent fetch fuel = Some (Returns result) ->
  crawlData (LoadedSource.metadata result) = Some data ->
  (stoppedBySubrequestLimit data = true
   <-> exists cap, maxSubrequests config = Some cap /\ cap <= subrequestsUsed data)
  /\ (stoppedBySubrequestLimit data = false ->
      targetTokens config <= actualTokens data
      \/ pagesInQueue data = 0
      \/ maxPages config <= LoadedSource.fileCount result)
  /\ LoadedSource.fileCount result <= subrequestsUsed data
  /\ (forall cap, maxSubrequests config = Some cap -> 0 <= cap ->
                  subrequestsUsed data <= cap /\ LoadedSource.fileCount result <= cap).
Proof.
  unfold crawl.
  destruct (run config extractorRegistry userAgent fetch fuel) as [[st|]|] eqn:Hrun;
    try discriminate.
  intros [= <-]. cbn [buildResult LoadedSource.metadata crawlData]. intros [= <-].
  cbn [buildResult stoppedBySubrequestLimit subrequestsUsed actualTokens pagesInQueue
       LoadedSource.fileCount].
  destruct (crawlLoop_invariant (counted config) counted_step fuel _ _ counted_seeded Hrun)
    as [[Hl Hcap] Hend].
  split; [|split; [|split]].
  - destruct (maxSubrequests config) as [cap|].
    + rewrite Z.leb_le. split; [intros H; now exists cap | now intros (? & [= <-] & ?)].
    + split; [discriminate | now intros (? & [=] & _)].
  - intros Hflag.
    destruct (loopCondition st) eqn:Hc; [discriminate|]. clear Hend.
    unfold Crawler.loopCondition in Hc.
    destruct (maxSubrequests config) as [cap|].
    + apply Z.leb_gt in Hflag.
      rewrite !andb_false_iff, !Z.ltb_ge in Hc. lia.
    + rewrite andb_true_r, !andb_false_iff, !Z.ltb_ge in Hc. lia.
  - exact Hl.
  - intros cap Hcfg Hpos. specialize (Hcap cap Hcfg Hpos). lia.
Qed.

(** *** Pages below the minimum *)

(** C5. A fetched page whose token estimate is below [minTokensPerPage]
    changes the subrequest count and the request log only: the accepted
    pages, the token total and the queue left by the pop stay as they were
    (no link is queued), and the URL is visited. *)
Theorem discarded_page_changes_nothing :
  (forall next st page,
      loadPage (url next) = Returns page ->
      FileInfo.tokenEstimate (file page) < minTokensPerPage config ->
      fetchAndAccept next st = countSubrequest (logRequest (PageRequest (url next)) st))
  /\ (forall st st' next rest page,
         sortQueue (queue st) = next :: rest ->
         url next ∉ visited st ->
         loadPage (url next) = Returns page ->
         FileInfo.tokenEstimate (file page) < minTokensPerPage config ->
         iteration st = Returns st' ->
         loadedContent st' = loadedContent st
         /\ currentTokens st' = currentTokens st
         /\ queue st' = rest
         /\ url next ∈ visited st').
Proof.
  split.
  - intros next st page Hload Hmin. unfold Crawler.fetchAndAccept. rewrite Hload.
    apply Z.leb_gt in Hmin. now rewrite Hmin.
  - intros st st' next rest page Hs Hv Hload Hmin Hi.
    destruct (step_effect _ _ (iteration_step _ _ Hi)) as (next' & rest' & Hs' & H).
    rewrite Hs in Hs'. injection Hs' as <- <-.
    destruct H as [[Hin _]|[_ [Ev (new & Eq & _ & _ & Hnew) El _ _ _]]]; [contradiction|].
    destruct El as [(El & Et & _)|(page' & _ & _ & _ & Hmin' & Hload' & _)].
    + repeat split; auto.
      * destruct Hnew as [->|Hgrow]; [now rewrite app_nil_r in Eq|].
        rewrite El in Hgrow. lia.
      * rewrite Ev. apply elem_of_union. left. now apply elem_of_singleton.
    + rewrite Hload in Hload'. injection Hload' as <-. lia.
Qed.

(** *** The token budget *)

Lemma iteration_without_robots (st : State) :
  respectRobotsTxt config = false -> queue st <> [] ->
  exists st', iteration st = Returns st'.
Proof.
  intros Hr Hq. unfold Crawler.iteration.
  destruct (sortQueue (queue st)) as [|next rest] eqn:Hs.
  - apply (f_equal (@length _)) in Hs. rewrite sortQueue_length in Hs.
    destruct (queue st); [contradiction | discriminate].
  - destruct (bool_decide _); [eauto|]. rewrite Hr. eauto.
Qed.

Section Budget.

Hypothesis target : targetTokens config = 100.
Hypothesis noMinimum : minTokensPerPage config = 0.
Hypothesis noCap : maxSubrequests config = None.
Hypothesis noRobots : respectRobotsTxt config = false.
Hypothesis twoPages : 2 <= maxPages config.
Hypothesis about60 :
  forall u, exists page,
    loadPage u = Returns page /\ 50 <= FileInfo.tokenEstimate (file page) < 100.

(** Under the hypotheses a step skips a visited entry or accepts a page. *)
Lemma budget_step (st st' : State) :
  step st st' ->
  exists next rest,
    sortQueue (queue st) = next :: rest
    /\ ((url next ∈ visited st /\ st' = setQueue rest st)
        \/ ((url next ∉ visited st)
            /\ visited st' = {[ url next ]} ∪ visited st
            /\ (forall e, In e rest -> In e (queue st'))
            /\ exists page,
                loadedContent st' = (loadedContent st ++ [page])%list
                /\ currentTokens st' = currentTokens st + FileInfo.tokenEstimate (file page)
                /\ 50 <= FileInfo.tokenEstimate (file page) < 100)).
Proof.
  intros Hstep. destruct (step_effect _ _ Hstep) as (next & rest & Hs & H).
  exists next, rest. split; [exact Hs|].
  destruct H as [H|[Hv [Ev (new & Eq & _) El _ _ _]]]; [now left|right].
  split; [exact Hv|]. split; [exact Ev|]. split.
  { intros e He. rewrite Eq, in_app_iff. now left. }
  destruct (about60 (url next)) as (page0 & Hload0 & Hrange).
  destruct El as [(_ & _ & [Hr|[(m & Hm)|(page & Hload & Hmin)]])
                 |(page & El & _ & Et & _ & Hload & _)].
  - congruence.
  - congruence.
  - rewrite Hload0 in Hload. injection Hload as <-. lia.
  - rewrite Hload0 in Hload. injection Hload as <-. eauto.
Qed.

Lemma second_page (n : nat) (st : State) :
  (length (queue st) <= n)%nat ->
  length (loadedContent st) = 1%nat ->
  50 <= currentTokens st < 100 ->
  (exists e, In e (queue st) /\ url e ∉ visited st) ->
  exists fuel st',
    crawlLoop fuel st = Some (Returns st')
    /\ length (loadedContent st') = 2%nat
    /\ 100 <= currentTokens st'.
Proof.
  revert st. induction n as [|n IH]; intros st Hn Hl Ht (e & He & Hfresh).
  { destruct (queue st); [contradiction | cbn in Hn; lia]. }
  assert (Hc : loopCondition st = true).
  { apply loopCondition_iff. rewrite target, Hl, noCap.
    repeat split; try lia; [|discriminate]. intros E. now rewrite E in He. }
  destruct (iteration_without_robots st noRobots) as (st1 & Hi).
  { intros E. now rewrite E in He. }
  destruct (budget_step _ _ (iteration_step _ _ Hi)) as (next & rest & Hs & H).
  pose proof (sortQueue_perm (queue st)) as Hperm. rewrite Hs in Hperm.
  pose proof (sortQueue_length (queue st)) as Hlen. rewrite Hs in Hlen. cbn in Hlen.
  destruct H as [[Hv ->]|(Hv & _ & _ & page & El & Et & Hrange)].
  - destruct (IH (setQueue rest st)) as (fuel & st' & Hrun & Hres); fields; auto; [lia| |].
    + exists e. split; [|exact Hfresh].
      apply (Permutation_in _ (Permutation_sym Hperm)) in He as [<-|He]; [contradiction|exact He].
    + exists (S fuel), st'. cbn. rewrite Hc, Hi. auto.
  - exists 1%nat, st1. cbn. rewrite Hc, Hi.
    assert (Hend : loopCondition st1 = false).
    { unfold Crawler.loopCondition. rewrite target, Et.
      replace (_ <? 100) with false by (symmetry; apply Z.ltb_ge; lia). reflexivity. }
    rewrite Hend. split; [reflexivity|]. rewrite El, length_app, Hl, Et. cbn. lia.
Qed.

Lemma budget_two_pages :
  (exists a b, In a (seedUrls config) /\ In b (seedUrls config)
               /\ LinkScorer.normalizeUrl a <> LinkScorer.normalizeUrl b) ->
  exists fuel st',
    run config extractorRegistry userAgent fetch fuel = Some (Returns st')
    /\ length (loadedContent st') = 2%nat
    /\ 100 <= currentTokens st'.
Proof.
  intros (a & b & Ha & Hb & Hab). unfold run.
  set (st := seedQueue config initial).
  assert (Hq : map url (queue st) = map LinkScorer.normalizeUrl (seedUrls config))
    by apply seedQueue_urls.
  assert (Hfields : visited st = ∅ /\ loadedContent st = [] /\ currentTokens st = 0).
  { subst st. rewrite seedQueue_initial. fields. auto. }
  destruct Hfields as (Hv0 & Hl0 & Ht0).
  assert (Hne : queue st <> []).
  { intros E. rewrite E in Hq. destruct (seedUrls config); [contradiction|discriminate]. }
  assert (Hc : loopCondition st = true).
  { apply loopCondition_iff. rewrite target, Hl0, Ht0, noCap.
    repeat split; try (cbn; lia); [exact Hne|discriminate]. }
  destruct (iteration_without_robots st noRobots Hne) as (st1 & Hi).
  destruct (budget_step _ _ (iteration_step _ _ Hi)) as (next & rest & Hs & H).
  pose proof (sortQueue_perm (queue st)) as Hperm. rewrite Hs in Hperm.
  pose proof (sortQueue_length (queue st)) as Hlen. rewrite Hs in Hlen. cbn in Hlen.
  destruct H as [[Hv _]|(_ & Ev & Hkeep & page & El & Et & Hrange)].
  { rewrite Hv0 in Hv. now apply not_elem_of_empty in Hv. }
  assert (Hother : exists e, In e rest /\ url e <> url next).
  { assert (Hin : forall u, In u (seedUrls config) ->
                            exists e, In e (next :: rest) /\ url e = LinkScorer.normalizeUrl u).
    { intros u Hu. apply (in_map LinkScorer.normalizeUrl) in Hu. rewrite <- Hq in Hu.
      apply in_map_iff in Hu as (e & He & Hin). exists e. split; [|exact He].
      now apply (Permutation_in _ (Permutation_sym Hperm)). }
    destruct (Hin a Ha) as (ea & [<-|Hea] & Ea); destruct (Hin b Hb) as (eb & [<-|Heb] & Eb).
    - congruence.
    - exists eb. split; [exact Heb | congruence].
    - exists ea. split; [exact Hea | congruence].
    - destruct (decide (url ea = url next)) as [E|E].
      + exists eb. split; [exact Heb | congruence].
      + exists ea. split; [exact Hea | exact E]. }
  destruct Hother as (e & He & Hdiff).
  destruct (second_page (length (queue st1)) st1) as (fuel & st' & Hrun & Hres).
  - lia.
  - rewrite El, Hl0. reflexivity.
  - rewrite Et, Ht0. lia.
  - exists e. split; [now apply Hkeep|]. rewrite Ev, Hv0.
    intros Hin. apply elem_of_union in Hin as [Hin|Hin].
    + now apply elem_of_singleton in Hin.
    + now apply not_elem_of_empty in Hin.
  - exists (S fuel), st'. cbn. rewrite Hc, Hi. auto.
Qed.

End Budget.

End CrawlerFacts.

Section WhileLoop.

Import Crawler.

Variable config : CrawlConfig.
Variable extractorRegistry : ExtractorRegistry.
Variable userAgent : string.
Variable fetch : Fetch.

Local Abbreviation crawlLoop := (Crawler.crawlLoop config extractorRegistry userAgent fetch).

(** No turn without the condition. *)
Lemma crawlLoop_skipped (fuel : nat) (st : State) :
  loopCondition config st = false -> crawlLoop fuel st = Some (Returns st).
Proof. intros H. destruct fuel; cbn [Crawler.crawlLoop]; now rewrite H. Qed.

Lemma crawlLoop_whileRuns (fuel : nat) (st st' : State) :
  crawlLoop fuel st = Some (Returns st') ->
  whileRuns config extractorRegistry userAgent fetch st st'.
Proof.
  revert st. induction fuel as [|fuel IH]; intros st; cbn [Crawler.crawlLoop];
    destruct (loopCondition config st) eqn:Hc; try discriminate;
    try (intros [= <-]; now constructor).
  destruct (iteration config extractorRegistry userAgent fetch st) as [st1|] eqn:Hi;
    [|discriminate].
  intros H. eapply runs_turn; eauto.
Qed.

Lemma whileRuns_crawlLoop (st st' : State) :
  whileRuns config extractorRegistry userAgent fetch st st' ->
  exists fuel, crawlLoop fuel st = Some (Returns st').
Proof.
  induction 1 as [st Hc|st st1 st' Hc Hi _ (fuel & IH)].
  - exists O. now apply crawlLoop_skipped.
  - exists (S fuel). cbn [Crawler.crawlLoop]. now rewrite Hc, Hi.
Qed.

(** A crawl whose condition fails at the start asks the network nothing. *)
Lemma run_skipped (fuel : nat) :
  loopCondition config (seedQueue config initial) = false ->
  run config extractorRegistry userAgent fetch fuel = Some (Returns (seedQueue config initial))
  /\ requests (seedQueue config initial) = []
  /\ loadedContent (seedQueue config initial) = [].
Proof.
  intros H. unfold run. rewrite (crawlLoop_skipped fuel _ H).
  rewrite seedQueue_initial. fields. auto.
Qed.

End WhileLoop.

(** ** The claims about the crawl *)

(** C3. The loop runs exactly while the token total is below the target,
    the queue is not empty, fewer than [maxPages] pages are accepted and, with
    a cap, the subrequest count is below it: no turn is taken from a state in
    which one of these fails (a crawl that starts in such a state asks the
    network nothing), every turn of a run starts from a state in which all
    hold, and the loop ends, in the first state in which one fails.  With a
    target of 100, no minimum and pages between 50 and 99 tokens (about 60), a
    crawl from two distinct seeds accepts exactly two pages, for at least 100
    tokens. *)
Theorem crawl_loop_and_budget :
  (forall config st,
      Crawler.loopCondition config st = true
      <-> Crawler.currentTokens st < Crawler.targetTokens config
          /\ Crawler.queue st <> []
          /\ Z.of_nat (length (Crawler.loadedContent st)) < Crawler.maxPages config
          /\ (forall maxSubs, Crawler.maxSubrequests config = Some maxSubs ->
                              Crawler.subrequestCount st < maxSubs))
  /\ (forall config extractorRegistry userAgent fetch fuel st st',
         Crawler.crawlLoop config extractorRegistry userAgent fetch fuel st = Some (Returns st') ->
         Crawler.loopCondition config st' = false)
  /\ (forall config extractorRegistry userAgent fetch st,
         exists fuel outcome,
           Crawler.crawlLoop config extractorRegistry userAgent fetch fuel st = Some outcome)
  /\ (forall config extractorRegistry userAgent fetch,
         Crawler.targetTokens config = 100 ->
         Crawler.minTokensPerPage config = 0 ->
         Crawler.maxSubrequests config = None ->
         Crawler.respectRobotsTxt config = false ->
         2 <= Crawler.maxPages config ->
         (forall u, exists page,
               Crawler.loadPage extractorRegistry fetch u = Returns page
               /\ 50 <= FileInfo.tokenEstimate (Crawler.file page) < 100) ->
         (exists a b, In a (Crawler.seedUrls config) /\ In b (Crawler.seedUrls config)
                      /\ LinkScorer.normalizeUrl a <> LinkScorer.normalizeUrl b) ->
         exists fuel result,
           Crawler.crawl config extractorRegistry userAgent fetch fuel = Some (Returns result)
           /\ LoadedSource.fileCount result = 2
           /\ 100 <= LoadedSource.totalTokens result)
  /\ (let result :=
        Scenario.resultOf (Crawler.crawl Scenario.politeBudget (Scenario.pagesOf 60 [])
                                         Scenario.robotUserAgent Scenario.site 10) in
      LoadedSource.fileCount result = 2 /\ LoadedSource.totalTokens result = 120)
  /\ (forall config extractorRegistry userAgent fetch fuel st,
         Crawler.loopCondition config st = false ->
         Crawler.crawlLoop config extractorRegistry userAgent fetch fuel st = Some (Returns st))
  /\ (forall config extractorRegistry userAgent fetch fuel st st',
         Crawler.crawlLoop config extractorRegistry userAgent fetch fuel st = Some (Returns st') ->
         whileRuns config extractorRegistry userAgent fetch st st')
  /\ (forall config extractorRegistry userAgent fetch st st',
         whileRuns config extractorRegistry userAgent fetch st st' ->
         exists fuel,
           Crawler.crawlLoop config extractorRegistry userAgent fetch fuel st = Some (Returns st'))
  /\ (forall config extractorRegistry userAgent fetch fuel,
         Crawler.targetTokens config <= 0
         \/ Crawler.seedUrls config = []
         \/ Crawler.maxPages config <= 0
         \/ (exists maxSubs, Crawler.maxSubrequests config = Some maxSubs /\ maxSubs <= 0) ->
         exists st',
           Crawler.run config extractorRegistry userAgent fetch fuel = Some (Returns st')
           /\ Crawler.requests st' = []
           /\ Crawler.loadedContent st' = []
           /\ Crawler.crawl config extractorRegistry userAgent fetch fuel
              = Some (Returns (Crawler.buildResult config st'))).
Proof.
  split; [exact loopCondition_iff|].
  split; [|split; [exact crawlLoop_terminates|split; [|split; [|split; [|split; [|split]]]]]].
  - intros config extractorRegistry userAgent fetch fuel st st' H.
    now apply (crawlLoop_invariant config extractorRegistry userAgent fetch
                 (fun _ => True) (fun _ _ _ _ _ => I) fuel st st' I H).
  - intros config extractorRegistry userAgent fetch Ht Hm Hc Hr Hp Hload Hseeds.
    destruct (budget_two_pages config extractorRegistry userAgent fetch Ht Hm Hc Hr Hp Hload Hseeds)
      as (fuel & st' & Hrun & Hl & Htok).
    exists fuel, (Crawler.buildResult config st'). unfold Crawler.crawl. rewrite Hrun.
    cbn [Crawler.buildResult LoadedSource.fileCount LoadedSource.totalTokens].
    rewrite Hl. auto.
  - vm_compute. split; reflexivity.
  - exact crawlLoop_skipped.
  - exact crawlLoop_whileRuns.
  - exact whileRuns_crawlLoop.
  - intros config extractorRegistry userAgent fetch fuel Hstop.
    assert (Hc : Crawler.loopCondition config (Crawler.seedQueue config Crawler.initial) = false).
    { destruct (Crawler.loopCondition config (Crawler.seedQueue config Crawler.initial)) eqn:E;
        [|reflexivity].
      apply loopCondition_iff in E as (Ht & Hq & Hp & Hs). exfalso.
      rewrite seedQueue_initial in Ht, Hq, Hp, Hs. fields.
      destruct Hstop as [H|[H|[H|(maxSubs & Hm & H)]]].
      - cbn in Ht. lia.
      - rewrite H in Hq. now apply Hq.
      - cbn in Hp. lia.
      - specialize (Hs maxSubs Hm). cbn in Hs. lia. }
    destruct (run_skipped config extractorRegistry userAgent fetch fuel Hc) as (Hrun & Hreq & Hl).
    exists (Crawler.seedQueue config Crawler.initial).
    unfold Crawler.crawl. rewrite Hrun. auto.
Qed.

Lemma crawl_loop_and_budget_witness :
  exists fuel result,
    Crawler.crawl Scenario.budget (Scenario.pagesOf 60 []) Scenario.robotUserAgent
                  Scenario.openSite fuel = Some (Returns result)
    /\ LoadedSource.fileCount result = 2
    /\ 100 <= LoadedSource.totalTokens result.
Proof.
  apply (proj1 (proj2 (proj2 (proj2 crawl_loop_and_budget)))); try reflexivity.
  - discriminate.
  - intros u. eexists. split; [reflexivity|].
    change (50 <= 60 < 100). lia.
  - exists "https://a.com/p1", "https://a.com/p2". cbn [In Crawler.seedUrls Scenario.budget].
    split; [auto|]. split; [auto|]. vm_compute. discriminate.
Defined.

(** C4, as the code has it.  The flag is true exactly when a cap is
    configured and the count of successful page loads has reached it when the
    loop ends, whether or not the token target or the page cap was reached by
    the same page; when the flag is false the token target was reached, the
    queue ran dry or the page cap was hit.  The accepted pages never outnumber
    the counted subrequests, which never exceed the cap: with a cap of 1 and a
    seed page of three same-domain links the flag is true, one page is
    accepted and the three links stay queued. *)
Theorem subrequest_flag_reports_cap :
  (forall config extractorRegistry userAgent fetch fuel result data,
      Crawler.crawl config extractorRegistry userAgent fetch fuel = Some (Returns result) ->
      crawlData (LoadedSource.metadata result) = Some data ->
      (stoppedBySubrequestLimit data = true
       <-> exists cap, Crawler.maxSubrequests config = Some cap /\ cap <= subrequestsUsed data)
      /\ (stoppedBySubrequestLimit data = false ->
          Crawler.targetTokens config <= actualTokens data
          \/ pagesInQueue data = 0
          \/ Crawler.maxPages config <= LoadedSource.fileCount result)
      /\ LoadedSource.fileCount result <= subrequestsUsed data
      /\ (forall cap, Crawler.maxSubrequests config = Some cap -> 0 <= cap ->
                      subrequestsUsed data <= cap /\ LoadedSource.fileCount result <= cap))
  /\ (let result :=
        Scenario.resultOf (Crawler.crawl Scenario.capped (Scenario.pagesOf 60 Scenario.threeLinks)
                                         Scenario.robotUserAgent Scenario.site 10) in
      stoppedBySubrequestLimit (Scenario.crawlDataOf result) = true
      /\ LoadedSource.fileCount result = 1
      /\ pagesInQueue (Scenario.crawlDataOf result) = 3).
Proof.
  split; [exact subrequest_flag|]. vm_compute. repeat split; reflexivity.
Qed.

Lemma subrequest_flag_reports_cap_witness :
  LoadedSource.fileCount
    (Scenario.resultOf (Crawler.crawl Scenario.capped (Scenario.pagesOf 60 Scenario.threeLinks)
                                      Scenario.robotUserAgent Scenario.site 10))
  <= subrequestsUsed
       (Scenario.crawlDataOf
          (Scenario.resultOf (Crawler.crawl Scenario.capped (Scenario.pagesOf 60 Scenario.threeLinks)
                                            Scenario.robotUserAgent Scenario.site 10))).
Proof.
  refine (proj1 (proj2 (proj2 (proj1 subrequest_flag_reports_cap
            Scenario.capped (Scenario.pagesOf 60 Scenario.threeLinks)
            Scenario.robotUserAgent Scenario.site 10%nat _ _ _ _)))).
  - vm_compute. reflexivity.
  - vm_compute. reflexivity.
Defined.

(** C4, as the specification states it, fails: under a cap of 1 and a token
    target of 10, a first page of 60 tokens meets the target and the flag is
    true all the same. *)
Lemma flag_set_though_target_met : ~ flagMeansOnlyTheCap.
Proof.
  intros H.
  pose (result := Scenario.resultOf
                    (Crawler.crawl Scenario.cappedAndSatisfied
                                   (Scenario.pagesOf 60 Scenario.threeLinks)
                                   Scenario.robotUserAgent Scenario.site 10)).
  assert (E : Crawler.crawl Scenario.cappedAndSatisfied
                            (Scenario.pagesOf 60 Scenario.threeLinks)
                            Scenario.robotUserAgent Scenario.site 10
              = Some (Returns result)) by (vm_compute; reflexivity).
  assert (Ed : crawlData (LoadedSource.metadata result) = Some (Scenario.crawlDataOf result))
    by (vm_compute; reflexivity).
  assert (F : stoppedBySubrequestLimit (Scenario.crawlDataOf result) = true)
    by (vm_compute; reflexivity).
  destruct (H _ _ _ _ _ _ _ E Ed F) as [Ht _].
  vm_compute in Ht. discriminate Ht.
Qed.

(** C2, as the specification states it, fails: a seed given twice is queued
    twice. *)
Lemma repeated_seed_queued_twice : ~ seedingRejectsDuplicates.
Proof.
  intros H. specialize (H Scenario.repeatedSeed). vm_compute in H.
  apply List.NoDup_cons_iff in H as [Hx _]. apply Hx. now left.
Qed.

Lemma crawl_deduplicates_witness :
  List.NoDup
    (map Crawler.url
       (Crawler.queue
          (Scenario.finalState
             (Crawler.run Scenario.capped (Scenario.pagesOf 60 Scenario.threeLinks)
                          Scenario.robotUserAgent Scenario.site 10)))).
Proof.
  refine (proj1 (proj2 (proj2 (proj2 (proj2
            (crawl_deduplicates Scenario.capped (Scenario.pagesOf 60 Scenario.threeLinks)
               Scenario.robotUserAgent Scenario.site 10%nat _ _)))) _)).
  - vm_compute. reflexivity.
  - cbn [Crawler.seedUrls Scenario.capped map]. constructor; [intros []|constructor].
Defined.

Lemma discarded_page_changes_nothing_witness :
  Crawler.loadedContent
    (Scenario.stateAfter
       (Crawler.iteration Scenario.thin (Scenario.pagesOf 60 Scenario.threeLinks)
                          Scenario.robotUserAgent Scenario.site
                          (Crawler.seedQueue Scenario.thin Crawler.initial)))
  = []
  /\ Crawler.queue
       (Scenario.stateAfter
          (Crawler.iteration Scenario.thin (Scenario.pagesOf 60 Scenario.threeLinks)
                             Scenario.robotUserAgent Scenario.site
                             (Crawler.seedQueue Scenario.thin Crawler.initial)))
     = [].
Proof.
  destruct (proj2 (discarded_page_changes_nothing Scenario.thin
                     (Scenario.pagesOf 60 Scenario.threeLinks)
                     Scenario.robotUserAgent Scenario.site)
              (Crawler.seedQueue Scenario.thin Crawler.initial)
              (Scenario.stateAfter
                 (Crawler.iteration Scenario.thin (Scenario.pagesOf 60 Scenario.threeLinks)
                                    Scenario.robotUserAgent Scenario.site
                                    (Crawler.seedQueue Scenario.thin Crawler.initial)))
              {| Crawler.url := "https://a.com/"; Crawler.score := 100;
                 Crawler.depth := 0; Crawler.referrer := "" |}
              []
              {| Crawler.file :=
                   {| FileInfo.path := "https://a.com/";
                      FileInfo.content := Scenario.textOf 240;
                      FileInfo.size := 0;
                      FileInfo.tokenEstimate := 60;
                      FileInfo.mimeType := Some "text/html" |};
                 Crawler.pageLinks := Some Scenario.threeLinks;
                 Crawler.pageTitle := None |})
    as (Hl & _ & Hq & _).
  - vm_compute. reflexivity.
  - vm_compute. intros H. discriminate H.
  - vm_compute. reflexivity.
  - vm_compute. reflexivity.
  - vm_compute. reflexivity.
  - split; [exact Hl | exact Hq].
Defined.

(** C1. Fetches that fail are not counted: under a cap of one subrequest,
    two seeds whose fetches fail cost three calls to [fetch] (one robots.txt,
    two pages) while the count stays 0 and the flag false; and on a site whose
    robots.txt refuses everything the robots.txt call is not counted either.
    Only a page that loads raises the count. *)
Theorem failed_fetches_are_not_counted :
  (let st := Scenario.finalState
               (Crawler.run Scenario.failingSeeds (Scenario.pagesOf 60 [])
                            Scenario.robotUserAgent Scenario.brokenSite 10) in
   Crawler.maxSubrequests Scenario.failingSeeds = Some 1
   /\ Crawler.requests st
      = [Crawler.RobotsRequest "https://a.com/robots.txt";
         Crawler.PageRequest "https://a.com/one";
         Crawler.PageRequest "https://a.com/two"]
   /\ Crawler.subrequestCount st = 0
   /\ map error (Crawler.errors st)
      = ["HTTP 500: Internal Server Error"; "HTTP 500: Internal Server Error"]
   /\ stoppedBySubrequestLimit
        (Scenario.crawlDataOf (Crawler.buildResult Scenario.failingSeeds st)) = false)
  /\ (let st := Scenario.finalState
                  (Crawler.run Scenario.failingSeeds (Scenario.pagesOf 60 [])
                               Scenario.robotUserAgent Scenario.closedSite 10) in
      Crawler.requests st = [Crawler.RobotsRequest "https://a.com/robots.txt"]
      /\ Crawler.subrequestCount st = 0
      /\ map error (Crawler.errors st) = ["Blocked by robots.txt"; "Blocked by robots.txt"]).
Proof. vm_compute. repeat split; reflexivity. Qed.

(** * Further properties *)

(** ** The crawler's budget *)

Section CrawlerBudget.

Import Crawler Steps.

Variable config : CrawlConfig.
Variable extractorRegistry : ExtractorRegistry.
Variable userAgent : string.
Variable fetch : Fetch.

Lemma sumZ_app (a b : list Z) : sumZ (a ++ b) = sumZ a + sumZ b.
Proof. induction a as [|x a IH]; cbn [app sumZ]; lia. Qed.

Lemma withinBudget_step (st st' : State) :
  withinBudget config st ->
  Crawler.loopCondition config st = true ->
  Steps.step config extractorRegistry fetch st st' ->
  withinBudget config st'.
Proof.
  intros [Ht Hmin Hcap Hlast] Hc Hstep.
  apply loopCondition_iff in Hc as (Hbelow & _ & Hpages & _).
  destruct (step_effect _ _ _ _ _ Hstep) as (next & rest & _ & [[_ ->]|[_ [_ _ El _ _ _]]]).
  - constructor; fields; auto.
  - destruct El as [(El & Et & _)|(page & El & _ & Et & Hpage & _)].
    + constructor; rewrite ?El, ?Et; auto.
    + constructor; rewrite ?El, ?Et.
      * rewrite map_app, sumZ_app, Ht. cbn. unfold pageTokens. lia.
      * intros p Hp. apply in_app_iff in Hp as [Hp|[<-|[]]]; auto.
      * rewrite length_app. cbn. lia.
      * intros init last E. apply app_inj_tail in E as [<- _]. now rewrite <- Ht.
Qed.

Lemma withinBudget_seeded : withinBudget config (seedQueue config initial).
Proof.
  rewrite seedQueue_initial. constructor; fields.
  - reflexivity.
  - intros p [].
  - cbn. lia.
  - intros [|x init] last E; cbn in E; [discriminate E|].
    destruct init; discriminate E.
Qed.

(** The token total of a crawl result is the sum of its files' token
    estimates. *)
Theorem crawl_total_is_sum (fuel : nat) (result : LoadedSource.t) :
  crawl config extractorRegistry userAgent fetch fuel = Some (Returns result) ->
  LoadedSource.totalTokens result
  = sumZ (map FileInfo.tokenEstimate (LoadedSource.files result)).
Proof.
  unfold crawl.
  destruct (run config extractorRegistry userAgent fetch fuel) as [[st|]|] eqn:Hrun;
    try discriminate.
  intros [= <-].
  destruct (crawlLoop_invariant _ _ _ _ (withinBudget config) withinBudget_step
              fuel _ _ withinBudget_seeded Hrun) as [[Ht _ _ _] _].
  cbn [buildResult LoadedSource.totalTokens LoadedSource.files].
  now rewrite Ht, map_map.
Qed.

(** Every file of a crawl result has at least [minTokensPerPage] tokens,
    and the number of files is within [maxPages]. *)
Theorem crawl_files_within_limits (fuel : nat) (result : LoadedSource.t) :
  crawl config extractorRegistry userAgent fetch fuel = Some (Returns result) ->
  (forall f, In f (LoadedSource.files result) ->
             minTokensPerPage config <= FileInfo.tokenEstimate f)
  /\ LoadedSource.fileCount result <= Z.max 0 (maxPages config)
  /\ LoadedSource.fileCount result = Z.of_nat (length (LoadedSource.files result)).
Proof.
  unfold crawl.
  destruct (run config extractorRegistry userAgent fetch fuel) as [[st|]|] eqn:Hrun;
    try discriminate.
  intros [= <-].
  destruct (crawlLoop_invariant _ _ _ _ (withinBudget config) withinBudget_step
              fuel _ _ withinBudget_seeded Hrun) as [[_ Hmin Hcap _] _].
  cbn [buildResult LoadedSource.fileCount LoadedSource.files].
  split; [|split].
  - intros f Hf. apply in_map_iff in Hf as (p & <- & Hp). now apply Hmin.
  - exact Hcap.
  - now rewrite length_map.
Qed.

(** The token target is a soft stop that one page can pass: without its
    last file a crawl result is below the target. *)
Theorem crawl_overshoot_is_one_page (fuel : nat) (result : LoadedSource.t)
    (init : list FileInfo.t) (last : FileInfo.t) :
  crawl config extractorRegistry userAgent fetch fuel = Some (Returns result) ->
  LoadedSource.files result = (init ++ [last])%list ->
  LoadedSource.totalTokens result - FileInfo.tokenEstimate last < targetTokens config.
Proof.
  unfold crawl.
  destruct (run config extractorRegistry userAgent fetch fuel) as [[st|]|] eqn:Hrun;
    try discriminate.
  intros [= <-].
  destruct (crawlLoop_invariant _ _ _ _ (withinBudget config) withinBudget_step
              fuel _ _ withinBudget_seeded Hrun) as [[Ht _ _ Hlast] _].
  cbn [buildResult LoadedSource.totalTokens LoadedSource.files]. intros Hfiles.
  destruct (exists_last (l := loadedContent st)) as (pages & p & Hp).
  { intros E. rewrite E in Hfiles. destruct init; discriminate Hfiles. }
  rewrite Hp, map_app in Hfiles. cbn [map] in Hfiles.
  apply app_inj_tail in Hfiles as [_ <-].
  specialize (Hlast pages p Hp).
  rewrite Ht, Hp, map_app, sumZ_app. cbn. unfold pageTokens in *. lia.
Qed.

End CrawlerBudget.

(** ** The crawler's queue *)

Section CrawlerQueue.

Import Crawler Steps.

Variable config : CrawlConfig.
Variable extractorRegistry : ExtractorRegistry.
Variable userAgent : string.
Variable fetch : Fetch.

Local Abbreviation iteration := (Crawler.iteration config extractorRegistry userAgent fetch).
Local Abbreviation crawlLoop := (Crawler.crawlLoop config extractorRegistry userAgent fetch).

Lemma scoreLink_bounds (link sourceUrl : string) :
  0 <= LinkScorer.scoreLink link sourceUrl <= 100.
Proof. unfold LinkScorer.scoreLink. lia. Qed.

Lemma queueLink_entry (sourceUrl : string) (sourceUrlObj : URLObject) (d : Z)
    (st : State) (link : string) :
  newURL sourceUrl = Returns sourceUrlObj ->
  queueLink config sourceUrl (URL.origin (urlOf sourceUrlObj)) d st link = st
  \/ exists e,
      queueLink config sourceUrl (URL.origin (urlOf sourceUrlObj)) d st link
      = setQueue (queue st ++ [e])%list st
      /\ depth e = d + 1
      /\ referrer e = sourceUrl
      /\ score e = LinkScorer.scoreLink (url e) sourceUrl
      /\ 20 <= score e
      /\ exists o,
          newURL (url e) = Returns o
          /\ (sameDomainOnly config = true ->
              URL.origin (urlOf o) = URL.origin (urlOf sourceUrlObj)).
Proof.
  intros Hsrc. unfold Crawler.queueLink.
  destruct (LinkScorer.shouldSkipUrl link); [now left|].
  unfold Crawler.queueLinkTry.
  destruct (newURLBase link sourceUrl) as [resolvedObj|]; cbn [mbind completion_bind]; [|now left].
  set (resolved := LinkScorer.normalizeUrl _).
  destruct (bool_decide (resolved ∈ visited st)); [now left|].
  destruct (JS.some _ (queue st)); [now left|].
  destruct (newURL resolved) as [linkObj|] eqn:Hl; cbn [mbind completion_bind]; [|now left].
  destruct (sameDomainOnly config && _) eqn:Hs; [now left|].
  destruct (_ <? 20) eqn:Hscore; [now left|].
  apply Z.ltb_ge in Hscore.
  right. eexists. split; [reflexivity|]. cbn [depth referrer score url].
  repeat split; auto.
  exists linkObj. split; [exact Hl|]. intros Hsame. rewrite Hsame in Hs. cbn in Hs.
  apply negb_false_iff, String.eqb_eq in Hs. exact Hs.
Qed.

Lemma queueLinks_entries (next : PrioritizedUrl) (ls : list string) (st st' : State) :
  queueLinks config ls (url next) (depth next) st = Returns st' ->
  exists new,
    st' = setQueue (queue st ++ new)%list st
    /\ (length new <= length ls)%nat
    /\ forall e, In e new -> addedFrom config next e.
Proof.
  unfold Crawler.queueLinks.
  destruct (newURL (url next)) as [sourceUrlObj|] eqn:Hsrc;
    cbn [mbind completion_bind mret completion_ret]; [|discriminate].
  intros [= <-]. revert st.
  induction ls as [|link ls IH]; intros st; cbn [fold_left].
  - exists []. rewrite app_nil_r. split; [now destruct st|]. split; [reflexivity|intros e []].
  - destruct (queueLink_entry (url next) sourceUrlObj (depth next) st link Hsrc)
      as [->|(e & -> & Hd & Hr & Hs & H20 & o & Ho & Hsame)].
    + destruct (IH st) as (new & -> & Hlen & Hnew). exists new. cbn [length]. auto.
    + destruct (IH (setQueue (queue st ++ [e])%list st)) as (new & -> & Hlen & Hnew).
      exists (e :: new). fields. rewrite <- app_assoc. split; [reflexivity|].
      split; [cbn [length]; lia|].
      intros e' [<-|He']; [|now apply Hnew].
      repeat split; auto. exists o, sourceUrlObj. auto.
Qed.

(** [queueLinks] touches nothing but the queue, which it extends by at most
    one entry for each link. *)
Theorem queueLinks_only_extends_queue (next : PrioritizedUrl) (ls : list string)
    (st st' : State) :
  queueLinks config ls (url next) (depth next) st = Returns st' ->
  st' = setQueue (queue st') st
  /\ exists new, queue st' = (queue st ++ new)%list /\ (length new <= length ls)%nat.
Proof.
  intros H. destruct (queueLinks_entries next ls st st' H) as (new & -> & Hlen & _).
  fields. split; [reflexivity|]. now exists new.
Qed.

Lemma fetchAndAccept_queue (next : PrioritizedUrl) (st : State) :
  exists new,
    queue (fetchAndAccept config extractorRegistry fetch next st) = (queue st ++ new)%list
    /\ forall e, In e new -> addedFrom config next e.
Proof.
  assert (Hnone : forall q : list PrioritizedUrl,
             exists new, q = (q ++ new)%list /\ forall e, In e new -> addedFrom config next e).
  { intros q. exists []. rewrite app_nil_r. split; [reflexivity|intros e []]. }
  unfold Crawler.fetchAndAccept.
  destruct (loadPage extractorRegistry fetch (url next)) as [page|]; fields; [|apply Hnone].
  destruct (_ <=? _); fields; [|apply Hnone].
  destruct (pageLinks page) as [ls|]; fields; [|apply Hnone].
  destruct (queueLinks config ls (url next) (depth next) _) as [st'|] eqn:Hq; fields;
    [|apply Hnone].
  destruct (queueLinks_entries _ _ _ _ Hq) as (new & -> & _ & Hnew). fields.
  now exists new.
Qed.

Lemma fetchAndAccept_visited (next : PrioritizedUrl) (st : State) :
  visited (fetchAndAccept config extractorRegistry fetch next st) = visited st.
Proof.
  unfold Crawler.fetchAndAccept.
  destruct (loadPage _ _ _) as [page|]; fields; [|reflexivity].
  destruct (_ <=? _); fields; [|reflexivity].
  destruct (pageLinks page) as [ls|]; fields; [|reflexivity].
  destruct (queueLinks config ls _ _ _) as [st2|] eqn:Hq2; fields; [|reflexivity].
  destruct (queueLinks_entries _ _ _ _ Hq2) as (? & -> & _). reflexivity.
Qed.

Lemma iteration_queue (st st' : State) :
  iteration st = Returns st' ->
  exists next rest new,
    sortQueue (queue st) = next :: rest
    /\ queue st' = (rest ++ new)%list
    /\ (forall e, In e new -> addedFrom config next e)
    /\ (visited st' = visited st \/ visited st' = {[ url next ]} ∪ visited st).
Proof.
  unfold Crawler.iteration.
  destruct (sortQueue (queue st)) as [|next rest] eqn:Hsort; [discriminate|].
  assert (Hnone : forall e, In e (@nil PrioritizedUrl) -> addedFrom config next e)
    by (intros e []).
  fields. destruct (bool_decide _).
  - intros [= <-]. exists next, rest, []. fields. rewrite app_nil_r. auto.
  - destruct (respectRobotsTxt config).
    + destruct (checkRobots userAgent fetch (url next) _) as [[allowed st1]|] eqn:Hc;
        cbn [mbind completion_bind]; [|discriminate].
      apply checkRobots_checked in Hc.
      destruct (robotsChecked_frame _ _ Hc) as (Ev & Eq & _). fields.
      destruct allowed; cbn [negb]; intros [= <-].
      * destruct (fetchAndAccept_queue next st1) as (new & Hq & Hnew).
        exists next, rest, new. rewrite Hq, Eq, fetchAndAccept_visited, Ev. auto.
      * exists next, rest, []. fields. rewrite app_nil_r, Eq, Ev. auto.
    + intros [= <-].
      destruct (fetchAndAccept_queue next (setVisited ({[url next]} ∪ visited st) (setQueue rest st)))
        as (new & Hq & Hnew). fields.
      exists next, rest, new. rewrite fetchAndAccept_visited. fields. auto.
Qed.

Lemma added_is_link (next e : PrioritizedUrl) :
  seedEntry config next \/ linkEntry config next ->
  addedFrom config next e -> linkEntry config e.
Proof.
  intros Hnext (Hd & Hr & Hs & H20 & o & r & Ho & Hrr & Hsame).
  assert (0 <= depth next).
  { destruct Hnext as [(u & _ & ->)|(Hdn & _)]; cbn; lia. }
  unfold linkEntry. rewrite Hr, Hs.
  pose proof (scoreLink_bounds (url e) (url next)).
  repeat split; try lia. exists o, r. auto.
Qed.

Lemma provenance_iteration (st st' : State) :
  provenance config st -> iteration st = Returns st' -> provenance config st'.
Proof.
  intros [Hq Hv] Hi.
  destruct (iteration_queue _ _ Hi) as (next & rest & new & Hs & Eq & Hnew & Ev).
  pose proof (sortQueue_perm (queue st)) as Hperm. rewrite Hs in Hperm.
  assert (Hnext : seedEntry config next \/ linkEntry config next).
  { apply Hq. eapply Permutation_in; [exact Hperm|]. now left. }
  split.
  - intros e. rewrite Eq, in_app_iff. intros [He|He].
    + apply Hq. eapply Permutation_in; [exact Hperm|]. now right.
    + right. apply (added_is_link next); auto.
  - intros u Hu. destruct Ev as [Ev|Ev]; rewrite Ev in Hu; [now apply Hv|].
    apply elem_of_union in Hu as [Hu|Hu]; [|now apply Hv].
    apply elem_of_singleton in Hu. subst u. now exists next.
Qed.

Lemma provenance_seeded : provenance config (seedQueue config initial).
Proof.
  rewrite seedQueue_initial. split.
  - intros e. fields. intros He. apply in_map_iff in He as (u & <- & Hu).
    left. now exists u.
  - fields. intros u Hu. now apply not_elem_of_empty in Hu.
Qed.

Lemma crawlLoop_keeps (P : State -> Prop) :
  (forall st st', P st -> iteration st = Returns st' -> P st') ->
  forall fuel st st', P st -> crawlLoop fuel st = Some (Returns st') -> P st'.
Proof.
  intros Hkeep. induction fuel as [|fuel IH]; intros st st' HP; cbn [Crawler.crawlLoop];
    destruct (Crawler.loopCondition config st); try discriminate;
    try (now intros [= <-]).
  destruct (iteration st) as [st1|] eqn:Hi; [|discriminate].
  apply IH. now apply (Hkeep st).
Qed.








(** The queue left by a crawl holds only seed entries and link entries. *)
Theorem crawl_queue_well_formed (fuel : nat) (st' : State) :
  run config extractorRegistry userAgent fetch fuel = Some (Returns st') ->
  forall e, In e (queue st') ->
    20 <= score e <= 100 /\ 0 <= depth e /\ (seedEntry config e \/ linkEntry config e).
Proof.
  intros Hrun e He.
  destruct (crawlLoop_keeps (provenance config) provenance_iteration fuel _ _
              provenance_seeded Hrun) as [Hq _].
  destruct (Hq e He) as [(u & Hu & ->)|Hl].
  - cbn. repeat split; try lia. left. now exists u.
  - pose proof Hl as (Hd & Hs & _). repeat split; try lia. now right.
Qed.

End CrawlerQueue.

(** ** Exceptions, order and counts of the crawl *)

Section CrawlerTotal.

Import Crawler Steps.

Variable config : CrawlConfig.
Variable extractorRegistry : ExtractorRegistry.
Variable userAgent : string.
Variable fetch : Fetch.

Local Abbreviation iteration := (Crawler.iteration config extractorRegistry userAgent fetch).
Local Abbreviation crawlLoop := (Crawler.crawlLoop config extractorRegistry userAgent fetch).







(** *** The pop is best-first *)

Lemma insertByScore_sorted (x : PrioritizedUrl) (q : list PrioritizedUrl) :
  StronglySorted (fun a b => score b <= score a) q ->
  StronglySorted (fun a b => score b <= score a) (insertByScore x q).
Proof.
  induction 1 as [|y q Hq IH Hy]; cbn [insertByScore].
  - constructor; constructor.
  - destruct (score y <=? score x) eqn:E.
    + apply Z.leb_le in E. constructor; [now constructor|].
      constructor; [exact E|]. eapply List.Forall_impl; [|exact Hy]. cbn. intros; lia.
    + apply Z.leb_gt in E. constructor; [exact IH|].
      eapply Permutation_Forall; [symmetry; apply insertByScore_perm|].
      constructor; [lia | exact Hy].
Qed.

Lemma sortQueue_sorted (q : list PrioritizedUrl) :
  StronglySorted (fun a b => score b <= score a) (sortQueue q).
Proof.
  induction q as [|x q IH]; cbn; [constructor|]. now apply insertByScore_sorted.
Qed.

(** The entry that the loop pops has the highest score of the queue, and the
    pop keeps every other entry. *)
Theorem pop_takes_the_best (q : list PrioritizedUrl) (next : PrioritizedUrl)
    (rest : list PrioritizedUrl) :
  sortQueue q = next :: rest ->
  (forall e, In e q -> score e <= score next)
  /\ Permutation q (next :: rest)
  /\ StronglySorted (fun a b => score b <= score a) rest.
Proof.
  intros Hs. pose proof (sortQueue_sorted q) as Hsorted. rewrite Hs in Hsorted.
  pose proof (sortQueue_perm q) as Hperm. rewrite Hs in Hperm.
  apply StronglySorted_inv in Hsorted as [Hrest Hhead].
  split; [|split; [now symmetry | exact Hrest]].
  intros e He. apply (Permutation_in _ (Permutation_sym Hperm)) in He as [<-|He]; [lia|].
  rewrite List.Forall_forall in Hhead. now apply Hhead.
Qed.

(** Entries of equal score leave the queue in the order they entered it. *)
Theorem sort_keeps_ties_in_order (q : list PrioritizedUrl) (s : Z) :
  (forall e, In e q -> score e = s) -> sortQueue q = q.
Proof.
  induction q as [|x q IH]; intros H; [reflexivity|].
  cbn [sortQueue fold_right]. fold (sortQueue q).
  rewrite IH by (intros e He; apply H; now right).
  destruct q as [|y q]; [reflexivity|]. cbn [insertByScore].
  rewrite (H x), (H y) by (cbn; auto). now rewrite Z.leb_refl.
Qed.

(** *** Counts of the metadata *)

Lemma NoDup_stdpp {A} (l : list A) : List.NoDup l -> NoDup l.
Proof.
  induction 1 as [|x l Hx _ IH]; constructor; [|exact IH].
  now rewrite list_elem_of_In.
Qed.

Lemma length_le_size (l : list string) (X : gset string) :
  List.NoDup l -> (forall u, In u l -> u ∈ X) -> (length l <= size X)%nat.
Proof.
  intros Hnd Hin. rewrite <- (size_list_to_set (C := gset string) l) by now apply NoDup_stdpp.
  apply subseteq_size. intros u Hu. apply elem_of_list_to_set in Hu.
  apply Hin. now apply list_elem_of_In.
Qed.

(** The metadata counts are coherent: no negative number of skipped pages,
    as many loaded pages as files, never an empty error list, and no more
    errors than visited URLs. *)
Theorem crawl_metadata_counts (fuel : nat) (result : LoadedSource.t) (data : CrawlMetadata) :
  crawl config extractorRegistry userAgent fetch fuel = Some (Returns result) ->
  crawlData (LoadedSource.metadata result) = Some data ->
  0 <= pagesSkipped data
  /\ pagesLoaded data = LoadedSource.fileCount result
  /\ actualTokens data = LoadedSource.totalTokens result
  /\ forall errs, reportedErrors data = Some errs ->
                  errs <> [] /\ Z.of_nat (length errs) <= pagesSkipped data + pagesLoaded data.
Proof.
  unfold crawl.
  destruct (run config extractorRegistry userAgent fetch fuel) as [[st|]|] eqn:Hrun;
    try discriminate.
  intros [= <-]. cbn [buildResult LoadedSource.metadata crawlData]. intros [= <-].
  cbn [pagesSkipped pagesLoaded actualTokens reportedErrors buildResult
       LoadedSource.fileCount LoadedSource.totalTokens].
  destruct (crawlLoop_invariant _ _ _ _ deduplicated
              (fun st st1 H _ Hs => deduplicated_step _ _ _ st st1 H Hs)
              fuel _ _ (deduplicated_seeded config) Hrun) as [[Hp He _ Hpv Hev _] _].
  pose proof (length_le_size _ _ Hp Hpv) as Hpages. rewrite length_map in Hpages.
  pose proof (length_le_size _ _ He Hev) as Herrs. rewrite length_map in Herrs.
  repeat split; try lia.
  - destruct (errors st); cbn in H; [discriminate H|]. injection H as <-. discriminate.
  - destruct (0 <? Z.of_nat (length (errors st))); [|discriminate H].
    injection H as <-. lia.
Qed.

End CrawlerTotal.


(** ** The robots cache *)

Section CrawlerRobots.

Import Crawler Steps.

Variable config : CrawlConfig.
Variable extractorRegistry : ExtractorRegistry.
Variable userAgent : string.
Variable fetch : Fetch.

Local Abbreviation iteration := (Crawler.iteration config extractorRegistry userAgent fetch).

Lemma robotsRequests_app (a b : list Request) :
  robotsRequests (a ++ b) = (robotsRequests a ++ robotsRequests b)%list.
Proof. apply flat_map_app. Qed.

Lemma checkRobots_log (u : string) (st : State) (allowed : bool) (st1 : State) :
  checkRobots userAgent fetch u st = Returns (allowed, st1) ->
  st1 = st
  \/ exists o c,
      robotsCache st !! o = None
      /\ st1 = setRobotsCache (<[o := c]> (robotsCache st))
                 (logRequest (RobotsRequest (o ++ "/robots.txt")) st).
Proof.
  unfold Crawler.checkRobots.
  destruct (newURL u) as [urlObj|]; cbn [mbind completion_bind]; [|discriminate].
  set (origin := URL.origin (urlOf urlObj)).
  destruct (robotsCache st !! origin) as [checker|] eqn:Hc.
  - rewrite Hc. destruct (Robots.isAllowed checker u); cbn; [|discriminate].
    intros [= _ <-]. now left.
  - fields. rewrite lookup_insert_eq.
    destruct (Robots.isAllowed _ u); cbn; [|discriminate].
    intros [= _ <-]. right. eauto.
Qed.

Lemma fetchAndAccept_robots (next : PrioritizedUrl) (st : State) :
  robotsCache (fetchAndAccept config extractorRegistry fetch next st) = robotsCache st
  /\ robotsRequests (requests (fetchAndAccept config extractorRegistry fetch next st))
     = robotsRequests (requests st).
Proof.
  assert (Hlog : robotsRequests (requests st ++ [PageRequest (url next)])
                 = robotsRequests (requests st)).
  { rewrite robotsRequests_app. cbn. now rewrite app_nil_r. }
  unfold Crawler.fetchAndAccept.
  destruct (loadPage _ _ _) as [page|]; fields; [|auto].
  destruct (_ <=? _); fields; [|auto].
  destruct (pageLinks page) as [ls|]; fields; [|auto].
  destruct (queueLinks config ls _ _ _) as [st2|] eqn:Hq2; fields; [|auto].
  destruct (queueLinks_entries _ _ _ _ _ Hq2) as (? & -> & _). fields. auto.
Qed.

Lemma iteration_robots (st st' : State) :
  iteration st = Returns st' ->
  (robotsCache st' = robotsCache st
   /\ robotsRequests (requests st') = robotsRequests (requests st))
  \/ exists o c,
      robotsCache st !! o = None
      /\ robotsCache st' = <[o := c]> (robotsCache st)
      /\ robotsRequests (requests st')
         = (robotsRequests (requests st) ++ [(o ++ "/robots.txt")%string])%list.
Proof.
  unfold Crawler.iteration.
  destruct (sortQueue (queue st)) as [|next rest]; [discriminate|].
  fields. destruct (bool_decide _).
  - intros [= <-]. left. fields. auto.
  - destruct (respectRobotsTxt config).
    + destruct (checkRobots userAgent fetch (url next) _) as [[allowed st1]|] eqn:Hc;
        cbn [mbind completion_bind]; [|discriminate].
      assert (Hafter : forall st2,
                 robotsCache st2 = robotsCache st1 ->
                 robotsRequests (requests st2) = robotsRequests (requests st1) ->
                 (robotsCache st2 = robotsCache st
                  /\ robotsRequests (requests st2) = robotsRequests (requests st))
                 \/ exists o c,
                     robotsCache st !! o = None
                     /\ robotsCache st2 = <[o := c]> (robotsCache st)
                     /\ robotsRequests (requests st2)
                        = (robotsRequests (requests st) ++ [(o ++ "/robots.txt")%string])%list).
      { intros st2 Ec Er. rewrite Ec, Er.
        destruct (checkRobots_log _ _ _ _ Hc) as [->|(o & c & Hnone & ->)]; fields.
        - left. auto.
        - right. exists o, c. rewrite robotsRequests_app. cbn. auto. }
      destruct allowed; cbn [negb]; intros [= <-].
      * destruct (fetchAndAccept_robots next st1) as [Ec Er]. now apply Hafter.
      * apply Hafter; reflexivity.
    + intros [= <-]. left.
      destruct (fetchAndAccept_robots next
                  (setVisited ({[url next]} ∪ visited st) (setQueue rest st))) as [Ec Er].
      fields. auto.
Qed.

Lemma append_suffix_inj (s a b : string) : a ++ s = b ++ s -> a = b.
Proof.
  intros H. apply (f_equal JS.reverse) in H. rewrite !reverse_append in H.
  apply String.app_inj in H.
  rewrite <- (reverse_involutive a), <- (reverse_involutive b). now rewrite H.
Qed.

Lemma robotsOnce_iteration (st st' : State) :
  robotsOnce st -> iteration st = Returns st' -> robotsOnce st'.
Proof.
  intros (origins & Hnd & Hlog & Hdom) Hi.
  destruct (iteration_robots _ _ Hi) as [[Ec Er]|(o & c & Hnone & Ec & Er)].
  - exists origins. rewrite Ec, Er. auto.
  - exists (origins ++ [o])%list. rewrite Ec, Er, Hlog, map_app. cbn [map].
    split; [|split; [reflexivity|]].
    + apply NoDup_snoc; [exact Hnd|]. intros Hin. apply Hdom in Hin as [x Hx]. congruence.
    + intros o'. rewrite in_app_iff, Hdom. cbn [In].
      destruct (decide (o = o')) as [<-|Hne].
      * rewrite lookup_insert_eq. split; [eauto | auto].
      * rewrite lookup_insert_ne by exact Hne. tauto.
Qed.

Lemma robotsOnce_seeded : robotsOnce (seedQueue config initial).
Proof.
  rewrite seedQueue_initial. exists []. unfold initial. fields.
  split; [constructor|]. split; [reflexivity|].
  intros o. rewrite lookup_empty. split; [intros [] | intros [x Hx]; discriminate Hx].
Qed.

(** A crawl fetches the robots.txt of an origin at most once, and only the
    robots.txt of the origins in its cache. *)
Theorem robots_fetched_once_per_origin (fuel : nat) (st' : State) :
  run config extractorRegistry userAgent fetch fuel = Some (Returns st') ->
  List.NoDup (robotsRequests (requests st'))
  /\ (forall r, In r (robotsRequests (requests st')) ->
                exists o, r = o ++ "/robots.txt" /\ is_Some (robotsCache st' !! o))
  /\ length (robotsRequests (requests st')) = size (robotsCache st')
  /\ (respectRobotsTxt config = false -> robotsRequests (requests st') = []).
Proof.
  intros Hrun.
  destruct (crawlLoop_keeps config extractorRegistry userAgent fetch
              robotsOnce robotsOnce_iteration fuel _ _ robotsOnce_seeded Hrun)
    as (origins & Hnd & Hlog & Hdom).
  rewrite Hlog. split; [|split; [|split]].
  - apply Finite.Injective_map_NoDup; [|exact Hnd].
    intros a b. apply append_suffix_inj.
  - intros r Hr. apply in_map_iff in Hr as (o & <- & Ho). exists o. split; [reflexivity|].
    now apply Hdom.
  - rewrite length_map.
    rewrite <- (size_list_to_set (C := gset string) origins) by now apply NoDup_stdpp.
    rewrite <- size_dom. f_equal. apply set_eq. intros o.
    rewrite elem_of_list_to_set, list_elem_of_In, Hdom, elem_of_dom. reflexivity.
  - intros Hoff.
    assert (Hkeep : forall st st1, robotsRequests (requests st) = [] ->
                    iteration st = Returns st1 ->
                    robotsRequests (requests st1) = []).
    { intros st st1 Hst. unfold Crawler.iteration. rewrite Hoff.
      destruct (sortQueue (queue st)) as [|next rest]; [discriminate|].
      fields. destruct (bool_decide _); intros [= <-]; fields; [exact Hst|].
      destruct (fetchAndAccept_robots next
                  (setVisited ({[url next]} ∪ visited st) (setQueue rest st))) as [_ ->].
      exact Hst. }
    rewrite <- Hlog.
    apply (crawlLoop_keeps config extractorRegistry userAgent fetch
             (fun st => robotsRequests (requests st) = []) Hkeep fuel _ _) in Hrun; [exact Hrun|].
    rewrite seedQueue_initial. reflexivity.
Qed.

End CrawlerRobots.

(** ** The invariants at work on the running scenarios *)

Lemma crawl_total_is_sum_witness :
  LoadedSource.totalTokens
    (Scenario.resultOf (Crawler.crawl Scenario.budget (Scenario.pagesOf 60 [])
                          Scenario.robotUserAgent Scenario.openSite 10%nat))
  = sumZ (map FileInfo.tokenEstimate
            (LoadedSource.files
               (Scenario.resultOf (Crawler.crawl Scenario.budget (Scenario.pagesOf 60 [])
                                     Scenario.robotUserAgent Scenario.openSite 10%nat)))).
Proof.
  apply (crawl_total_is_sum Scenario.budget (Scenario.pagesOf 60 [])
           Scenario.robotUserAgent Scenario.openSite 10%nat).
  vm_compute. reflexivity.
Defined.

Lemma crawl_files_within_limits_witness :
  LoadedSource.fileCount
    (Scenario.resultOf (Crawler.crawl Scenario.capped (Scenario.pagesOf 60 Scenario.threeLinks)
                          Scenario.robotUserAgent Scenario.site 10%nat))
  <= Z.max 0 (Crawler.maxPages Scenario.capped).
Proof.
  apply (crawl_files_within_limits Scenario.capped (Scenario.pagesOf 60 Scenario.threeLinks)
           Scenario.robotUserAgent Scenario.site 10%nat).
  vm_compute. reflexivity.
Defined.

Lemma crawl_overshoot_is_one_page_witness :
  LoadedSource.totalTokens
    (Scenario.resultOf (Crawler.crawl Scenario.budget (Scenario.pagesOf 60 [])
                          Scenario.robotUserAgent Scenario.openSite 10%nat))
  - 60 < 100.
Proof.
  refine (crawl_overshoot_is_one_page Scenario.budget (Scenario.pagesOf 60 [])
            Scenario.robotUserAgent Scenario.openSite 10%nat _
            [ {| FileInfo.path := "https://a.com/p1"; FileInfo.content := Scenario.textOf 240;
                 FileInfo.size := 0; FileInfo.tokenEstimate := 60;
                 FileInfo.mimeType := Some "text/html" |} ]
            {| FileInfo.path := "https://a.com/p2"; FileInfo.content := Scenario.textOf 240;
               FileInfo.size := 0; FileInfo.tokenEstimate := 60;
               FileInfo.mimeType := Some "text/html" |} _ _).
  - vm_compute. reflexivity.
  - vm_compute. reflexivity.
Defined.

Lemma queueLinks_only_extends_queue_witness :
  exists new,
    Crawler.queue
      (Scenario.stateAfter
         (Crawler.queueLinks Scenario.capped Scenario.threeLinks "https://a.com/" 0
            Crawler.initial))
    = (Crawler.queue Crawler.initial ++ new)%list
    /\ (length new <= length Scenario.threeLinks)%nat.
Proof.
  apply (queueLinks_only_extends_queue Scenario.capped
           {| Crawler.url := "https://a.com/"; Crawler.score := 100; Crawler.depth := 0;
              Crawler.referrer := "" |}
           Scenario.threeLinks Crawler.initial).
  vm_compute. reflexivity.
Defined.


Lemma crawl_queue_well_formed_witness :
  20 <= Crawler.score (Examples.firstQueued Scenario.capped) <= 100
  /\ 0 <= Crawler.depth (Examples.firstQueued Scenario.capped)
  /\ (seedEntry Scenario.capped (Examples.firstQueued Scenario.capped)
      \/ linkEntry Scenario.capped (Examples.firstQueued Scenario.capped)).
Proof.
  refine (crawl_queue_well_formed Scenario.capped (Scenario.pagesOf 60 Scenario.threeLinks)
            Scenario.robotUserAgent Scenario.site 10%nat _ _ _ _).
  - vm_compute. reflexivity.
  - vm_compute. left. reflexivity.
Defined.

Lemma pop_takes_the_best_witness :
  Crawler.score (Examples.found "https://a.com/blog/x" 30)
  <= Crawler.score (Examples.found "https://a.com/docs/a" 80).
Proof.
  refine (proj1 (pop_takes_the_best
                   [Examples.found "https://a.com/blog/x" 30;
                    Examples.found "https://a.com/docs/a" 80;
                    Examples.found "https://a.com/docs/b" 80]
                   (Examples.found "https://a.com/docs/a" 80)
                   [Examples.found "https://a.com/docs/b" 80;
                    Examples.found "https://a.com/blog/x" 30] _) _ _).
  - vm_compute. reflexivity.
  - left. reflexivity.
Defined.

Lemma sort_keeps_ties_in_order_witness :
  Crawler.sortQueue (Crawler.queue (Crawler.seedQueue Scenario.budget Crawler.initial))
  = Crawler.queue (Crawler.seedQueue Scenario.budget Crawler.initial).
Proof.
  apply (sort_keeps_ties_in_order _ 100).
  intros e He. vm_compute in He.
  destruct He as [<-|[<-|[<-|[]]]]; reflexivity.
Defined.

Lemma crawl_metadata_counts_witness :
  0 <= pagesSkipped
         (Scenario.crawlDataOf
            (Scenario.resultOf (Crawler.crawl Scenario.failingSeeds (Scenario.pagesOf 60 [])
                                  Scenario.robotUserAgent Scenario.brokenSite 10%nat))).
Proof.
  refine (proj1 (crawl_metadata_counts Scenario.failingSeeds (Scenario.pagesOf 60 [])
                   Scenario.robotUserAgent Scenario.brokenSite 10%nat _ _ _ _)).
  - vm_compute. reflexivity.
  - vm_compute. reflexivity.
Defined.

Lemma robots_fetched_once_per_origin_witness :
  length (robotsRequests
            (Crawler.requests
               (Scenario.finalState (Crawler.run Scenario.politeBudget (Scenario.pagesOf 60 [])
                                       Scenario.robotUserAgent Scenario.site 10%nat))))
  = size (Crawler.robotsCache
            (Scenario.finalState (Crawler.run Scenario.politeBudget (Scenario.pagesOf 60 [])
                                    Scenario.robotUserAgent Scenario.site 10%nat))).
Proof.
  refine (proj1 (proj2 (proj2 (robots_fetched_once_per_origin Scenario.politeBudget
                                 (Scenario.pagesOf 60 []) Scenario.robotUserAgent
                                 Scenario.site 10%nat _ _)))).
  vm_compute. reflexivity.
Defined.

(** ** More on the robots checker *)

(** For a loaded checker and a URL that parses, [isAllowed] answers false
    exactly when some applicable group has a matching disallow pattern that no
    longer matching allow pattern overrides, and true otherwise. *)
Theorem robots_answer_characterised (c : Robots.RobotsChecker) (u : string) (o : URLObject) :
  Robots.loaded c = true ->
  newURL u = Returns o ->
  let refused :=
    exists rule d,
      In rule (Robots.rules c)
      /\ Robots.applicable (Robots.crawlerUserAgent c) rule = true
      /\ In d (Robots.disallow rule)
      /\ Robots.pathMatches (URL.pathname (urlOf o)) d = true
      /\ forall a, In a (Robots.allow rule) ->
                   Robots.pathMatches (URL.pathname (urlOf o)) a = true ->
                   JS.len a <= JS.len d in
  (Robots.isAllowed c u = Returns false <-> refused)
  /\ (Robots.isAllowed c u = Returns true <-> ~ refused).
Proof.
  intros Hl Hu refused. pose proof (isAllowed_refuses_iff c u o Hl Hu) as H.
  fold refused in H. split; [exact H|].
  split.
  - intros Ht Hr. apply H in Hr. congruence.
  - intros Hn. apply (isAllowed_otherwise c u o Hu). intros Hf. now apply Hn, H.
Qed.

Lemma robots_answer_characterised_witness :
  exists rule d,
    In rule (Robots.rules Scenario.privateRules)
    /\ Robots.applicable (Robots.crawlerUserAgent Scenario.privateRules) rule = true
    /\ In d (Robots.disallow rule)
    /\ Robots.pathMatches "/private$" d = true
    /\ forall a, In a (Robots.allow rule) ->
                 Robots.pathMatches "/private$" a = true -> JS.len a <= JS.len d.
Proof.
  refine (proj1 (proj1 (robots_answer_characterised Scenario.privateRules
                          "https://example.com/private$"
                          {| urlOf := URL.mk "https" "" "" (Some "example.com") None
                                             (URL.Segments ["private$"]) None None;
                             searchParams := [] |} _ _)) _).
  - vm_compute. reflexivity.
  - vm_compute. reflexivity.
  - vm_compute. reflexivity.
Defined.

(** Fail-open: when the robots.txt request throws or answers outside
    200..299, the loaded checker has no rule and allows every URL that
    parses. *)
Theorem robots_fail_open (fetch : Fetch) (origin userAgent u : string) :
  (forall response, fetch (origin ++ "/robots.txt") = Returns response -> ok response = false) ->
  URL.parse u <> None ->
  Robots.rules (Robots.load fetch (Robots.new origin userAgent)) = []
  /\ Robots.loaded (Robots.load fetch (Robots.new origin userAgent)) = true
  /\ Robots.isAllowed (Robots.load fetch (Robots.new origin userAgent)) u = Returns true.
Proof.
  intros Hfail Hu. rewrite (load_fails_open fetch origin userAgent Hfail).
  split; [reflexivity|]. split; [reflexivity|].
  unfold Robots.isAllowed, newURL. cbn [Robots.loaded negb Robots.rules].
  destruct (URL.parse u); [|contradiction]. reflexivity.
Qed.

Lemma robots_fail_open_witness :
  Robots.isAllowed (Robots.load Scenario.brokenSite
                      (Robots.new "https://a.com" Scenario.robotUserAgent))
                   "https://a.com/private" = Returns true.
Proof.
  apply robots_fail_open.
  - intros response [= <-]. reflexivity.
  - vm_compute. discriminate.
Defined.

(** A URL that does not parse is allowed by a checker that is not loaded
    and makes a loaded checker throw. *)
Lemma robots_unparseable_url (c : Robots.RobotsChecker) (u : string) :
  URL.parse u = None ->
  Robots.isAllowed c u
  = if Robots.loaded c then Throws "Invalid URL" else Returns true.
Proof.
  intros Hu. unfold Robots.isAllowed. destruct (Robots.loaded c); [|reflexivity].
  cbn [negb]. now rewrite (newURL_fails u Hu).
Qed.

(** [load] loads once: a second call, with whatever network, changes
    nothing; a first call marks the checker loaded and keeps its origin and
    user agent. *)
Theorem robots_load_once (fetch fetch' : Fetch) (c : Robots.RobotsChecker) :
  Robots.load fetch' (Robots.load fetch c) = Robots.load fetch c
  /\ Robots.loaded (Robots.load fetch c) = true
  /\ Robots.origin (Robots.load fetch c) = Robots.origin c
  /\ Robots.crawlerUserAgent (Robots.load fetch c) = Robots.crawlerUserAgent c
  /\ (Robots.loaded c = true -> Robots.load fetch c = c).
Proof.
  unfold Robots.load. destruct (Robots.loaded c) eqn:Hl.
  - rewrite Hl. auto.
  - cbn [Robots.loaded Robots.origin Robots.crawlerUserAgent]. repeat split; auto.
    discriminate.
Qed.

(** *** Parsing robots.txt *)

Lemma truthy_nonempty (s : string) : LinkScorer.truthy s = true -> s <> "".
Proof. intros H ->. discriminate H. Qed.

Lemma parseLine_patterns (st : list Robots.RobotsRule * option Robots.RobotsRule) (line : string) :
  (forall r, In r st.1 -> patternsPresent r) ->
  (forall r, st.2 = Some r -> patternsPresent r) ->
  (forall r, In r (Robots.parseLine st line).1 -> patternsPresent r)
  /\ (forall r, (Robots.parseLine st line).2 = Some r -> patternsPresent r).
Proof.
  destruct st as [rs currentRule]. cbn [fst snd]. intros Hrs Hcur.
  assert (Hpush : forall r, In r (Robots.pushRule currentRule rs) -> patternsPresent r).
  { intros r. unfold Robots.pushRule. destruct currentRule as [r0|]; [|apply Hrs].
    rewrite in_app_iff. intros [H|[<-|[]]]; auto. }
  unfold Robots.parseLine.
  destruct (_ || _); [auto|].
  destruct (JS.cutAt ":" _) as [[before after]|]; [|auto].
  destruct (String.eqb _ "user-agent").
  { cbn [fst snd]. split; [exact Hpush|]. intros r [= <-]. split; intros p []. }
  destruct (String.eqb _ "allow").
  { destruct currentRule as [r0|]; [|auto].
    destruct (LinkScorer.truthy (JS.trim after)) eqn:Hv; [|auto].
    cbn [fst snd]. split; [exact Hrs|]. intros r [= <-].
    destruct (Hcur r0 eq_refl) as [Ha Hd]. split; cbn; [|exact Hd].
    intros p. rewrite in_app_iff. intros [H|[<-|[]]]; auto using truthy_nonempty. }
  destruct (String.eqb _ "disallow"); [|auto].
  destruct currentRule as [r0|]; [|auto].
  destruct (LinkScorer.truthy (JS.trim after)) eqn:Hv; [|auto].
  cbn [fst snd]. split; [exact Hrs|]. intros r [= <-].
  destruct (Hcur r0 eq_refl) as [Ha Hd]. split; cbn; [exact Ha|].
  intros p. rewrite in_app_iff. intros [H|[<-|[]]]; auto using truthy_nonempty.
Qed.

Lemma parseLines_patterns (lines : list string)
    (st : list Robots.RobotsRule * option Robots.RobotsRule) :
  (forall r, In r st.1 -> patternsPresent r) ->
  (forall r, st.2 = Some r -> patternsPresent r) ->
  (forall r, In r (fold_left Robots.parseLine lines st).1 -> patternsPresent r)
  /\ (forall r, (fold_left Robots.parseLine lines st).2 = Some r -> patternsPresent r).
Proof.
  revert st. induction lines as [|line lines IH]; intros st H1 H2; cbn [fold_left]; [auto|].
  destruct (parseLine_patterns st line H1 H2). now apply IH.
Qed.

(** [parse] keeps no empty pattern (an empty [Disallow:] adds nothing), so
    [pathMatches] never meets the empty pattern on parsed rules; and a text
    without any line yields no rule. *)
Theorem robots_parse_patterns (text : string) :
  (forall r, In r (Robots.parse text) ->
     (forall p, In p (Robots.allow r) -> p <> "")
     /\ (forall p, In p (Robots.disallow r) -> p <> ""))
  /\ Robots.parse "" = [].
Proof.
  split; [|reflexivity].
  unfold Robots.parse.
  destruct (parseLines_patterns (JS.split "010" text) ([], None)) as [H1 H2].
  { intros r []. }
  { intros r [=]. }
  destruct (fold_left _ _ _) as [rs currentRule]. cbn [fst snd] in *.
  intros r. change (In r (Robots.pushRule currentRule rs) -> patternsPresent r).
  unfold Robots.pushRule. destruct currentRule as [r0|]; [|apply H1].
  rewrite in_app_iff. intros [H|[<-|[]]]; auto.
Qed.

(** *** Matching *)

(** The regular expression built for a pattern always compiles: the [catch]
    of [pathMatches] is dead code, and the answer is the test of the pattern's
    terms, anchored at the start unless the pattern ends with [$]. *)
Theorem pathMatches_never_falls_back (pathname pattern : string) :
  RegExp.compile (Robots.regexSource pattern)
  = Some {| RegExp.anchored := negb (JS.endsWith (translate pattern) "$");
            RegExp.terms := termsOf pattern |}
  /\ Robots.pathMatches pathname pattern
     = if String.eqb pattern "" then false
       else RegExp.test {| RegExp.anchored := negb (JS.endsWith (translate pattern) "$");
                           RegExp.terms := termsOf pattern |} pathname.
Proof.
  split; [apply regexSource_compiles|].
  destruct pattern as [|c p]; [reflexivity|].
  now rewrite pathMatches_regex by discriminate.
Qed.

Lemma glob_plain (p : string) :
  URL.allS (fun x => negb (Ascii.eqb x "*")) p = true ->
  forall s, RobotsSpec.glob false p s = JS.startsWith s p.
Proof.
  unfold JS.startsWith.
  induction p as [|c p IH]; intros Hp s; [now destruct s|].
  cbn [URL.allS] in Hp. apply andb_true_iff in Hp as [Hc Hp].
  apply negb_true_iff in Hc. cbn [RobotsSpec.glob]. rewrite Hc.
  destruct s as [|d s]; [reflexivity|].
  cbn [String.prefix]. destruct (ascii_dec c d) as [<-|Hne].
  - rewrite Ascii.eqb_refl. cbn [andb]. now apply IH.
  - apply Ascii.eqb_neq in Hne. now rewrite Hne.
Qed.

(** On a path without line breaks, a pattern without [$] matches as a glob
    from the start of the path, and a pattern without [*] and [$] matches
    exactly the paths it is a prefix of. *)
Theorem pathMatches_prefix_semantics (pathname pattern : string) :
  URL.allS (fun c => negb (RegExp.isLineTerminator c)) pathname = true ->
  URL.allS (fun x => negb (Ascii.eqb x "$")) pattern = true ->
  pattern <> "" ->
  Robots.pathMatches pathname pattern = RobotsSpec.glob false pattern pathname
  /\ (URL.allS (fun x => negb (Ascii.eqb x "*")) pattern = true ->
      Robots.pathMatches pathname pattern = JS.startsWith pathname pattern).
Proof.
  intros Hs Hd Hne.
  assert (E : Robots.pathMatches pathname pattern = RobotsSpec.glob false pattern pathname).
  { rewrite (pathMatches_without_dollar pathname pattern Hd Hs).
    unfold RobotsSpec.pathMatches.
    replace (LinkScorer.truthy pattern) with true by (destruct pattern; [contradiction|reflexivity]).
    cbn [negb]. now rewrite (endsWith_char_absent _ _ Hd). }
  split; [exact E|]. intros Hstar. rewrite E. now apply glob_plain.
Qed.

Lemma pathMatches_prefix_semantics_witness :
  Robots.pathMatches "/admin/users" "/admin" = JS.startsWith "/admin/users" "/admin".
Proof.
  apply (proj2 (pathMatches_prefix_semantics "/admin/users" "/admin"
                  eq_refl eq_refl ltac:(discriminate))).
  reflexivity.
Defined.

(** ** Query parameters through normalization *)

(** The query that [normalizeUrl] writes back parses to exactly the
    parameters of the input whose names are not in the tracking list: same
    names, same values, same order, whatever characters they hold. *)
Theorem normalizeUrl_keeps_other_parameters (o : URLObject) :
  URL.parseUrlencoded (default "" (URL.query (urlOf (LinkScorer.normalizeUrlObject o))))
  = filter (fun p => p.1 ∉ LinkScorer.trackingParams) (searchParams o)
  /\ searchParams (LinkScorer.normalizeUrlObject o)
     = filter (fun p => p.1 ∉ LinkScorer.trackingParams) (searchParams o).
Proof.
  destruct (normalizeUrlObject_query o) as (Hs & Hq & _). split; [|exact Hs].
  rewrite Hq.
  set (kept := filter (fun p => p.1 ∉ LinkScorer.trackingParams) (searchParams o)).
  pose proof (parseUrlencoded_serializeUrlencoded kept) as Hrt.
  destruct (String.eqb (URL.serializeUrlencoded kept) "") eqn:E.
  - apply String.eqb_eq in E. rewrite E in Hrt. cbn [default]. exact Hrt.
  - exact Hrt.
Qed.

(** ** Pages, files and combined sources *)

Section CrawlerPages.

Import Crawler Steps.

Variable config : CrawlConfig.
Variable extractorRegistry : ExtractorRegistry.
Variable userAgent : string.
Variable fetch : Fetch.

(** [estimateTokens] is the ceiling of a quarter of the length: four
    characters or fewer per token, nothing for the empty text only. *)
Theorem estimateTokens_is_ceiling (t : string) :
  4 * estimateTokens t - 3 <= JS.len t <= 4 * estimateTokens t
  /\ (estimateTokens t = 0 <-> t = "")
  /\ forall t', JS.len t <= JS.len t' -> estimateTokens t <= estimateTokens t'.
Proof.
  unfold estimateTokens, JS.len.
  split; [|split].
  - pose proof (Z.div_mod (Z.of_nat (String.length t) + 3) 4 ltac:(lia)).
    pose proof (Z.mod_pos_bound (Z.of_nat (String.length t) + 3) 4 ltac:(lia)). lia.
  - split.
    + intros H. destruct t as [|c t]; [reflexivity|]. exfalso.
      cbn [String.length] in H.
      pose proof (Z.div_mod (Z.of_nat (S (String.length t)) + 3) 4 ltac:(lia)).
      pose proof (Z.mod_pos_bound (Z.of_nat (S (String.length t)) + 3) 4 ltac:(lia)). lia.
    + intros ->. reflexivity.
  - intros t' H. apply Z.div_le_mono; lia.
Qed.

Lemma allS_revS (p : ascii -> bool) (s acc : string) :
  URL.allS p (JS.revS acc s) = URL.allS p s && URL.allS p acc.
Proof.
  revert acc. induction s as [|c s IH]; intros acc; cbn [JS.revS URL.allS]; [reflexivity|].
  rewrite IH. cbn [URL.allS]. destruct (p c), (URL.allS p s), (URL.allS p acc); reflexivity.
Qed.

Lemma allS_trimStart (p : ascii -> bool) (s : string) :
  URL.allS p s = true -> URL.allS p (JS.trimStart s) = true.
Proof.
  induction s as [|c s IH]; [reflexivity|]. cbn [JS.trimStart]. intros H.
  destruct (JS.isSpace c); [|exact H].
  cbn [URL.allS] in H. apply andb_prop in H as [_ H]. now apply IH.
Qed.

Lemma allS_trim (p : ascii -> bool) (s : string) :
  URL.allS p s = true -> URL.allS p (JS.trim s) = true.
Proof.
  intros H. unfold JS.trim, JS.reverse.
  rewrite allS_revS, andb_true_r. apply allS_trimStart.
  rewrite allS_revS, andb_true_r. now apply allS_trimStart.
Qed.

Lemma splitWhen_head (isSep : ascii -> bool) (s : string) :
  URL.allS (fun c => negb (isSep c)) (hd "" (JS.splitWhen isSep s)) = true.
Proof.
  induction s as [|c s IH]; [reflexivity|]. cbn [JS.splitWhen].
  destruct (isSep c) eqn:Hc; [reflexivity|].
  destruct (JS.splitWhen isSep s) as [|piece pieces]; cbn [hd URL.allS] in *.
  - now rewrite Hc.
  - now rewrite Hc, IH.
Qed.

Lemma loadPage_response (u : string) (page : LoadedPage) :
  loadPage extractorRegistry fetch u = Returns page ->
  loadedFrom fetch u (file page).
Proof.
  unfold Crawler.loadPage, loadedFrom.
  destruct (fetch u) as [response|]; cbn [mbind completion_bind]; [|discriminate].
  destruct (ok response) eqn:Hok; cbn [negb]; [|discriminate].
  destruct (extractorRegistry _ _ u) as [extracted|];
    cbn [mbind completion_bind mret completion_ret]; [|discriminate].
  intros [= <-]. cbn [file FileInfo.path FileInfo.size FileInfo.tokenEstimate
                      FileInfo.content FileInfo.mimeType].
  split; [reflexivity|]. exists response. repeat split; auto.
  eexists. split; [reflexivity|]. apply allS_trim, splitWhen_head.
Qed.

Lemma loadedPages_step (st st' : State) :
  (forall p, In p (loadedContent st) -> loadedFrom fetch (pagePath p) (file p)) ->
  step config extractorRegistry fetch st st' ->
  forall p, In p (loadedContent st') -> loadedFrom fetch (pagePath p) (file p).
Proof.
  intros HP Hstep.
  destruct (step_effect _ _ _ _ _ Hstep) as (next & rest & _ & [[_ ->]|[_ [_ _ El _ _ _]]]).
  - exact HP.
  - destruct El as [(-> & _)|(page & -> & Hpath & _ & _ & Hload & _)]; [exact HP|].
    intros p Hp. apply in_app_iff in Hp as [Hp|[<-|[]]]; [now apply HP|].
    rewrite Hpath. now apply loadPage_response.
Qed.

(** Every file of a crawl result was read from a 2xx response to a request
    for its own path: its size is the length of that body, its token estimate
    the ceiling of a quarter of its content's length, and its MIME type
    carries no parameter. *)
Theorem crawl_files_are_loaded_pages (fuel : nat) (result : LoadedSource.t) :
  crawl config extractorRegistry userAgent fetch fuel = Some (Returns result) ->
  forall f, In f (LoadedSource.files result) ->
    exists response,
      fetch (FileInfo.path f) = Returns response
      /\ ok response = true
      /\ FileInfo.size f = JS.len (body response)
      /\ FileInfo.tokenEstimate f = estimateTokens (FileInfo.content f)
      /\ exists m, FileInfo.mimeType f = Some m
                   /\ URL.allS (fun c => negb (Ascii.eqb ";" c)) m = true.
Proof.
  unfold crawl.
  destruct (run config extractorRegistry userAgent fetch fuel) as [[st|]|] eqn:Hrun;
    try discriminate.
  intros [= <-] f Hf. cbn [buildResult LoadedSource.files] in Hf.
  apply in_map_iff in Hf as (p & <- & Hp).
  destruct (crawlLoop_invariant _ _ _ _
              (fun st => forall p, In p (loadedContent st) ->
                                   loadedFrom fetch (pagePath p) (file p))
              (fun st st1 H _ Hs => loadedPages_step st st1 H Hs)
              fuel _ _ ltac:(rewrite seedQueue_initial; fields; intros ? []) Hrun)
    as [Hall _].
  destruct (Hall p Hp) as (Hpath & response & Hf & Hok & Hsize & Htok & Hm).
  exists response. unfold pagePath in Hf. auto.
Qed.

End CrawlerPages.

Lemma crawl_files_are_loaded_pages_witness :
  exists response,
    Scenario.openSite "https://a.com/p1" = Returns response
    /\ ok response = true
    /\ 0 = JS.len (body response)
    /\ 60 = Crawler.estimateTokens (Scenario.textOf 240)
    /\ exists m, Some "text/html" = Some m
                 /\ URL.allS (fun c => negb (Ascii.eqb ";" c)) m = true.
Proof.
  refine (crawl_files_are_loaded_pages Scenario.budget (Scenario.pagesOf 60 [])
            Scenario.robotUserAgent Scenario.openSite 10%nat _ _
            {| FileInfo.path := "https://a.com/p1"; FileInfo.content := Scenario.textOf 240;
               FileInfo.size := 0; FileInfo.tokenEstimate := 60;
               FileInfo.mimeType := Some "text/html" |} _).
  - vm_compute. reflexivity.
  - vm_compute. left. reflexivity.
Defined.

(** *** handlers.ts *)

Lemma flat_map_length_sum {A B} (f : A -> list B) (l : list A) :
  Z.of_nat (length (flat_map f l)) = sumZ (map (fun x => Z.of_nat (length (f x))) l).
Proof.
  induction l as [|x l IH]; [reflexivity|].
  cbn [flat_map map sumZ]. rewrite length_app. lia.
Qed.

Lemma sumZ_append (a b : list Z) : sumZ (a ++ b) = sumZ a + sumZ b.
Proof. induction a as [|x a IH]; cbn [app sumZ]; lia. Qed.

Lemma sumZ_flat_map {A} (f : A -> list Z) (l : list A) :
  sumZ (flat_map f l) = sumZ (map (fun x => sumZ (f x)) l).
Proof.
  induction l as [|x l IH]; [reflexivity|].
  cbn [flat_map map sumZ]. rewrite sumZ_append. lia.
Qed.

Lemma sumZ_ext {A} (f g : A -> Z) (l : list A) :
  (forall x, In x l -> f x = g x) -> sumZ (map f l) = sumZ (map g l).
Proof.
  induction l as [|x l IH]; intros H; [reflexivity|].
  cbn [map sumZ]. rewrite (H x (or_introl eq_refl)), IH; [reflexivity|].
  intros y Hy. apply H. now right.
Qed.

(** Combining keeps the bookkeeping right: when each source counts its own
    files and sums their estimates, so does the combined source; its files
    are those of the sources in order, and the crawl metadata of the sources
    is not carried over. *)
Theorem combineLoadedSources_consistent (now : string) (sources : list LoadedSource.t)
    (sourceNames : list string) :
  (forall s, In s sources -> consistent s) ->
  consistent (Handlers.combineLoadedSources now sources sourceNames)
  /\ LoadedSource.files (Handlers.combineLoadedSources now sources sourceNames)
     = concat (map LoadedSource.files sources)
  /\ crawlData (LoadedSource.metadata (Handlers.combineLoadedSources now sources sourceNames))
     = None.
Proof.
  intros Hall. unfold Handlers.combineLoadedSources, consistent.
  cbn [LoadedSource.fileCount LoadedSource.totalTokens LoadedSource.files
       LoadedSource.metadata crawlData].
  rewrite !reduceSum_sumZ. repeat split.
  - rewrite flat_map_length_sum. apply sumZ_ext. intros s Hs. apply (Hall s Hs).
  - rewrite flat_map_concat_map, concat_map, <- flat_map_concat_map, sumZ_flat_map.
    rewrite map_map.
    apply sumZ_ext. intros s Hs. apply (Hall s Hs).
  - apply flat_map_concat_map.
Qed.

Lemma combineLoadedSources_consistent_witness :
  consistent
    (Handlers.combineLoadedSources "2025-01-01T00:00:00.000Z"
       [Scenario.resultOf (Crawler.crawl Scenario.budget (Scenario.pagesOf 60 [])
                             Scenario.robotUserAgent Scenario.openSite 10%nat);
        Scenario.source 0 0]
       ["docs"; "empty"]).
Proof.
  apply combineLoadedSources_consistent.
  intros s [<-|[<-|[]]]; vm_compute; split; reflexivity.
Defined.

(** ** The extractor registry *)

Lemma lowerChar_facts (c : ascii) :
  Ascii.eqb ";" (JS.lowerChar c) = Ascii.eqb ";" c
  /\ JS.isSpace (JS.lowerChar c) = JS.isSpace c
  /\ JS.lowerChar (JS.lowerChar c) = JS.lowerChar c.
Proof.
  destruct c as [[] [] [] [] [] [] [] []]; vm_compute; repeat split.
Qed.

Lemma splitWhen_mapS (isSep : ascii -> bool) (f : ascii -> ascii) (s : string) :
  (forall c, isSep (f c) = isSep c) ->
  JS.splitWhen isSep (JS.mapS f s) = map (JS.mapS f) (JS.splitWhen isSep s).
Proof.
  intros Hf. induction s as [|c s IH]; [reflexivity|].
  cbn [JS.mapS JS.splitWhen]. rewrite Hf, IH.
  destruct (isSep c); [reflexivity|].
  destruct (JS.splitWhen isSep s); reflexivity.
Qed.

Lemma trimStart_mapS (f : ascii -> ascii) (s : string) :
  (forall c, JS.isSpace (f c) = JS.isSpace c) ->
  JS.trimStart (JS.mapS f s) = JS.mapS f (JS.trimStart s).
Proof.
  intros Hf. induction s as [|c s IH]; [reflexivity|].
  cbn [JS.mapS JS.trimStart]. rewrite Hf. destruct (JS.isSpace c); [exact IH|reflexivity].
Qed.

Lemma revS_mapS (f : ascii -> ascii) (s acc : string) :
  JS.revS (JS.mapS f acc) (JS.mapS f s) = JS.mapS f (JS.revS acc s).
Proof.
  revert acc. induction s as [|c s IH]; intros acc; [reflexivity|].
  cbn [JS.mapS JS.revS]. apply (IH (String c acc)).
Qed.

Lemma trim_mapS (f : ascii -> ascii) (s : string) :
  (forall c, JS.isSpace (f c) = JS.isSpace c) ->
  JS.trim (JS.mapS f s) = JS.mapS f (JS.trim s).
Proof.
  intros Hf. unfold JS.trim, JS.reverse.
  rewrite (trimStart_mapS f s Hf).
  rewrite (revS_mapS f _ EmptyString).
  rewrite (trimStart_mapS f _ Hf).
  apply (revS_mapS f _ EmptyString).
Qed.

Lemma toLowerCase_idempotent (s : string) :
  JS.toLowerCase (JS.toLowerCase s) = JS.toLowerCase s.
Proof.
  unfold JS.toLowerCase. induction s as [|c s IH]; [reflexivity|].
  cbn [JS.mapS]. rewrite IH. now destruct (lowerChar_facts c) as (_ & _ & ->).
Qed.

Lemma normalized_lower (mimeType : string) :
  Registry.normalized (JS.toLowerCase mimeType) = Registry.normalized mimeType.
Proof.
  unfold Registry.normalized, JS.split. unfold JS.toLowerCase at 2.
  rewrite splitWhen_mapS by (intros c; apply lowerChar_facts).
  replace (hd "" (map (JS.mapS JS.lowerChar) (JS.splitWhen (Ascii.eqb ";") mimeType)))
    with (JS.mapS JS.lowerChar (hd "" (JS.splitWhen (Ascii.eqb ";") mimeType)))
    by (destruct (JS.splitWhen _ mimeType); reflexivity).
  rewrite trim_mapS by (intros c; apply lowerChar_facts).
  apply toLowerCase_idempotent.
Qed.

Lemma normalized_parameters (mimeType parameters : string) :
  URL.allS (fun c => negb (Ascii.eqb ";" c)) mimeType = true ->
  Registry.normalized (mimeType ++ String ";" parameters) = Registry.normalized mimeType.
Proof.
  intros H. unfold Registry.normalized, JS.split.
  rewrite (splitWhen_append (Ascii.eqb ";") mimeType ";" parameters H eq_refl).
  now rewrite (splitWhen_no_sep _ _ H).
Qed.

(** The lookup by MIME type depends on neither the parameters after the
    first semicolon nor the case of the letters. *)
Theorem findForMimeType_ignores_parameters_and_case (r : Registry.t)
    (mimeType parameters : string) :
  URL.allS (fun c => negb (Ascii.eqb ";" c)) mimeType = true ->
  Registry.findForMimeType r (mimeType ++ String ";" parameters)
  = Registry.findForMimeType r mimeType
  /\ Registry.findForMimeType r (JS.toLowerCase mimeType ++ String ";" parameters)
     = Registry.findForMimeType r mimeType.
Proof.
  intros H. unfold Registry.findForMimeType.
  rewrite (normalized_parameters mimeType parameters H). split; [reflexivity|].
  rewrite normalized_parameters.
  - now rewrite normalized_lower.
  - clear parameters. unfold JS.toLowerCase.
    induction mimeType as [|c s IH]; [reflexivity|].
    cbn [JS.mapS URL.allS] in *. apply andb_prop in H as [Hc Hs].
    destruct (lowerChar_facts c) as (-> & _). now rewrite Hc, IH.
Qed.

Lemma findForMimeType_ignores_parameters_and_case_witness :
  Registry.findForMimeType
    (createDefaultRegistry TextExtractor.extract TextExtractor.extract TextExtractor.extract)
    ("text/html" ++ String ";" " charset=utf-8")
  = Registry.findForMimeType
      (createDefaultRegistry TextExtractor.extract TextExtractor.extract TextExtractor.extract)
      "text/html".
Proof.
  apply (findForMimeType_ignores_parameters_and_case _ "text/html" " charset=utf-8").
  reflexivity.
Defined.

(** Evaluates the test of the first remaining extractor. *)
Ltac first_test :=
  cbn [List.find];
  match goal with
  | |- context [if ?b then _ else _] =>
      let v := eval vm_compute in b in
      replace b with v by (vm_compute; reflexivity); cbv iota
  end.

Section DefaultRegistry.

Variables html pdf json : string -> string -> completion ExtractedContent.

Local Abbreviation registry := (createDefaultRegistry html pdf json).

(** In the default registry every MIME type an extractor lists is resolved
    to that extractor, a content type is always resolved (the default
    extractor is set, so [getDefault] does not throw), and a content type that
    no extractor lists is passed through as text, with a title and no
    links. *)
Theorem default_registry_resolves :
  (forall e mt, In e (Registry.extractors registry) -> In mt (Registry.mimeTypes e) ->
                Registry.findForMimeType registry mt = Some e)
  /\ (forall contentType,
        exists e, In e (Registry.extractors registry)
                  /\ forall buffer u,
                       Registry.resolve registry contentType buffer u
                       = Registry.extract e buffer u)
  /\ (forall contentType buffer u,
        Registry.findForMimeType registry contentType = None ->
        Registry.resolve registry contentType buffer u
        = Returns {| text := buffer;
                     title := Some (TextExtractor.extractTitleFromUrl u);
                     links := None |}).
Proof.
  split; [|split].
  - intros e mt He Hmt.
    unfold createDefaultRegistry, Registry.register, Registry.setDefault, Registry.new in He.
    cbn [Registry.extractors app In] in He.
    unfold Registry.findForMimeType, createDefaultRegistry, Registry.register,
      Registry.setDefault, Registry.new.
    cbn [Registry.extractors app].
    destruct He as [<-|[<-|[<-|[<-|[]]]]];
      cbn [Registry.mimeTypes TextExtractor.textExtractor In] in Hmt;
      repeat (destruct Hmt as [<-|Hmt]; [repeat first_test; reflexivity|]); destruct Hmt.
  - intros contentType. unfold Registry.resolve.
    destruct (Registry.findForMimeType registry contentType) as [e|] eqn:Hfind.
    + exists e. split; [|reflexivity].
      unfold Registry.findForMimeType in Hfind. now apply find_some in Hfind.
    + exists TextExtractor.textExtractor. split; [|reflexivity].
      cbn. auto.
  - intros contentType buffer u Hfind. unfold Registry.resolve. rewrite Hfind. reflexivity.
Qed.

End DefaultRegistry.

(** ** The text extractor's titles *)

Lemma splitWhen_pieces (isSep : ascii -> bool) (s : string) :
  forall piece, In piece (JS.splitWhen isSep s) ->
                URL.allS (fun c => negb (isSep c)) piece = true.
Proof.
  induction s as [|c s IH]; intros piece; cbn [JS.splitWhen].
  - intros [<-|[]]. reflexivity.
  - destruct (isSep c) eqn:Hc.
    + intros [<-|H]; [reflexivity|now apply IH].
    + destruct (JS.splitWhen isSep s) as [|p ps].
      * intros [<-|[]]. cbn [URL.allS]. now rewrite Hc.
      * intros [<-|H].
        -- cbn [URL.allS]. rewrite Hc. apply IH. now left.
        -- apply IH. now right.
Qed.

Lemma filter_all_empty (pieces : list string) :
  (forall piece, In piece pieces -> piece = "") ->
  List.filter LinkScorer.truthy pieces = [].
Proof.
  induction pieces as [|piece pieces IH]; intros H; [reflexivity|].
  cbn [List.filter]. rewrite (H piece (or_introl eq_refl)). cbn.
  apply IH. intros p Hp. apply H. now right.
Qed.

(** The title of a text page is the last non-empty segment of the URL's
    path, and the URL itself when the URL does not parse or its path has no
    such segment; a title taken from the path holds no slash, and the title of
    a non-empty URL is never empty. *)
Theorem extractTitleFromUrl_facts (u : string) :
  (u <> "" -> TextExtractor.extractTitleFromUrl u <> "")
  /\ (URL.parse u = None -> TextExtractor.extractTitleFromUrl u = u)
  /\ (forall o,
        newURL u = Returns o ->
        (forall piece, In piece (JS.split "/" (URL.pathname (urlOf o))) -> piece = "") ->
        TextExtractor.extractTitleFromUrl u = u)
  /\ (forall o before piece after,
        newURL u = Returns o ->
        JS.split "/" (URL.pathname (urlOf o)) = (before ++ piece :: after)%list ->
        piece <> "" ->
        (forall a, In a after -> a = "") ->
        TextExtractor.extractTitleFromUrl u = piece
        /\ URL.allS (fun c => negb (Ascii.eqb "/" c)) piece = true).
Proof.
  unfold TextExtractor.extractTitleFromUrl.
  split; [|split; [|split]].
  - intros Hu. destruct (newURL u) as [o|]; [|exact Hu].
    destruct (last _) as [piece|]; [|exact Hu].
    destruct (LinkScorer.truthy piece) eqn:Ht; [|exact Hu].
    intros ->. discriminate Ht.
  - intros Hp. now rewrite (newURL_fails u Hp).
  - intros o -> Hall. now rewrite (filter_all_empty _ Hall).
  - intros o before piece after -> Hsplit Hpiece Hafter.
    assert (Ht : LinkScorer.truthy piece = true).
    { unfold LinkScorer.truthy. destruct (String.eqb_spec piece ""); [contradiction|reflexivity]. }
    rewrite Hsplit, List.filter_app. cbn [List.filter]. rewrite Ht.
    rewrite (filter_all_empty _ Hafter).
    rewrite last_snoc, Ht. split; [reflexivity|].
    apply (splitWhen_pieces (Ascii.eqb "/") (URL.pathname (urlOf o))).
    unfold JS.split in Hsplit. rewrite Hsplit. apply in_app_iff. right. now left.
Qed.

(** ** The URL adapter *)

Section UrlAdapterLoad.

Import UrlAdapter.

Variable adapter : UrlAdapter.t.
Variable config : UrlAdapterConfig.
Variable maxTokens : option Z.
Variable fetch : Fetch.

Lemma validate_cases (u : string) :
  (validate u = None /\ exists o, newURL u = Returns o /\ httpProtocol o = true)
  \/ (validate u = Some (LoadError u "Invalid URL format")
      /\ (URL.parse u = None \/ exists o, newURL u = Returns o /\ httpProtocol o = false)).
Proof.
  unfold validate, validateTry, newURL.
  destruct (URL.parse u) as [p|] eqn:Hp; cbn [newURLOf mbind completion_bind].
  - destruct (httpProtocol _) eqn:Hh; cbn [negb].
    + left. split; [reflexivity|]. eexists. split; [reflexivity|exact Hh].
    + right. split; [reflexivity|]. right. eexists. split; [reflexivity|exact Hh].
  - right. split; [reflexivity|]. now left.
Qed.


Lemma validateAll_some (seeds : list string) (failure : Outcome) :
  validateAll seeds = Some failure ->
  exists u, In u seeds /\ failure = LoadError u "Invalid URL format".
Proof.
  induction seeds as [|v seeds IH]; cbn [validateAll]; [discriminate|].
  destruct (validate_cases v) as [[-> _]|[-> _]].
  - intros H. destruct (IH H) as (u & Hin & ->). exists u. split; [now right|reflexivity].
  - intros [= <-]. exists v. split; [now left|reflexivity].
Qed.

Lemma validateAll_first (pre post : list string) (u : string) :
  (forall v, In v pre -> exists o, newURL v = Returns o /\ httpProtocol o = true) ->
  validate u = Some (LoadError u "Invalid URL format") ->
  validateAll (pre ++ u :: post) = Some (LoadError u "Invalid URL format").
Proof.
  intros Hpre Hu. induction pre as [|v pre IH]; cbn [app validateAll].
  - now rewrite Hu.
  - destruct (validate_cases v) as [[-> _]|[_ [Hv|(o & Hv & Hh)]]].
    + apply IH. intros w Hw. apply Hpre. now right.
    + destruct (Hpre v (or_introl eq_refl)) as (o & Ho & _).
      rewrite (newURL_fails v Hv) in Ho. discriminate Ho.
    + destruct (Hpre v (or_introl eq_refl)) as (o' & Ho & Hh').
      rewrite Hv in Ho. injection Ho as <-. rewrite Hh in Hh'. discriminate Hh'.
Qed.

(** Validation comes before any request: the first seed that does not parse,
    or that parses under another scheme than http or https, makes [load]
    throw "Invalid URL format" for that seed, whatever the network and the
    other settings.  The message for unsupported schemes is thrown inside the
    [try] block and replaced by its [catch]. *)
Theorem load_rejects_first_bad_seed (fuel : nat) (pre post : list string) (u : string) :
  seedsOf config = (pre ++ u :: post)%list ->
  (forall v, In v pre -> exists o, newURL v = Returns o /\ httpProtocol o = true) ->
  (URL.parse u = None \/ exists o, newURL u = Returns o /\ httpProtocol o = false) ->
  load adapter config maxTokens fetch fuel = Some (LoadError u "Invalid URL format").
Proof.
  intros Hseeds Hpre Hu. unfold load. rewrite Hseeds.
  replace (length (pre ++ u :: post) =? 0)%nat with false
    by (symmetry; apply Nat.eqb_neq; rewrite length_app; cbn; lia).
  rewrite (validateAll_first pre post u Hpre); [reflexivity|].
  destruct (validate_cases u) as [[_ (o & Ho & Hh)]|[Hv _]]; [|exact Hv].
  destruct Hu as [Hu|(o' & Ho' & Hh')].
  - rewrite (newURL_fails u Hu) in Ho. discriminate Ho.
  - rewrite Ho in Ho'. injection Ho' as <-. rewrite Hh in Hh'. discriminate Hh'.
Qed.

(** The reasons [load] can throw are three; "Only HTTP/HTTPS URLs are
    supported" is not among them.  "No URL provided" is thrown exactly when
    [urls] is an empty array, or is absent while [url] is absent or empty: an
    empty [urls] hides a given [url]. *)
Theorem load_error_reasons (fuel : nat) :
  (forall source reason,
      load adapter config maxTokens fetch fuel = Some (LoadError source reason) ->
      (source = "url" /\ reason = "No URL provided")
      \/ (In source (seedsOf config) /\ reason = "Invalid URL format")
      \/ (source = JS.join ", " (seedsOf config)
          /\ exists message, reason = "Crawl failed: " ++ message))
  /\ (load adapter config maxTokens fetch fuel = Some (LoadError "url" "No URL provided")
      <-> urls config = Some []
          \/ (urls config = None /\ (url config = None \/ url config = Some ""))).
Proof.
  split.
  - intros source reason. unfold load.
    destruct (length (seedsOf config) =? 0)%nat; [intros [= <- <-]; auto|].
    destruct (validateAll (seedsOf config)) as [failure|] eqn:Hval.
    + destruct (validateAll_some _ _ Hval) as (u & Hin & ->).
      intros [= <- <-]. right. left. split; [exact Hin|reflexivity].
    + destruct (Crawler.crawl _ _ _ _ _) as [[result|message]|]; try discriminate.
      intros [= <- <-]. right. right. split; [reflexivity|]. now exists message.
  - assert (Hempty : seedsOf config = []
                     <-> urls config = Some []
                         \/ (urls config = None /\ (url config = None \/ url config = Some ""))).
    { unfold seedsOf. destruct (urls config) as [[|x l]|].
      - split; auto.
      - split; [discriminate|]. intros [H|[H _]]; discriminate H.
      - destruct (url config) as [[|c v]|]; cbn.
        + split; auto.
        + split; [discriminate|]. intros [H|[_ [H|H]]]; discriminate H.
        + split; auto. }
    rewrite <- Hempty. unfold load.
    destruct (seedsOf config) as [|v seeds] eqn:Hs; cbn [length Nat.eqb].
    + split; auto.
    + split; [|discriminate]. intros H. exfalso.
      destruct (validateAll (v :: seeds)) as [failure|] eqn:Hval.
      * destruct (validateAll_some _ _ Hval) as (u & _ & ->). discriminate H.
      * destruct (Crawler.crawl _ _ _ _ _) as [[result|message]|]; discriminate H.
Qed.


End UrlAdapterLoad.

(** ** Dispatch of a source *)

(** A GitHub repository URL is never a generic URL: the order of the first
    two tests of [loadSingleSource] does not matter, and such a source goes
    to the GitHub loader whether or not a URL adapter is configured. *)
Theorem github_sources_bypass_url_adapter (source : string) :
  Dispatch.isGitHubUrl source = true ->
  UrlAdapter.isGenericUrl source = false
  /\ forall configured, Dispatch.loadSingleSource configured source
                        = Returns Dispatch.GitHubRepository.
Proof.
  intros H. split.
  - unfold Dispatch.isGitHubUrl in H. unfold UrlAdapter.isGenericUrl.
    destruct (newURL source) as [o|]; [|reflexivity].
    apply andb_prop in H as [Hh _].
    apply orb_prop in Hh as [Hh|Hh]; apply String.eqb_eq in Hh; rewrite Hh;
      apply andb_false_r.
  - intros configured. unfold Dispatch.loadSingleSource. now rewrite H.
Qed.

Lemma github_sources_bypass_url_adapter_witness :
  UrlAdapter.isGenericUrl "https://github.com/logos-flux/mnemo" = false.
Proof.
  apply github_sources_bypass_url_adapter. vm_compute. reflexivity.
Defined.

Lemma newURL_empty : URL.parse "" = None.
Proof. vm_compute. reflexivity. Qed.

(** A source that [loadSingleSource] hands to the URL adapter passes the
    adapter's own validation: the adapter then returns a loaded source or
    reports a failed crawl, never a missing or malformed URL. *)
Theorem generic_sources_pass_validation (adapter : UrlAdapter.t) (maxTokens : option Z)
    (fetch : Fetch) (fuel : nat) (configured : bool) (source : string) :
  Dispatch.loadSingleSource configured source = Returns Dispatch.GenericUrl ->
  UrlAdapter.seedsOf (urlSource source) = [source]
  /\ UrlAdapter.validateAll [source] = None
  /\ forall failedSource reason,
       UrlAdapter.load adapter (urlSource source) maxTokens fetch fuel
       = Some (UrlAdapter.LoadError failedSource reason) ->
       failedSource = source /\ exists message, reason = "Crawl failed: " ++ message.
Proof.
  unfold Dispatch.loadSingleSource.
  destruct (Dispatch.isGitHubUrl source); [discriminate|].
  destruct (UrlAdapter.isGenericUrl source) eqn:Hg.
  2:{ destruct (Dispatch.isUrl source); discriminate. }
  intros _. unfold UrlAdapter.isGenericUrl in Hg.
  destruct (newURL source) as [o|] eqn:Ho; [|discriminate].
  apply andb_prop in Hg as [Hh _].
  assert (Hs : UrlAdapter.seedsOf (urlSource source) = [source]).
  { unfold UrlAdapter.seedsOf, urlSource. cbn [UrlAdapter.urls UrlAdapter.url].
    destruct source; [|reflexivity].
    unfold newURL in Ho. rewrite newURL_empty in Ho. discriminate Ho. }
  assert (Hv : UrlAdapter.validateAll [source] = None).
  { cbn [UrlAdapter.validateAll].
    destruct (validate_cases source) as [[-> _]|[_ [Hp|(o' & Ho' & Hh')]]]; [reflexivity| |].
    - rewrite (newURL_fails source Hp) in Ho. discriminate Ho.
    - rewrite Ho in Ho'. injection Ho' as <-. rewrite Hh in Hh'. discriminate Hh'. }
  split; [exact Hs|]. split; [exact Hv|].
  intros failedSource reason. unfold UrlAdapter.load. rewrite Hs, Hv.
  cbn [length Nat.eqb].
  destruct (Crawler.crawl _ _ _ _ _) as [[result|message]|]; try discriminate.
  intros [= <- <-]. split; [reflexivity|]. now exists message.
Qed.

Lemma generic_sources_pass_validation_witness :
  UrlAdapter.validateAll ["https://example.com/docs"] = None.
Proof.
  refine (proj1 (proj2 (generic_sources_pass_validation Examples.textAdapter None
                          Scenario.openSite 10%nat true "https://example.com/docs" _))).
  vm_compute. reflexivity.
Defined.

(** ** The properties on examples *)

Lemma robots_load_once_witness :
  Robots.load Scenario.brokenSite Scenario.privateRules = Scenario.privateRules.
Proof.
  apply (proj2 (proj2 (proj2 (proj2
           (robots_load_once Scenario.brokenSite Scenario.brokenSite Scenario.privateRules))))).
  reflexivity.
Defined.

Lemma robots_parse_patterns_witness :
  Robots.parse ("User-agent: *" ++ String "010" "Disallow: /private$")
  = [{| Robots.userAgent := "*"; Robots.allow := []; Robots.disallow := ["/private$"] |}]
  /\ "/private$" <> "".
Proof.
  split; [vm_compute; reflexivity|].
  refine (proj2 (proj1 (robots_parse_patterns
                          ("User-agent: *" ++ String "010" "Disallow: /private$"))
                   {| Robots.userAgent := "*"; Robots.allow := [];
                      Robots.disallow := ["/private$"] |} _) "/private$" _).
  - vm_compute. left. reflexivity.
  - left. reflexivity.
Defined.

Lemma estimateTokens_is_ceiling_witness :
  JS.len "hello" <= JS.len "hello, world"
  /\ Crawler.estimateTokens "hello" <= Crawler.estimateTokens "hello, world".
Proof.
  assert (H : JS.len "hello" <= JS.len "hello, world") by (vm_compute; discriminate).
  split; [exact H|].
  exact (proj2 (proj2 (estimateTokens_is_ceiling "hello")) "hello, world" H).
Defined.

Lemma default_registry_resolves_witness :
  Registry.resolve
    (createDefaultRegistry TextExtractor.extract TextExtractor.extract TextExtractor.extract)
    "application/octet-stream" "raw" "https://a.com/files/data.bin"
  = Returns {| text := "raw";
               title := Some (TextExtractor.extractTitleFromUrl "https://a.com/files/data.bin");
               links := None |}.
Proof.
  apply (proj2 (proj2 (default_registry_resolves TextExtractor.extract TextExtractor.extract
                         TextExtractor.extract))).
  unfold Registry.findForMimeType, createDefaultRegistry, Registry.register,
    Registry.setDefault, Registry.new.
  cbn [Registry.extractors app].
  repeat first_test. reflexivity.
Defined.

Lemma extractTitleFromUrl_facts_witness :
  TextExtractor.extractTitleFromUrl "https://a.com/files/data.bin" = "data.bin"
  /\ URL.allS (fun c => negb (Ascii.eqb "/" c)) "data.bin" = true.
Proof.
  refine (proj2 (proj2 (proj2 (extractTitleFromUrl_facts "https://a.com/files/data.bin")))
            Examples.dataFile [""; "files"] "data.bin" [] _ _ _ _).
  - vm_compute. reflexivity.
  - vm_compute. reflexivity.
  - discriminate.
  - intros a [].
Defined.

Lemma load_rejects_first_bad_seed_witness :
  UrlAdapter.load Examples.textAdapter Examples.twoSeeds None Scenario.openSite 10%nat
  = Some (UrlAdapter.LoadError "ftp://a.com/two" "Invalid URL format").
Proof.
  apply (load_rejects_first_bad_seed Examples.textAdapter Examples.twoSeeds None
           Scenario.openSite 10%nat ["https://a.com/one"] ["not a url"] "ftp://a.com/two").
  - reflexivity.
  - intros v [<-|[]]. eexists. split; vm_compute; reflexivity.
  - right. eexists. split; vm_compute; reflexivity.
Defined.

Lemma load_error_reasons_witness :
  UrlAdapter.load Examples.textAdapter Examples.emptyList None Scenario.openSite 10%nat
  = Some (UrlAdapter.LoadError "url" "No URL provided").
Proof.
  apply (proj2 (load_error_reasons Examples.textAdapter Examples.emptyList None
                  Scenario.openSite 10%nat)).
  left. reflexivity.
Defined.


(** ** Links that are not absolute *)

Section RelativeLinks.

Import Crawler.

Variable config : CrawlConfig.



End RelativeLinks.

